(** * Thailand Law MCP: citation parser, formatter, validator, statute-id
      resolver and FTS query builder.

    A shallow embedding of
      - [src/citation/parser.ts]     (grammar regexes, [parseCitation]),
      - [src/citation/formatter.ts]  ([formatCitation]),
      - [src/citation/validator.ts]  ([validateCitation]),
      - [src/utils/statute-id.ts]    ([resolveExistingStatuteId]),
      - [src/utils/fts-query.ts]     ([buildFtsQueryVariants]),
    together with the part of the ECMAScript string and regular-expression
    semantics those functions rely on. *)

From Stdlib Require Import String Ascii.
From Stdlib Require Import List NArith ZArith Bool Lia.
Import ListNotations.

Set Implicit Arguments.

(* ================================================================= *)
(** * Part I: definitions *)
(* ================================================================= *)

(** ** ECMAScript strings *)

Module Js.

(** A JavaScript string is a sequence of UTF-16 code units. *)
Definition char := N.
Definition str := list char.

Definition char_eqb (a b : char) : bool := N.eqb a b.

Fixpoint str_eqb (s t : str) : bool :=
  match s, t with
  | [], [] => true
  | a :: s', b :: t' => char_eqb a b && str_eqb s' t'
  | _, _ => false
  end.

(** Literals of the source are written as Rocq strings; a Rocq string is a
    sequence of UTF-8 bytes, decoded here to UTF-16 code units. *)
Definition utf16_of_cp (cp : N) : list N :=
  (if cp <? 65536 then [cp]
   else [55296 + (cp - 65536) / 1024; 56320 + (cp - 65536) mod 1024])%N.

Fixpoint utf8_decode (l : list N) : list N :=
  match l with
  | [] => []
  | b0 :: t0 =>
    if (b0 <? 128)%N then b0 :: utf8_decode t0
    else match t0 with
    | [] => []
    | b1 :: t1 =>
      if (b0 <? 224)%N
      then ((b0 - 192) * 64 + (b1 - 128))%N :: utf8_decode t1
      else match t1 with
      | [] => []
      | b2 :: t2 =>
        if (b0 <? 240)%N
        then ((b0 - 224) * 4096 + (b1 - 128) * 64 + (b2 - 128))%N
               :: utf8_decode t2
        else match t2 with
        | [] => []
        | b3 :: t3 =>
          utf16_of_cp ((b0 - 240) * 262144 + (b1 - 128) * 4096
                       + (b2 - 128) * 64 + (b3 - 128))%N
            ++ utf8_decode t3
        end
      end
    end
  end.

Definition lit (s : String.string) : str :=
  utf8_decode (map Ascii.N_of_ascii (String.list_ascii_of_string s)).

(** The double-quote character, U+0022. *)
Definition dquote : char := 34%N.

(** [WhiteSpace] and [LineTerminator] code units: what [String.prototype.trim]
    strips and what the regular-expression class [\s] matches. *)
Definition is_ws (c : char) : bool :=
  ((9 <=? c) && (c <=? 13) || (c =? 32) || (c =? 160) || (c =? 5760)
   || (8192 <=? c) && (c <=? 8202) || (c =? 8232) || (c =? 8233)
   || (c =? 8239) || (c =? 8287) || (c =? 12288) || (c =? 65279))%N.

(** [LineTerminator] code units: what the class [.] refuses. *)
Definition is_line_terminator (c : char) : bool :=
  ((c =? 10) || (c =? 13) || (c =? 8232) || (c =? 8233))%N.

Definition is_digit (c : char) : bool := ((48 <=? c) && (c <=? 57))%N.
Definition is_lower (c : char) : bool := ((97 <=? c) && (c <=? 122))%N.
Definition is_upper (c : char) : bool := ((65 <=? c) && (c <=? 90))%N.

(** The class [\w], which decides the word boundary [\b]. *)
Definition is_word (c : char) : bool :=
  is_lower c || is_upper c || is_digit c || (c =? 95)%N.

Fixpoint drop_ws (s : str) : str :=
  match s with
  | a :: s' => if is_ws a then drop_ws s' else s
  | [] => []
  end.

(** [s.trim()] *)
Definition trim (s : str) : str := rev (drop_ws (rev (drop_ws s))).

(** [s.slice(0, n)] for a non-negative [n]. *)
Definition slice0 (n : nat) (s : str) : str := firstn n s.

(** [s.toLowerCase()].  Only the mapping of the ASCII letters is modelled:
    the results are compared with ASCII keys and ASCII patterns only, and no
    character outside ASCII lower-cases to an ASCII letter except U+0130 and
    U+212A, which are mapped here as ECMAScript maps them. *)
Definition lower_units (c : char) : list char :=
  if is_upper c then [(c + 32)%N]
  else if (c =? 304)%N then [105%N; 775%N]
  else if (c =? 8490)%N then [107%N]
  else [c].

Definition toLowerCase (s : str) : str := flat_map lower_units s.

(** [s.includes(t)] *)
Fixpoint starts_with (t s : str) : bool :=
  match t, s with
  | [], _ => true
  | a :: t', b :: s' => char_eqb a b && starts_with t' s'
  | _ :: _, [] => false
  end.

Fixpoint includes (s t : str) : bool :=
  starts_with t s ||
  match s with
  | [] => false
  | _ :: s' => includes s' t
  end.

(** JavaScript numbers, as far as the citation code needs them: integers
    and [NaN]. *)
Inductive num := Int (z : Z) | NaN.

Definition num_sub (a : num) (k : Z) : num :=
  match a with Int z => Int (z - k) | NaN => NaN end.
Definition num_add (a : num) (k : Z) : num :=
  match a with Int z => Int (z + k) | NaN => NaN end.
Definition num_gt (a : num) (k : Z) : bool :=
  match a with Int z => (k <? z)%Z | NaN => false end.

Definition digit_val (c : char) : Z := Z.of_N (c - 48).

Fixpoint digits_prefix (s : str) : str :=
  match s with
  | a :: s' => if is_digit a then a :: digits_prefix s' else []
  | [] => []
  end.

Definition digits_value (ds : str) : Z :=
  fold_left (fun acc d => (acc * 10 + digit_val d)%Z) ds 0%Z.

(** [parseInt(s, 10)]: leading white space, an optional sign, then the
    longest prefix of decimal digits; [NaN] when there is no digit. *)
Definition parseInt10 (s : str) : num :=
  let s1 := drop_ws s in
  let '(neg, s2) :=
    match s1 with
    | c :: r => if (c =? 45)%N then (true, r)
                else if (c =? 43)%N then (false, r) else (false, s1)
    | [] => (false, s1)
    end in
  match digits_prefix s2 with
  | [] => NaN
  | ds => Int (if neg then - digits_value ds else digits_value ds)
  end.

(** Decimal digits of a natural number, most significant first. *)
Fixpoint dec_digits (fuel : nat) (n : N) (acc : str) : str :=
  match fuel with
  | O => acc
  | S f =>
    let acc' := (48 + n mod 10)%N :: acc in
    if (n <? 10)%N then acc' else dec_digits f (n / 10)%N acc'
  end.

Definition dec_of_N (n : N) : str := dec_digits (S (N.to_nat (N.log2 n))) n [].

(** Number-to-string conversion as a template literal performs it. *)
Definition num_to_str (a : num) : str :=
  match a with
  | NaN => lit "NaN"
  | Int z =>
    if (z <? 0)%Z then 45%N :: dec_of_N (Z.to_N (- z)) else dec_of_N (Z.to_N z)
  end.

(** Joining with a separator: [a.join(sep)]. *)
Fixpoint join (sep : str) (l : list str) : str :=
  match l with
  | [] => []
  | [x] => x
  | x :: l' => x ++ sep ++ join sep l'
  end.

(** The outcome of a call that may raise an exception. *)
Inductive outcome (A : Type) :=
| Ok (a : A)
| Throw (msg : String.string).
Arguments Ok {A} a.
Arguments Throw {A} msg.

End Js.

(** ** A backtracking matcher for the regular expressions of the source *)

Module Regex.
Import Js.

(** The constructs the source's patterns use.  [Star greedy r] is [r*]
    ([greedy = true]) or [r*?]; [Group n r] is the [n]-th capturing group;
    [Bol], [Eol] and [WordB] are the assertions [^], [$] and [\b]. *)
Inductive regex :=
| Eps
| Chr (p : char -> bool)
| Seq (r1 r2 : regex)
| Alt (r1 r2 : regex)
| Star (greedy : bool) (r : regex)
| Group (n : nat) (r : regex)
| Bol
| Eol
| WordB.

(** Captures, most recent first. *)
Definition caps := list (nat * str).

Fixpoint cap (n : nat) (c : caps) : option str :=
  match c with
  | [] => None
  | (m, w) :: c' => if Nat.eqb m n then Some w else cap n c'
  end.

(** A position is the input read so far, reversed, and the input left.
    A continuation receives the position and the captures. *)
Definition cont := str -> str -> caps -> option caps.

Definition or_else (a : option caps) (b : unit -> option caps) : option caps :=
  match a with
  | Some c => Some c
  | None => b tt
  end.

(** Iteration of a quantified atom [m]; an iteration that consumes nothing
    is refused, as the RepeatMatcher of ECMAScript does. *)
Fixpoint star_loop (m : str -> str -> caps -> cont -> option caps)
    (greedy : bool) (fuel : nat) (l s : str) (c : caps) (k : cont)
    : option caps :=
  match fuel with
  | O => k l s c
  | S fuel' =>
    let again (_ : unit) :=
      m l s c (fun l' s' c' =>
        if Nat.ltb (length s') (length s)
        then star_loop m greedy fuel' l' s' c' k
        else None) in
    if greedy then or_else (again tt) (fun _ => k l s c)
    else or_else (k l s c) again
  end.

Definition is_word_at (s : str) : bool :=
  match s with
  | a :: _ => is_word a
  | [] => false
  end.

Fixpoint rmatch (r : regex) (l s : str) (c : caps) (k : cont) {struct r}
    : option caps :=
  match r with
  | Eps => k l s c
  | Chr p =>
    match s with
    | a :: s' => if p a then k (a :: l) s' c else None
    | [] => None
    end
  | Seq r1 r2 => rmatch r1 l s c (fun l' s' c' => rmatch r2 l' s' c' k)
  | Alt r1 r2 => or_else (rmatch r1 l s c k) (fun _ => rmatch r2 l s c k)
  | Star g r' => star_loop (rmatch r') g (length s) l s c k
  | Group n r' =>
    rmatch r' l s c (fun l' s' c' =>
      k l' s' ((n, firstn (length s - length s') s) :: c'))
  | Bol => match l with [] => k l s c | _ :: _ => None end
  | Eol => match s with [] => k l s c | _ :: _ => None end
  | WordB => if xorb (is_word_at l) (is_word_at s) then k l s c else None
  end.

Definition accept : cont := fun _ _ c => Some c.

(** The first match, trying the start positions from left to right. *)
Fixpoint search (r : regex) (l s : str) : option caps :=
  match rmatch r l s [] accept with
  | Some c => Some c
  | None =>
    match s with
    | [] => None
    | a :: s' => search r (a :: l) s'
    end
  end.

(** [s.match(re)] for a pattern without the [g] flag, and [re.test(s)]. *)
Definition re_match (r : regex) (s : str) : option caps := search r [] s.

Definition re_test (r : regex) (s : str) : bool :=
  match search r [] s with Some _ => true | None => false end.

(** Pattern syntax. *)
Definition chr (a : char) : regex := Chr (fun c => char_eqb c a).

(** A character under the [i] flag.  The patterns of the source hold ASCII
    letters, ASCII punctuation and Thai letters only; for those, the
    Canonicalize operation of ECMAScript (without the [u] flag) identifies
    exactly the two ASCII cases of a letter: a code unit of 128 or more never
    canonicalizes to an ASCII one, and no other code unit upper-cases to a
    Thai letter. *)
Definition chr_i (a : char) : regex :=
  Chr (fun c =>
    char_eqb c a
    || (is_lower a && char_eqb c (a - 32)%N)
    || (is_upper a && char_eqb c (a + 32)%N)).

Fixpoint seq_of (f : char -> regex) (s : str) : regex :=
  match s with
  | [] => Eps
  | [a] => f a
  | a :: s' => Seq (f a) (seq_of f s')
  end.

Definition text (s : String.string) : regex := seq_of chr (lit s).
Definition text_i (s : String.string) : regex := seq_of chr_i (lit s).

Definition opt (r : regex) : regex := Alt r Eps.
Definition plus (r : regex) : regex := Seq r (Star true r).
Definition plus_lazy (r : regex) : regex := Seq r (Star false r).
Definition star (r : regex) : regex := Star true r.

Fixpoint seqs (rs : list regex) : regex :=
  match rs with
  | [] => Eps
  | [r] => r
  | r :: rs' => Seq r (seqs rs')
  end.

Definition digit : regex := Chr is_digit.
Definition space : regex := Chr is_ws.
Definition dot : regex := Chr (fun c => negb (is_line_terminator c)).
Definition digit4 : regex := seqs [digit; digit; digit; digit].

End Regex.

(** ** [src/citation/parser.ts] *)

Module Parser.
Import Js Regex.

Inductive citation_type := statute | royal_decree | unknown.

(** The interface [ParsedCitation] of [src/types/citations.ts].  An
    optional field is an [option]; a year is a [num], an integer or [NaN],
    which is what [parseInt] returns. *)
Record ParsedCitation := mkParsed {
  valid : bool;
  type : citation_type;
  title : option str;
  title_en : option str;
  abbreviation : option str;
  be_year : option num;
  ce_year : option num;
  section : option str;
  subsection : option str;
  paragraph : option str;
  error : option str
}.

(** The pinpoint [\d+(?:\/\d+)?(?:\(\d+\))*] shared by all grammars; written PIN
    in the patterns quoted below. *)
Definition pinpoint_re : regex :=
  seqs [plus digit;
        opt (Seq (text "/") (plus digit));
        star (seqs [text "("; plus digit; text ")"])].

(** [(?:Section|s\.?)] and [(?:Section|s\.?|มาตรา)] under the [i] flag. *)
Definition marker_en : regex :=
  Alt (text_i "Section") (Seq (text_i "s") (opt (text_i "."))).

Definition marker_any : regex :=
  Alt (text_i "Section")
      (Alt (Seq (text_i "s") (opt (text_i "."))) (text_i "มาตรา")).

(** [B\.?E\.?] under the [i] flag. *)
Definition be_marker : regex :=
  seqs [text_i "B"; opt (text_i "."); text_i "E"; opt (text_i ".")].

(** [(?:\s*\(\d{4}\))?] *)
Definition paren_year : regex :=
  opt (seqs [star space; text "("; digit4; text ")"]).

(** [/^มาตรา\s+(PIN)\s+(.+?)\s+พ\.ศ\.\s*(\d{4})$/] *)
Definition THAI_CITATION : regex :=
  seqs [Bol; text "มาตรา"; plus space; Group 1 pinpoint_re; plus space;
        Group 2 (plus_lazy dot); plus space; text "พ.ศ."; star space;
        Group 3 digit4; Eol].

(** [/^(?:Section|s\.?)\s+(PIN)\s*,?\s+(.+?)\s+B\.?E\.?\s*(\d{4})(?:\s*\(\d{4}\))?$/i] *)
Definition ENGLISH_BE_CITATION : regex :=
  seqs [Bol; marker_en; plus space; Group 1 pinpoint_re; star space;
        opt (text_i ","); plus space; Group 2 (plus_lazy dot); plus space;
        be_marker; star space; Group 3 digit4; paren_year; Eol].

(** [/^(?:Section|s\.?)\s+(PIN)\s*,?\s+(.+?)\s+(\d{4})$/i] *)
Definition ENGLISH_CE_CITATION : regex :=
  seqs [Bol; marker_en; plus space; Group 1 pinpoint_re; star space;
        opt (text_i ","); plus space; Group 2 (plus_lazy dot); plus space;
        Group 3 digit4; Eol].

(** [/^s\.?\s+(PIN)\s*,?\s+(.+?)\s+(\d{4})$/i] *)
Definition SHORT_CITATION : regex :=
  seqs [Bol; text_i "s"; opt (text_i "."); plus space; Group 1 pinpoint_re;
        star space; opt (text_i ","); plus space; Group 2 (plus_lazy dot);
        plus space; Group 3 digit4; Eol].

(** [/^(.+?)\s+B\.?E\.?\s*(\d{4})(?:\s*\(\d{4}\))?\s*,?\s*(?:Section|s\.?|มาตรา)\s*(PIN)$/i] *)
Definition TRAILING_SECTION_BE : regex :=
  seqs [Bol; Group 1 (plus_lazy dot); plus space; be_marker; star space;
        Group 2 digit4; paren_year; star space; opt (text_i ",");
        star space; marker_any; star space; Group 3 pinpoint_re; Eol].

(** [/^(.+?)\s+(\d{4})\s*,?\s*(?:Section|s\.?|มาตรา)\s*(PIN)$/i] *)
Definition TRAILING_SECTION_CE : regex :=
  seqs [Bol; Group 1 (plus_lazy dot); plus space; Group 2 digit4;
        star space; opt (text_i ","); star space; marker_any; star space;
        Group 3 pinpoint_re; Eol].

(** [[a-z]] and [[a-z0-9-]] under the [i] flag. *)
Definition id_first (c : char) : bool := is_lower c || is_upper c.
Definition id_char (c : char) : bool :=
  is_lower c || is_upper c || is_digit c || char_eqb c 45%N.

(** [/^([a-z][a-z0-9-]+)\s*,?\s*(?:Section|s\.?|มาตรา)\s*(PIN)$/i] *)
Definition ID_BASED : regex :=
  seqs [Bol; Group 1 (Seq (Chr id_first) (plus (Chr id_char))); star space;
        opt (text_i ","); star space; marker_any; star space;
        Group 2 pinpoint_re; Eol].

(** [/^(\d+(?:\/\d+)?)(?:\((\d+)\))?(?:\(([a-z])\))?$/] *)
Definition SECTION_REF : regex :=
  seqs [Bol;
        Group 1 (Seq (plus digit) (opt (Seq (text "/") (plus digit))));
        opt (seqs [text "("; Group 2 (plus digit); text ")"]);
        opt (seqs [text "("; Group 3 (Chr is_lower); text ")"]);
        Eol].

(** [match[n]] for a group that takes part in every match of its pattern. *)
Definition group (m : caps) (n : nat) : str :=
  match cap n m with
  | Some w => w
  | None => []
  end.

(** [x || undefined] for an optional string. *)
Definition or_undefined (o : option str) : option str :=
  match o with
  | Some [] => None
  | _ => o
  end.

Definition ABBREVIATION_MAP : list (str * str) :=
  [(lit "pdpa", lit "Personal Data Protection Act");
   (lit "cca", lit "Computer Crime Act");
   (lit "csa", lit "Cybersecurity Act");
   (lit "eta", lit "Electronic Transactions Act");
   (lit "ccc", lit "Civil and Commercial Code")].

Definition THAI_SHORT_MAP : list (str * str) :=
  [(lit "พ.ร.บ.คุ้มครองข้อมูลส่วนบุคคล", lit "Personal Data Protection Act");
   (lit "พ.ร.บ.ว่าด้วยการกระทำความผิดเกี่ยวกับคอมพิวเตอร์", lit "Computer Crime Act");
   (lit "พ.ร.บ.การรักษาความมั่นคงปลอดภัยไซเบอร์", lit "Cybersecurity Act");
   (lit "พ.ร.บ.ว่าด้วยธุรกรรมทางอิเล็กทรอนิกส์", lit "Electronic Transactions Act");
   (lit "ประมวลกฎหมายแพ่งและพาณิชย์", lit "Civil and Commercial Code")].

(** The value of a property read [obj[key]] on an object literal whose own
    properties are strings: an own string, or a member inherited from
    [Object.prototype], which is not a string. *)
Inductive prop_value :=
| PStr (s : str)
| PInherited.

(** The property names of [Object.prototype]. *)
Definition object_prototype_names : list str :=
  map lit ["constructor"; "__defineGetter__"; "__defineSetter__";
           "hasOwnProperty"; "__lookupGetter__"; "__lookupSetter__";
           "isPrototypeOf"; "propertyIsEnumerable"; "toString"; "valueOf";
           "__proto__"; "toLocaleString"]%string.

Fixpoint assoc (key : str) (m : list (str * str)) : option str :=
  match m with
  | [] => None
  | (k, v) :: m' => if str_eqb k key then Some v else assoc key m'
  end.

Definition get_property (m : list (str * str)) (key : str)
    : option prop_value :=
  match assoc key m with
  | Some v => Some (PStr v)
  | None =>
    if existsb (str_eqb key) object_prototype_names
    then Some PInherited else None
  end.

Fixpoint first_included (thaiTitle : str) (entries : list (str * str))
    : option str :=
  match entries with
  | [] => None
  | (key, value) :: rest =>
    if includes thaiTitle key then Some value
    else first_included thaiTitle rest
  end.

Definition resolveThaiTitle (thaiTitle : str) : option str :=
  first_included thaiTitle THAI_SHORT_MAP.

Definition resolveAbbreviation (abbrev : str) : option prop_value :=
  get_property ABBREVIATION_MAP (toLowerCase abbrev).

(** [parseSection]; [title.trim()] raises a TypeError when [title] is not a
    string. *)
Definition parseSection (sectionStr : str) (title : prop_value)
    (beYear ceYear : num) (ty : citation_type) : outcome ParsedCitation :=
  match title with
  | PInherited => Throw "TypeError: title.trim is not a function"
  | PStr title =>
    match re_match SECTION_REF sectionStr with
    | None =>
      Ok {| valid := true; type := ty; title := Some (trim title);
            title_en := None; abbreviation := None;
            be_year := Some beYear; ce_year := Some ceYear;
            section := Some sectionStr;
            subsection := None; paragraph := None; error := None |}
    | Some sectionMatch =>
      Ok {| valid := true; type := ty; title := Some (trim title);
            title_en := None; abbreviation := None;
            be_year := Some beYear; ce_year := Some ceYear;
            section := Some (group sectionMatch 1);
            subsection := or_undefined (cap 2 sectionMatch);
            paragraph := or_undefined (cap 3 sectionMatch);
            error := None |}
    end
  end.

(** The heuristic of the short and universal-epoch grammars. *)
Definition ce_of_year (year : num) : num :=
  if num_gt year 2400 then num_sub year 543 else year.
Definition be_of_year (year : num) : num :=
  if num_gt year 2400 then year else num_add year 543.

Definition parseCitation (citation : str) : outcome ParsedCitation :=
  let trimmed := trim citation in
  match re_match THAI_CITATION trimmed with
  | Some m =>
    let beYear := parseInt10 (group m 3) in
    let thaiTitle := trim (group m 2) in
    let englishTitle := resolveThaiTitle thaiTitle in
    parseSection (group m 1)
      (PStr (match englishTitle with Some t => t | None => thaiTitle end))
      beYear (num_sub beYear 543) statute
  | None =>
  match re_match ENGLISH_BE_CITATION trimmed with
  | Some m =>
    let beYear := parseInt10 (group m 3) in
    parseSection (group m 1) (PStr (group m 2)) beYear (num_sub beYear 543)
      statute
  | None =>
  match re_match TRAILING_SECTION_BE trimmed with
  | Some m =>
    let beYear := parseInt10 (group m 2) in
    parseSection (group m 3) (PStr (group m 1)) beYear (num_sub beYear 543)
      statute
  | None =>
  match re_match SHORT_CITATION trimmed with
  | Some m =>
    let yearOrAbbrev := trim (group m 2) in
    let year := parseInt10 (group m 3) in
    let resolved := resolveAbbreviation yearOrAbbrev in
    let ceYear := ce_of_year year in
    let beYear := be_of_year year in
    parseSection (group m 1)
      (match resolved with Some v => v | None => PStr yearOrAbbrev end)
      beYear ceYear statute
  | None =>
  match re_match ID_BASED trimmed with
  | Some m =>
    let idPart := toLowerCase (group m 1) in
    Ok {| valid := true; type := statute; title := Some idPart;
          title_en := None; abbreviation := None; be_year := None; ce_year := None;
          section := Some (group m 2);
          subsection := None; paragraph := None; error := None |}
  | None =>
  match re_match ENGLISH_CE_CITATION trimmed with
  | Some m =>
    let year := parseInt10 (group m 3) in
    parseSection (group m 1) (PStr (group m 2))
      (be_of_year year) (ce_of_year year) statute
  | None =>
  match re_match TRAILING_SECTION_CE trimmed with
  | Some m =>
    let year := parseInt10 (group m 2) in
    parseSection (group m 3) (PStr (group m 1))
      (be_of_year year) (ce_of_year year) statute
  | None =>
    Ok {| valid := false; type := unknown; title := None;
          title_en := None; abbreviation := None; be_year := None; ce_year := None;
          section := None; subsection := None; paragraph := None;
          error := Some (lit "Could not parse Thai citation: " ++ [dquote]
                         ++ trimmed ++ [dquote]) |}
  end end end end end end end.

End Parser.

(** ** [src/citation/formatter.ts] *)

Module Formatter.
Import Js Parser.

(** Truthiness of an optional string: present and not empty. *)
Definition truthy (o : option str) : bool :=
  match o with
  | Some (_ :: _) => true
  | _ => false
  end.

(** [x ?? ''] inside a template literal. *)
Definition str_or_empty (o : option str) : str :=
  match o with
  | Some s => s
  | None => []
  end.

Definition num_or_empty (o : option num) : str :=
  match o with
  | Some n => num_to_str n
  | None => []
  end.

Definition buildPinpoint (parsed : ParsedCitation) : str :=
  let ref := str_or_empty (section parsed) in
  let ref :=
    if truthy (subsection parsed)
    then ref ++ lit "(" ++ str_or_empty (subsection parsed) ++ lit ")"
    else ref in
  let ref :=
    if truthy (paragraph parsed)
    then ref ++ lit "(" ++ str_or_empty (paragraph parsed) ++ lit ")"
    else ref in
  ref.

Definition full_en_template (parsed : ParsedCitation) (pinpoint : str) : str :=
  trim (lit "Section " ++ pinpoint ++ lit ", " ++ str_or_empty (title parsed)
        ++ lit " B.E. " ++ num_or_empty (be_year parsed)
        ++ lit " (" ++ num_or_empty (ce_year parsed) ++ lit ")").

(** [formatCitation(parsed, format = 'full_en')]; [format] is a string at
    run time, [None] when the argument is left out. *)
Definition formatCitation (parsed : ParsedCitation) (format : option str)
    : str :=
  let format := match format with Some f => f | None => lit "full_en" end in
  if negb (valid parsed) || negb (truthy (section parsed)) then []
  else
    let pinpoint := buildPinpoint parsed in
    if str_eqb format (lit "full_th") then
      trim (lit "มาตรา " ++ pinpoint ++ lit " " ++ str_or_empty (title parsed)
            ++ lit " พ.ศ. " ++ num_or_empty (be_year parsed))
    else if str_eqb format (lit "full_en") then
      full_en_template parsed pinpoint
    else if str_eqb format (lit "short") then
      trim (lit "s. " ++ pinpoint ++ lit ", "
            ++ match abbreviation parsed with
               | Some a => a
               | None => str_or_empty (title parsed)
               end
            ++ lit " " ++ num_or_empty (ce_year parsed))
    else if str_eqb format (lit "pinpoint") then
      lit "s. " ++ pinpoint
    else
      full_en_template parsed pinpoint.

End Formatter.

(** ** The document store *)

Module Store.
Import Js.

(** Rows of the tables [legal_documents] and [legal_provisions], with the
    columns the queries of the source read; a nullable column is an
    [option]. *)
Record document := mkDocument {
  doc_id : str;
  doc_title : str;
  doc_title_en : option str;
  doc_short_name : option str;
  doc_status : str;
  doc_be_year : option Z;
  doc_ce_year : option Z
}.

Record provision := mkProvision {
  prov_document_id : str;
  prov_provision_ref : str;
  prov_section : str
}.

(** A database state: the rows of each table in the order a scan visits
    them. *)
Record Database := mkDatabase {
  legal_documents : list document;
  legal_provisions : list provision
}.

(** [column LIKE pattern] on a nullable column: NULL is never selected. *)
Definition like_opt (like : str -> str -> bool) (pattern : str)
    (column : option str) : bool :=
  match column with
  | Some v => like pattern v
  | None => false
  end.

(** [column = n] on a nullable integer column. *)
Definition eq_opt (column : option Z) (n : Z) : bool :=
  match column with
  | Some v => Z.eqb v n
  | None => false
  end.

(** [`%${x}%`] *)
Definition wrap (x : str) : str := lit "%" ++ x ++ lit "%".

(** The LIKE operator as SQLite defines it (the engine is no part of the
    repository): [%] stands for any sequence, [_] for any one character, and
    the ASCII letters match in either case. *)
Definition ascii_fold (c : char) : char :=
  if is_upper c then (c + 32)%N else c.

Fixpoint sqlite_like (pattern : str) : str -> bool :=
  match pattern with
  | [] => fun v => match v with [] => true | _ :: _ => false end
  | p :: pattern' =>
    if char_eqb p 37%N then
      fix any (v : str) : bool :=
        sqlite_like pattern' v
        || match v with [] => false | _ :: v' => any v' end
    else if char_eqb p 95%N then
      fun v => match v with [] => false | _ :: v' => sqlite_like pattern' v' end
    else
      fun v =>
        match v with
        | [] => false
        | a :: v' =>
          char_eqb (ascii_fold a) (ascii_fold p) && sqlite_like pattern' v'
        end
  end.

End Store.

(** ** [src/utils/statute-id.ts] *)

Module StatuteId.
Import Js Store.

Definition beToce (beYear : Z) : Z := (beYear - 543)%Z.
Definition ceToBe (ceYear : Z) : Z := (ceYear + 543)%Z.

(** The three statements [resolveExistingStatuteId] prepares. *)
Inductive query :=
| ById                (* SELECT id ... WHERE id = ? LIMIT 1 *)
| ByTitle             (* ... WHERE title LIKE ? OR title_en LIKE ? LIMIT 1 *)
| ByShortName.        (* ... WHERE short_name LIKE ? LIMIT 1 *)

Section Resolve.

(** The LIKE operator of the engine: [like pattern value]. *)
Variable like : str -> str -> bool.

Definition selects (q : query) (inputId : str) (d : document) : bool :=
  match q with
  | ById => str_eqb (doc_id d) inputId
  | ByTitle =>
    like (wrap inputId) (doc_title d)
    || like_opt like (wrap inputId) (doc_title_en d)
  | ByShortName => like_opt like (wrap inputId) (doc_short_name d)
  end.

(** [db.prepare(sql).get(...)]: the first selected row, if any. *)
Definition get (db : Database) (q : query) (inputId : str) : option document :=
  find (selects q inputId) (legal_documents db).

(** A computation that reads the store, recording the statements it runs. *)
Definition reads (A : Type) : Type := list query -> A * list query.

Definition ret {A : Type} (a : A) : reads A := fun log => (a, log).

Definition bind {A B : Type} (m : reads A) (f : A -> reads B) : reads B :=
  fun log => let '(a, log') := m log in f a log'.

Definition run_get (db : Database) (q : query) (inputId : str)
    : reads (option document) :=
  fun log => (get db q inputId, log ++ [q]).

(** [resolveExistingStatuteId]; [None] is [null]. *)
Definition resolveExistingStatuteId (db : Database) (inputId : str)
    : reads (option str) :=
  bind (run_get db ById inputId) (fun exact =>
  match exact with
  | Some row => ret (Some (doc_id row))
  | None =>
    bind (run_get db ByTitle inputId) (fun byTitle =>
    match byTitle with
    | Some row => ret (Some (doc_id row))
    | None =>
      bind (run_get db ByShortName inputId) (fun byShort =>
      ret (match byShort with
           | Some row => Some (doc_id row)
           | None => None
           end))
    end)
  end).

End Resolve.

End StatuteId.

(** ** The resolver, in the spec's words *)

Module ResolverSpec.
Import Js Store.

(** Two strings that differ at most in the case of ASCII letters. *)
Definition same_ci (a b : str) : Prop :=
  map ascii_fold a = map ascii_fold b.

(** A substring match: [needle] occurs in [hay], the case of the ASCII
    letters ignored. *)
Definition substring_ci (needle hay : str) : Prop :=
  exists pre mid post, hay = pre ++ mid ++ post /\ same_ci mid needle.

(** A string without the wildcards of LIKE, [%] and [_]. *)
Definition wildcard_free (s : str) : bool :=
  forallb (fun c => negb (char_eqb c 37%N) && negb (char_eqb c 95%N)) s.

End ResolverSpec.

(** ** [src/citation/validator.ts] *)

Module Validator.
Import Js Parser Formatter Store.

(** The interface [ValidationResult] of [src/types/citations.ts]. *)
Record ValidationResult := mkValidation {
  citation : ParsedCitation;
  document_exists : bool;
  provision_exists : bool;
  document_title : option str;
  status : option str;
  warnings : list str
}.

Section Validate.

Variable like : str -> str -> bool.

(** [be_year ?? ce_year ?? 0] *)
Definition yearSearch_of (parsed : ParsedCitation) : num :=
  match be_year parsed with
  | Some y => y
  | None =>
    match ce_year parsed with
    | Some y => y
    | None => Int 0
    end
  end.

(** [be_year = ? OR ce_year = ? OR ? = 0]; a [NaN] parameter equals
    nothing. *)
Definition year_selects (yearSearch : num) (d : document) : bool :=
  match yearSearch with
  | Int y => eq_opt (doc_be_year d) y || eq_opt (doc_ce_year d) y || Z.eqb y 0
  | NaN => false
  end.

Definition document_selects (titleSearch : str) (yearSearch : num)
    (d : document) : bool :=
  (like (wrap titleSearch) (doc_title d)
   || like_opt like (wrap titleSearch) (doc_title_en d)
   || like_opt like (wrap titleSearch) (doc_short_name d))
  && year_selects yearSearch d.

Definition provision_selects (docId provisionRef pinpoint : str)
    (allowPrefixMatch : bool) (p : provision) : bool :=
  str_eqb (prov_document_id p) docId
  && (str_eqb (prov_provision_ref p) provisionRef
      || str_eqb (prov_section p) pinpoint
      || (allowPrefixMatch
          && (like (provisionRef ++ lit "(%") (prov_provision_ref p)
              || like (pinpoint ++ lit "(%") (prov_section p)))).

Definition is_none {A : Type} (o : option A) : bool :=
  match o with
  | None => true
  | Some _ => false
  end.

Definition display_title (doc : document) : str :=
  match doc_title_en doc with
  | Some t => t
  | None => doc_title doc
  end.

(** [validateCitation]; an exception of [parseCitation] propagates. *)
Definition validateCitation (db : Database) (citation : str)
    : outcome ValidationResult :=
  match parseCitation citation with
  | Throw msg => Throw msg
  | Ok parsed =>
    Ok (
    if negb (valid parsed) then
      {| citation := parsed; document_exists := false;
         provision_exists := false; document_title := None; status := None;
         warnings := [match error parsed with
                      | Some e => e
                      | None => lit "Invalid citation format"
                      end] |}
    else
      let titleSearch := str_or_empty (title parsed) in
      let yearSearch := yearSearch_of parsed in
      match find (document_selects titleSearch yearSearch) (legal_documents db)
      with
      | None =>
        {| citation := parsed; document_exists := false;
           provision_exists := false; document_title := None; status := None;
           warnings := [lit "Document " ++ [dquote] ++ titleSearch ++ [dquote]
                        ++ lit " not found in database"] |}
      | Some doc =>
        let warnings :=
          if str_eqb (doc_status doc) (lit "repealed")
          then [lit "This statute has been repealed"] else [] in
        let '(provisionExists, warnings) :=
          if truthy (section parsed) then
            let pinpoint :=
              str_or_empty (section parsed)
              ++ (if truthy (subsection parsed)
                  then lit "(" ++ str_or_empty (subsection parsed) ++ lit ")"
                  else [])
              ++ (if truthy (paragraph parsed)
                  then lit "(" ++ str_or_empty (paragraph parsed) ++ lit ")"
                  else []) in
            let provisionRef := lit "s" ++ pinpoint in
            let allowPrefixMatch :=
              is_none (subsection parsed) && is_none (paragraph parsed) in
            let prov :=
              find (provision_selects (doc_id doc) provisionRef pinpoint
                      allowPrefixMatch) (legal_provisions db) in
            match prov with
            | Some _ => (true, warnings)
            | None =>
              (false,
               warnings ++ [lit "Section " ++ pinpoint ++ lit " not found in "
                            ++ display_title doc])
            end
          else (false, warnings) in
        {| citation := parsed; document_exists := true;
           provision_exists := provisionExists;
           document_title := Some (display_title doc);
           status := Some (doc_status doc);
           warnings := warnings |}
      end)
  end.

End Validate.

End Validator.

(** ** [src/utils/fts-query.ts] *)

Module FtsQuery.
Import Js Regex.

(** The class of the first alternative holds the double-quote character,
    written Q below, three times. *)
Definition quote_class (c : char) : bool :=
  char_eqb c dquote || char_eqb c dquote || char_eqb c dquote.

(** [/[QQQ]|(\bAND\b)|(\bOR\b)|(\bNOT\b)|\*$/] *)
Definition EXPLICIT_FTS_SYNTAX : regex :=
  Alt (Chr quote_class)
 (Alt (Group 1 (seqs [WordB; text "AND"; WordB]))
 (Alt (Group 2 (seqs [WordB; text "OR"; WordB]))
 (Alt (Group 3 (seqs [WordB; text "NOT"; WordB]))
      (Seq (text "*") Eol)))).

Definition MAX_QUERY_LENGTH : nat := 1000.

Record FtsQueryVariants := mkVariants {
  primary : str;
  fallback : option str
}.

(** [.replace(/[\u201C\u201D]/g, Q)] *)
Definition is_smart_quote (c : char) : bool :=
  char_eqb c 8220%N || char_eqb c 8221%N.

Definition normalise_quotes (s : str) : str :=
  map (fun c => if is_smart_quote c then dquote else c) s.

(** [.replace(/;/g, '')] *)
Definition strip_semicolons (s : str) : str :=
  filter (fun c => negb (char_eqb c 59%N)) s.

(** [.replace(/--/g, '')]: the occurrences are found from left to right and
    do not overlap. *)
Fixpoint strip_comments (s : str) : str :=
  match s with
  | a :: s' =>
    match s' with
    | b :: s'' =>
      if char_eqb a 45%N && char_eqb b 45%N then strip_comments s''
      else a :: strip_comments s'
    | [] => [a]
    end
  | [] => []
  end.

(** [(s.match(/Q/g) ?? []).length] *)
Definition quoteCount (s : str) : nat :=
  List.length (filter (fun c => char_eqb c dquote) s).

(** [s.split(/\s+/)]: the pieces between the maximal runs of white space,
    an empty piece included when the string starts or ends with one.
    [cur] is the current piece, reversed; [in_sep] tells that the previous
    code unit was white space. *)
Fixpoint split_ws_from (s : str) (cur : str) (in_sep : bool) : list str :=
  match s with
  | [] => [rev cur]
  | a :: s' =>
    if is_ws a then
      if in_sep then split_ws_from s' [] true
      else rev cur :: split_ws_from s' [] true
    else split_ws_from s' (a :: cur) false
  end.

Definition split_ws (s : str) : list str := split_ws_from s [] false.

Definition nonempty (t : str) : bool :=
  match t with
  | [] => false
  | _ :: _ => true
  end.

Definition is_high_surrogate (c : char) : bool :=
  ((55296 <=? c) && (c <=? 56319))%N.
Definition is_low_surrogate (c : char) : bool :=
  ((56320 <=? c) && (c <=? 57343))%N.
Definition code_point (hi lo : char) : N :=
  ((hi - 55296) * 1024 + (lo - 56320) + 65536)%N.

Section Sanitise.

(** The Unicode property classes [\p{L}] and [\p{N}], on code points. *)
Variable unicode_L unicode_N : N -> bool.

(** A code point the class [[^\p{L}\p{N}_-]] does not match. *)
Definition kept (cp : N) : bool :=
  unicode_L cp || unicode_N cp || (cp =? 95)%N || (cp =? 45)%N.

(** [token.replace(/[^\p{L}\p{N}_-]/gu, '')]: under the [u] flag the
    pattern reads code points, a surrogate pair being one of them. *)
Fixpoint sanitiseToken (token : str) : str :=
  match token with
  | [] => []
  | a :: t' =>
    match t' with
    | b :: t'' =>
      if is_high_surrogate a && is_low_surrogate b then
        if kept (code_point a b) then a :: b :: sanitiseToken t''
        else sanitiseToken t''
      else if kept a then a :: sanitiseToken t' else sanitiseToken t'
    | [] => if kept a then [a] else []
    end
  end.

Definition tokens_of (trimmed : str) : list str :=
  filter nonempty (map sanitiseToken (filter nonempty (split_ws trimmed))).

Definition empty_phrase : str := [dquote; dquote].

Definition buildFtsQueryVariants (query : str) : FtsQueryVariants :=
  let trimmed := slice0 MAX_QUERY_LENGTH (trim query) in
  if Nat.eqb (List.length trimmed) 0 then
    {| primary := empty_phrase; fallback := None |}
  else if re_test EXPLICIT_FTS_SYNTAX trimmed then
    let normalised :=
      slice0 MAX_QUERY_LENGTH
        (strip_comments (strip_semicolons (normalise_quotes trimmed))) in
    let normalised :=
      if negb (Nat.eqb (Nat.modulo (quoteCount normalised) 2) 0)
      then normalised ++ [dquote] else normalised in
    {| primary := normalised; fallback := None |}
  else
    let tokens := tokens_of trimmed in
    if Nat.eqb (List.length tokens) 0 then
      {| primary := empty_phrase; fallback := None |}
    else
      {| primary :=
           join (lit " ") (map (fun t => [dquote] ++ t ++ [dquote] ++ lit "*")
                               tokens);
         fallback :=
           Some (join (lit " OR ") (map (fun t => t ++ lit "*") tokens)) |}.

End Sanitise.

End FtsQuery.

(** ** The grammars of the parser, as a table *)

Module ParserSpec.
Import Js Regex Parser.

(** The characters of a pinpoint: digits, [/], [(] and [)]. *)
Definition pin_char (c : char) : bool :=
  is_digit c || char_eqb c 47%N || char_eqb c 40%N || char_eqb c 41%N.

Inductive grammar :=
| Thai | EnglishBE | TrailingBE | Short | IdBased | EnglishCE | TrailingCE.

Definition grammar_re (g : grammar) : regex :=
  match g with
  | Thai => THAI_CITATION
  | EnglishBE => ENGLISH_BE_CITATION
  | TrailingBE => TRAILING_SECTION_BE
  | Short => SHORT_CITATION
  | IdBased => ID_BASED
  | EnglishCE => ENGLISH_CE_CITATION
  | TrailingCE => TRAILING_SECTION_CE
  end.

(** The order in which [parseCitation] tries the grammars. *)
Definition grammars : list grammar :=
  [Thai; EnglishBE; TrailingBE; Short; IdBased; EnglishCE; TrailingCE].

Fixpoint first_match (gs : list grammar) (trimmed : str)
    : option (grammar * caps) :=
  match gs with
  | [] => None
  | g :: gs' =>
    match re_match (grammar_re g) trimmed with
    | Some m => Some (g, m)
    | None => first_match gs' trimmed
    end
  end.

(** The grammar that decides a trimmed citation, with its captures. *)
Definition classify (trimmed : str) : option (grammar * caps) :=
  first_match grammars trimmed.

(** The capture groups of the pinpoint, of the title and of the year. *)
Definition pin_group (g : grammar) : nat :=
  match g with
  | TrailingBE | TrailingCE => 3
  | IdBased => 2
  | _ => 1
  end.

Definition title_group (g : grammar) : nat :=
  match g with
  | TrailingBE | TrailingCE | IdBased => 1
  | _ => 2
  end.

Definition year_group (g : grammar) : nat :=
  match g with
  | TrailingBE | TrailingCE => 2
  | _ => 3
  end.

Definition has_year (g : grammar) : bool :=
  match g with
  | IdBased => false
  | _ => true
  end.

(** The grammars whose four-digit year may belong to either epoch. *)
Definition ambiguous_year (g : grammar) : bool :=
  match g with
  | Short | EnglishCE | TrailingCE => true
  | _ => false
  end.

(** The title [parseCitation] hands to [parseSection]. *)
Definition title_value (g : grammar) (m : caps) : prop_value :=
  match g with
  | Thai =>
    let thaiTitle := trim (group m 2) in
    PStr (match resolveThaiTitle thaiTitle with
          | Some t => t
          | None => thaiTitle
          end)
  | Short =>
    let yearOrAbbrev := trim (group m 2) in
    match resolveAbbreviation yearOrAbbrev with
    | Some v => v
    | None => PStr yearOrAbbrev
    end
  | _ => PStr (group m (title_group g))
  end.

(** The two years [parseCitation] hands to [parseSection]. *)
Definition be_value (g : grammar) (m : caps) : num :=
  let year := parseInt10 (group m (year_group g)) in
  if ambiguous_year g then be_of_year year else year.

Definition ce_value (g : grammar) (m : caps) : num :=
  let year := parseInt10 (group m (year_group g)) in
  if ambiguous_year g then ce_of_year year else num_sub year 543.

(** The capturing groups of each grammar, in the order of the pattern. *)
Definition id_re : regex := Seq (Chr id_first) (plus (Chr id_char)).

Definition grammar_groups (g : grammar) : list (nat * regex) :=
  match g with
  | TrailingBE | TrailingCE =>
    [(1, plus_lazy dot); (2, digit4); (3, pinpoint_re)]
  | IdBased => [(1, id_re); (2, pinpoint_re)]
  | _ => [(1, pinpoint_re); (2, plus_lazy dot); (3, digit4)]
  end.

(** The shape of a pinpoint: digits, an optional [/digits], and groups of
    digits in parentheses. *)
Definition digits1 (d : str) : Prop :=
  d <> [] /\ Forall (fun a => is_digit a = true) d.

Definition paren_group (g : str) : Prop :=
  exists d, g = lit "(" ++ d ++ lit ")" /\ digits1 d.

Definition pin_shape (frag : str) : Prop :=
  exists d1 o gs,
    frag = d1 ++ o ++ concat gs /\ digits1 d1 /\
    (o = [] \/ exists d2, o = lit "/" ++ d2 /\ digits1 d2) /\
    Forall paren_group gs.

(** What may follow a pinpoint: the end, or a character no pinpoint
    holds. *)
Definition pin_stop (s' : str) : Prop :=
  match s' with
  | [] => True
  | a :: _ => pin_char a = false
  end.

(** [(w)] for a group that took part in the match, nothing otherwise. *)
Definition in_parens (o : option str) : str :=
  match o with
  | Some w => lit "(" ++ w ++ lit ")"
  | None => []
  end.

End ParserSpec.

(** ** A small store for the examples *)

Module Examples.
Import Js Store.

Definition pdpa : document :=
  {| doc_id := lit "pdpa-be2562";
     doc_title := lit "พระราชบัญญัติคุ้มครองข้อมูลส่วนบุคคล พ.ศ. 2562";
     doc_title_en := Some (lit "Personal Data Protection Act B.E. 2562 (2019)");
     doc_short_name := Some (lit "PDPA");
     doc_status := lit "in_force";
     doc_be_year := Some 2562%Z;
     doc_ce_year := Some 2019%Z |}.

Definition cca : document :=
  {| doc_id := lit "cca-be2550";
     doc_title := lit "พระราชบัญญัติว่าด้วยการกระทำความผิดเกี่ยวกับคอมพิวเตอร์ พ.ศ. 2550";
     doc_title_en := Some (lit "Computer Crime Act B.E. 2550 (2007)");
     doc_short_name := Some (lit "CCA");
     doc_status := lit "in_force";
     doc_be_year := Some 2550%Z;
     doc_ce_year := Some 2007%Z |}.

Definition example_db : Database :=
  {| legal_documents := [pdpa; cca];
     legal_provisions :=
       [{| prov_document_id := lit "pdpa-be2562";
           prov_provision_ref := lit "s3";
           prov_section := lit "3" |};
        {| prov_document_id := lit "cca-be2550";
           prov_provision_ref := lit "s5";
           prov_section := lit "5" |}] |}.

End Examples.

(** ** The query builder, in the spec's words *)

Module FtsSpec.
Import Js Regex FtsQuery.

(** The words of a string: its maximal runs of code units that are not
    white space. *)
Inductive words_of : str -> list str -> Prop :=
| words_end : words_of [] []
| words_space a s ws :
    is_ws a = true -> words_of s ws -> words_of (a :: s) ws
| words_word w rest ws :
    w <> [] -> Forall (fun c => is_ws c = false) w ->
    (rest = [] \/ exists a r, rest = a :: r /\ is_ws a = true) ->
    words_of rest ws ->
    words_of (w ++ rest) (w :: ws).




(** A word boundary between the text [before] and the text [after]:
    exactly one of the two adjacent code units is a word character. *)
Definition boundary (before after : str) : Prop :=
  xorb (is_word_at (rev before)) (is_word_at after) = true.

(** [w] occurs in [s] as a whole word. *)
Definition whole_word (w s : str) : Prop :=
  exists pre post, s = pre ++ w ++ post /\
    boundary pre (w ++ post) /\ boundary (pre ++ w) post.

(** Explicit syntax: a double quote, or [AND], [OR] or [NOT] as a whole
    word, or a trailing wildcard. *)
Definition explicit_syntax (s : str) : Prop :=
  In dquote s \/ whole_word (lit "AND") s \/ whole_word (lit "OR") s \/
  whole_word (lit "NOT") s \/ exists pre, s = pre ++ lit "*".

End FtsSpec.

(** ** Formatting and parsing back *)

Module RoundTrip.
Import Js Regex Parser Formatter.

(** What follows the title in [ENGLISH_BE_CITATION] and in
    [THAI_CITATION]. *)
Definition tail_en : regex :=
  seqs [plus space; be_marker; star space; Group 3 digit4; paren_year; Eol].

Definition tail_th : regex :=
  seqs [plus space; text "พ.ศ."; star space; Group 3 digit4; Eol].

(** A year of four digits prints as four digits and reads back. *)
Definition year_prints (n : nat) : bool :=
  match num_to_str (Int (Z.of_nat n)) with
  | [a; b; d; e] =>
    is_digit a && is_digit b && is_digit d && is_digit e &&
    match parseInt10 [a; b; d; e] with
    | Int m => Z.eqb m (Z.of_nat n)
    | NaN => false
    end
  | _ => false
  end.

(** A title free of year and section markers: no digit, and none of the
    markers the grammars look for. *)
Definition marker_free (t : str) : bool :=
  forallb (fun c => negb (is_digit c)) t
  && negb (includes (toLowerCase t) (lit "section"))
  && negb (includes (toLowerCase t) (lit "s."))
  && negb (includes (toLowerCase t) (lit "b.e"))
  && negb (includes (toLowerCase t) (lit "be "))
  && negb (includes t (lit "มาตรา"))
  && negb (includes t (lit "พ.ศ")).

(** A character the class [.] accepts. *)
Definition dot_char (x : char) : bool := negb (is_line_terminator x).

Definition full_en : option str := Some (lit "full_en").
Definition full_th : option str := Some (lit "full_th").

(** Formatting, parsing the result and formatting again. *)
Definition reformat (p : ParsedCitation) (f : option str) : outcome str :=
  match parseCitation (formatCitation p f) with
  | Ok p' => Ok (formatCitation p' f)
  | Throw msg => Throw msg
  end.

End RoundTrip.

(** ** What a pattern denotes *)

Module Sem.
Import Js Regex.

(** A relation between positions and captures: from [(l, s, c)] the
    pattern can reach [(l', s', c')]. *)
Definition step := str -> str -> caps -> str -> str -> caps -> Prop.

(** Zero or more iterations, each of which consumes input. *)
Inductive iter (R : step) : step :=
| iter_stop l s c : iter R l s c l s c
| iter_more l s c l1 s1 c1 l' s' c' :
    R l s c l1 s1 c1 ->
    List.length s1 < List.length s ->
    iter R l1 s1 c1 l' s' c' ->
    iter R l s c l' s' c'.

Fixpoint den (r : regex) : step :=
  fun l s c l' s' c' =>
  match r with
  | Eps => l' = l /\ s' = s /\ c' = c
  | Chr p => exists a, s = a :: s' /\ p a = true /\ l' = a :: l /\ c' = c
  | Seq r1 r2 =>
    exists l1 s1 c1, den r1 l s c l1 s1 c1 /\ den r2 l1 s1 c1 l' s' c'
  | Alt r1 r2 => den r1 l s c l' s' c' \/ den r2 l s c l' s' c'
  | Star _ r' => iter (den r') l s c l' s' c'
  | Group n r' =>
    exists c1, den r' l s c l' s' c1 /\
               c' = (n, firstn (List.length s - List.length s') s) :: c1
  | Bol => l = [] /\ l' = l /\ s' = s /\ c' = c
  | Eol => s = [] /\ l' = l /\ s' = s /\ c' = c
  | WordB =>
    xorb (is_word_at l) (is_word_at s) = true /\ l' = l /\ s' = s /\ c' = c
  end.

(** The capturing groups of a pattern, with their bodies. *)
Fixpoint groups_of (r : regex) : list (nat * regex) :=
  match r with
  | Seq r1 r2 | Alt r1 r2 => groups_of r1 ++ groups_of r2
  | Star _ r' => groups_of r'
  | Group n r' => (n, r') :: groups_of r'
  | _ => []
  end.

(** Every character class of the pattern lies within [P]. *)
Fixpoint chars_in (P : char -> bool) (r : regex) : Prop :=
  match r with
  | Chr p => forall a, p a = true -> P a = true
  | Seq r1 r2 | Alt r1 r2 => chars_in P r1 /\ chars_in P r2
  | Star _ r' | Group _ r' => chars_in P r'
  | _ => True
  end.

(** [w] is text read by the body of a group numbered [n] of [r],
    somewhere in [s]. *)
Definition captured_by (r : regex) (s : str) (n : nat) (w : str) : Prop :=
  exists r' la sa ca lb sb cb pre,
    In (n, r') (groups_of r) /\ den r' la sa ca lb sb cb /\
    sa = w ++ sb /\ s = pre ++ sa.

(** Group [n] lies on every path through the pattern. *)
Fixpoint always_sets (n : nat) (r : regex) : bool :=
  match r with
  | Seq r1 r2 => always_sets n r1 || always_sets n r2
  | Alt r1 r2 => always_sets n r1 && always_sets n r2
  | Group m r' => Nat.eqb m n || always_sets n r'
  | _ => false
  end.

(** [r] reads [w] in front of [s'] as its first choice: whenever the
    continuation accepts there, that is the result. *)
Definition leads (r : regex) (l w s' : str) (c c' : caps) : Prop :=
  forall k res,
    k (rev w ++ l) s' c' = Some res ->
    rmatch r l (w ++ s') c k = Some res.

(** The same for the iteration of [r], whatever fuel is enough. *)
Definition star_leads (r : regex) (l w s' : str) (c c' : caps) : Prop :=
  forall fuel k res,
    List.length (w ++ s') <= fuel ->
    k (rev w ++ l) s' c' = Some res ->
    star_loop (rmatch r) true fuel l (w ++ s') c k = Some res.

(** [r] cannot start at this position. *)
Definition fails (r : regex) (l s : str) (c : caps) : Prop :=
  forall k, rmatch r l s c k = None.

(** The number of code units of a string that are not white space. *)
Definition count_nonws (w : str) : nat :=
  List.length (filter (fun a => negb (is_ws a)) w).

(** [r] reads at most [n] code units that are not white space. *)
Fixpoint nonws_le (r : regex) (n : nat) : Prop :=
  match r with
  | Chr p => 1 <= n \/ forall a, p a = true -> is_ws a = true
  | Seq r1 r2 => exists n1 n2, n1 + n2 <= n /\ nonws_le r1 n1 /\ nonws_le r2 n2
  | Alt r1 r2 => nonws_le r1 n /\ nonws_le r2 n
  | Star _ r' => nonws_le r' 0
  | Group _ r' => nonws_le r' n
  | _ => True
  end.

(** The pattern ends with [$]. *)
Fixpoint ends_with_eol (r : regex) : bool :=
  match r with
  | Eol => true
  | Seq _ r2 => ends_with_eol r2
  | _ => false
  end.

End Sem.

(** ** More string operations of ECMAScript *)

Module JsText.
Import Js.

(** [s.replace(/\s+/g, rep)]: every maximal run of white space becomes
    [rep].  [in_run] tells that the previous code unit was white space. *)
Fixpoint replace_ws_from (rep s : str) (in_run : bool) : str :=
  match s with
  | [] => []
  | a :: s' =>
    if is_ws a then
      if in_run then replace_ws_from rep s' true
      else rep ++ replace_ws_from rep s' true
    else a :: replace_ws_from rep s' false
  end.

Definition replace_ws_runs (rep s : str) : str := replace_ws_from rep s false.

(** [s.replace(/a/g, b)] for two code units [a] and [b]. *)
Definition replace_unit (a b : char) (s : str) : str :=
  map (fun c => if char_eqb c a then b else c) s.

(** A [Set] of strings: its elements in insertion order.  [set_add] is
    [Set.prototype.add]. *)
Definition set_add (x : str) (s : list str) : list str :=
  if existsb (str_eqb x) s then s else s ++ [x].

(** [a ?? b] on optional values. *)
Definition nullish {A : Type} (a b : option A) : option A :=
  match a with
  | Some _ => a
  | None => b
  end.

(** A [Map] with string keys: its entries in insertion order.  [map_set]
    is [Map.prototype.set], which leaves an existing key where it is. *)
Fixpoint map_get {V : Type} (key : str) (m : list (str * V)) : option V :=
  match m with
  | [] => None
  | (k, v) :: m' => if str_eqb k key then Some v else map_get key m'
  end.

Fixpoint map_set {V : Type} (key : str) (v : V) (m : list (str * V))
    : list (str * V) :=
  match m with
  | [] => [(key, v)]
  | (k, v') :: m' =>
    if str_eqb k key then (key, v) :: m' else (k, v') :: map_set key v m'
  end.


End JsText.

(** ** The pinpoint sub-grammar, in parts *)

Module PinpointSpec.
Import Js Regex Parser.

(** [SECTION_REF] without its leading [^]. *)
Definition SECTION_REF_body : regex :=
  Seq (Group 1 (Seq (plus digit) (opt (Seq (text "/") (plus digit)))))
    (Seq (Alt (Seq (chr 40%N) (Seq (Group 2 (plus digit)) (chr 41%N))) Eps)
      (Seq (Alt (Seq (chr 40%N) (Seq (Group 3 (Chr is_lower)) (chr 41%N)))
                Eps)
           Eol)).

(** The number of opening parentheses of a string. *)
Definition opens (s : str) : nat :=
  List.length (filter (fun a => char_eqb a 40%N) s).

End PinpointSpec.

(** ** [src/utils/statute-id.ts]: identifiers as text *)

Module StatuteIdText.
Import Js JsText.

Definition isValidStatuteId (id : str) : bool :=
  Nat.ltb 0 (List.length id) && Nat.ltb 0 (List.length (trim id)).

Section Candidates.

(** [String.prototype.toLowerCase], whose Unicode case tables are not
    modelled here. *)
Variable toLowerCase : str -> str.

Definition statuteIdCandidates (id : str) : list str :=
  let trimmed := toLowerCase (trim id) in
  let candidates := [] in
  let candidates := set_add trimmed candidates in
  let candidates := set_add (trim id) candidates in
  let candidates :=
    if includes trimmed (lit " ")
    then set_add (replace_ws_runs (lit "-") trimmed) candidates
    else candidates in
  let candidates :=
    if includes trimmed (lit "-")
    then set_add (replace_unit 45%N 32%N trimmed) candidates
    else candidates in
  candidates.

End Candidates.

End StatuteIdText.

(** ** [src/utils/as-of-date.ts] *)

Module AsOfDate.
Import Js Regex.

(** [/^\d{4}-\d{2}-\d{2}$/] *)
Definition ISO_DATE_PATTERN : regex :=
  seqs [Bol; digit4; text "-"; Seq digit digit; text "-"; Seq digit digit;
        Eol].

Section Calendar.

(** [Date.parse], [None] standing for [NaN], and
    [new Date(t).toISOString()] for a time value [t]: the calendar of the
    engine is not modelled here. *)
Variable Date_parse : str -> option Z.
Variable toISOString : Z -> str.

Definition isValidCalendarDate (value : str) : bool :=
  match Date_parse (value ++ lit "T00:00:00Z") with
  | None => false
  | Some parsed => str_eqb (slice0 10 (toISOString parsed)) value
  end.

(** [normalizeAsOfDate]; [None] is [undefined]. *)
Definition normalizeAsOfDate (value : option str) : outcome (option str) :=
  match value with
  | None => Ok None
  | Some value =>
    let trimmed := trim value in
    if Nat.eqb (List.length trimmed) 0 then Ok None
    else if negb (re_test ISO_DATE_PATTERN trimmed)
            || negb (isValidCalendarDate trimmed)
    then Throw "Error: as_of_date must be an ISO date in YYYY-MM-DD format"
    else Ok (Some trimmed)
  end.

End Calendar.

End AsOfDate.

(** ** [src/utils/metadata.ts]: the envelope of a tool response *)

Module Metadata.
Import Js.

Record ToolResponse (ResponseMetadata T : Type) := mkToolResponse {
  results : T;
  _metadata : ResponseMetadata
}.

Record ResponseMetadata := mkMetadata {
  data_freshness : str;
  disclaimer : str;
  source_authority : str
}.

Definition STALENESS_THRESHOLD_DAYS : Z := 30.

(** The statement [generateResponseMetadata] runs on a database. *)
Definition built_at_sql : str :=
  lit "SELECT value FROM db_metadata WHERE key = 'built_at'".

Section Generate.

(** [db.prepare(sql).get()] on that statement: no row, or the row with its
    [value], which may be null; the engine may raise.  The table
    [db_metadata] is not modelled. *)
Variable get_value : Store.Database -> str -> outcome (option (option str)).

(** [Math.floor((Date.now() - new Date(value).getTime()) / 86400000)]: the
    clock and the parsing of dates are not modelled. *)
Variable daysSince : str -> num.

(** [generateResponseMetadata], with the statements it runs; [None] is a
    call without database. *)
Definition generateResponseMetadata (db : option Store.Database)
    : ResponseMetadata * list str :=
  let '(freshness, log) :=
    match db with
    | None => (lit "Database freshness unknown", [])
    | Some db =>
      (match get_value db built_at_sql with
       | Ok (Some (Some (a :: value))) =>
         let daysSince := daysSince (a :: value) in
         if num_gt daysSince STALENESS_THRESHOLD_DAYS
         then lit "WARNING: Database is " ++ num_to_str daysSince
              ++ lit " days old. Data may be outdated."
         else lit "Database built " ++ num_to_str daysSince
              ++ lit " day(s) ago."
       | Ok _ => lit "Database freshness unknown"
       | Throw _ => lit "Database freshness unknown"
       end,
       [built_at_sql])
    end in
  ({| data_freshness := freshness;
      disclaimer :=
        lit "This data is derived from the Office of the Council of State (krisdika.go.th). "
        ++ lit "Verify against official Royal Gazette publications when legal certainty is required.";
      source_authority :=
        lit "Office of the Council of State (สำนักงานคณะกรรมการกฤษฎีกา)" |},
   log).

End Generate.

End Metadata.

(** ** [src/tools/format-citation.ts] *)

Module FormatCitationTool.
Import Js Parser Formatter Metadata.

Record FormatCitationInput := mkInput {
  citation : str;
  format : option str
}.

Record FormatCitationResult := mkResult {
  input : str;
  formatted : str;
  type : citation_type;
  valid : bool;
  error : option str
}.

Section Tool.

(** [generateResponseMetadata], which reads the clock and the store. *)
Variable ResponseMetadata : Type.
Variable generateResponseMetadata : option Store.Database -> ResponseMetadata.

(** [formatCitationTool]; a rejected promise is [Throw]. *)
Definition formatCitationTool (input : FormatCitationInput)
    : outcome (ToolResponse ResponseMetadata FormatCitationResult) :=
  if negb (FtsQuery.nonempty (citation input))
     || Nat.eqb (List.length (trim (citation input))) 0
  then
    Ok {| results := {| input := []; formatted := []; type := unknown;
                        valid := false;
                        error := Some (lit "Empty citation") |};
          _metadata := generateResponseMetadata None |}
  else
    match parseCitation (citation input) with
    | Throw msg => Throw msg
    | Ok parsed =>
      if negb (Parser.valid parsed) then
        Ok {| results := {| input := citation input;
                            formatted := citation input;
                            type := unknown; valid := false;
                            error := Parser.error parsed |};
              _metadata := generateResponseMetadata None |}
      else
        let formatted :=
          formatCitation parsed
            (Some (match format input with
                   | Some f => f
                   | None => lit "full_en"
                   end)) in
        Ok {| results := {| input := citation input; formatted := formatted;
                            type := Parser.type parsed; valid := true;
                            error := None |};
              _metadata := generateResponseMetadata None |}
    end.

End Tool.

End FormatCitationTool.

(** ** [src/tools/validate-citation.ts] *)

Module ValidateCitationTool.
Import Js Parser Formatter Store Metadata.

(** The field [citation] of [ValidateCitationInput] is [input_citation]
    here: the result below has a field [citation] of its own. *)
Record ValidateCitationInput := mkInput {
  input_citation : str
}.

Record ValidateCitationResult := mkResult {
  citation : str;
  formatted_citation : str;
  valid : bool;
  document_exists : bool;
  provision_exists : bool;
  document_title : option str;
  status : option str;
  warnings : list str
}.

Section Tool.

Variable like : str -> str -> bool.
Variable ResponseMetadata : Type.
Variable generateResponseMetadata : option Database -> ResponseMetadata.

Definition validateCitationTool (db : Database)
    (input : ValidateCitationInput)
    : outcome (ToolResponse ResponseMetadata ValidateCitationResult) :=
  if negb (FtsQuery.nonempty (input_citation input))
     || Nat.eqb (List.length (trim (input_citation input))) 0
  then
    Ok {| results := {| citation := input_citation input;
                        formatted_citation := [];
                        valid := false; document_exists := false;
                        provision_exists := false;
                        document_title := None; status := None;
                        warnings := [lit "Empty citation"] |};
          _metadata := generateResponseMetadata (Some db) |}
  else
    match Validator.validateCitation like db (input_citation input) with
    | Throw msg => Throw msg
    | Ok result =>
      let formatted := formatCitation (Validator.citation result) None in
      Ok {| results :=
              {| citation := input_citation input;
                 formatted_citation := formatted;
                 valid := Parser.valid (Validator.citation result)
                          && Validator.document_exists result
                          && Validator.provision_exists result;
                 document_exists := Validator.document_exists result;
                 provision_exists := Validator.provision_exists result;
                 document_title := Validator.document_title result;
                 status := Validator.status result;
                 warnings := Validator.warnings result |};
            _metadata := generateResponseMetadata (Some db) |}
    end.

End Tool.

End ValidateCitationTool.

(** ** [src/tools/search-legislation.ts] *)

Module SearchLegislation.
Import Js JsText Formatter Store Metadata.



(** A value bound to a placeholder. *)
Inductive value :=
| VStr (s : str)
| VNum (n : num).




Section Tool.

Variable unicode_L unicode_N : N -> bool.
Variable Date_parse : str -> option Z.
Variable toISOString : Z -> str.

(** The engine and the clock behind [generateResponseMetadata]. *)
Variable get_value : Database -> str -> outcome (option (option str)).
Variable daysSince : str -> num.

(** The rows of a result, and [db.prepare(sql).all(...bound)]: the
    full-text engine is not modelled here. *)
Variable Row : Type.
Variable all : Database -> str -> list value -> outcome (list Row).



End Tool.

End SearchLegislation.

(** ** [scripts/build-db.ts]: duplicate provisions *)

Module BuildDb.
Import Js JsText.

Definition normalizeWhitespace (text : str) : str :=
  trim (replace_ws_runs (lit " ") text).

Record ProvisionDedupStats := mkStats {
  duplicate_refs : nat;
  conflicting_duplicates : nat
}.

Section Dedupe.

(** The type of the [metadata] objects of a seed file. *)
Variable Json : Type.

Record ProvisionSeed := mkSeed {
  provision_ref : str;
  chapter : option str;
  section : str;
  title : option str;
  content : str;
  language : option str;
  metadata : option Json
}.

Definition pickPreferredProvision (existing incoming : ProvisionSeed)
    : ProvisionSeed :=
  let existingContent := normalizeWhitespace (content existing) in
  let incomingContent := normalizeWhitespace (content incoming) in
  if Nat.ltb (List.length existingContent) (List.length incomingContent)
  then
    {| provision_ref := provision_ref incoming;
       chapter := chapter incoming;
       section := section incoming;
       title := nullish (title incoming) (title existing);
       content := content incoming;
       language := language incoming;
       metadata := metadata incoming |}
  else
    {| provision_ref := provision_ref existing;
       chapter := chapter existing;
       section := section existing;
       title := nullish (title existing) (title incoming);
       content := content existing;
       language := language existing;
       metadata := metadata existing |}.

(** One turn of the loop of [dedupeProvisions], on the map [byRef] and
    the counters. *)
Definition dedupe_step
    (state : list (str * ProvisionSeed) * ProvisionDedupStats)
    (provision : ProvisionSeed)
    : list (str * ProvisionSeed) * ProvisionDedupStats :=
  let '(byRef, stats) := state in
  let ref := trim (provision_ref provision) in
  match map_get ref byRef with
  | None =>
    (map_set ref
       {| provision_ref := ref;
          chapter := chapter provision;
          section := section provision;
          title := title provision;
          content := content provision;
          language := language provision;
          metadata := metadata provision |} byRef,
     stats)
  | Some existing =>
    let stats :=
      {| duplicate_refs := S (duplicate_refs stats);
         conflicting_duplicates := conflicting_duplicates stats |} in
    let existingContent := normalizeWhitespace (content existing) in
    let incomingContent := normalizeWhitespace (content provision) in
    let stats :=
      if negb (str_eqb existingContent incomingContent)
      then {| duplicate_refs := duplicate_refs stats;
              conflicting_duplicates := S (conflicting_duplicates stats) |}
      else stats in
    (map_set ref (pickPreferredProvision existing provision) byRef, stats)
  end.

Definition dedupeProvisions (provisions : list ProvisionSeed)
    : list ProvisionSeed * ProvisionDedupStats :=
  let '(byRef, stats) :=
    fold_left dedupe_step provisions
      ([], {| duplicate_refs := 0; conflicting_duplicates := 0 |}) in
  (map snd byRef, stats).

(** The key of a provision in the map, and the length that decides which
    of two duplicates is kept. *)
Definition key_of (p : ProvisionSeed) : str := trim (provision_ref p).

Definition size (p : ProvisionSeed) : nat :=
  List.length (normalizeWhitespace (content p)).

(** What the loop keeps true of the map, of the counters and of the
    provisions read so far. *)
Definition dedupe_inv
    (state : list (str * ProvisionSeed) * ProvisionDedupStats)
    (seen : list ProvisionSeed) : Prop :=
  NoDup (map fst (fst state)) /\
  (forall k v, map_get k (fst state) = Some v ->
     key_of v = k /\
     exists p, In p seen /\ key_of p = k /\ content v = content p) /\
  (forall p, In p seen ->
     exists v, map_get (key_of p) (fst state) = Some v /\ size p <= size v) /\
  List.length (fst state) + duplicate_refs (snd state) = List.length seen /\
  conflicting_duplicates (snd state) <= duplicate_refs (snd state).

End Dedupe.

End BuildDb.

(** ** [scripts/lib/parser.ts]: the year of a title *)

Module Ingest.
Import Js Regex.

(** [/พ\.ศ\.\s*(\d{4})/] *)
Definition THAI_BE_YEAR : regex :=
  seqs [text "พ.ศ."; star space; Group 1 digit4].

(** [/B\.?E\.?\s*(\d{4})/] *)
Definition ENGLISH_BE_YEAR : regex :=
  seqs [text "B"; opt (text "."); text "E"; opt (text "."); star space;
        Group 1 digit4].

(** [extractBeYear]; [None] is [null]. *)
Definition extractBeYear (txt : str) : option num :=
  match re_match THAI_BE_YEAR txt with
  | Some thaiMatch => Some (parseInt10 (Parser.group thaiMatch 1))
  | None =>
    match re_match ENGLISH_BE_YEAR txt with
    | Some englishMatch => Some (parseInt10 (Parser.group englishMatch 1))
    | None => None
    end
  end.

End Ingest.

(* ================================================================= *)
(** * Part II: properties *)
(* ================================================================= *)

Unset Implicit Arguments.

(** ** Soundness of the matcher *)

Module RegexFacts.
Import Js Regex Sem.

Lemma star_loop_sound (m : str -> str -> caps -> cont -> option caps)
    (R : step) (g : bool) (k : cont) (res : caps) :
  (forall l s c k' , m l s c k' = Some res ->
     exists l' s' c', R l s c l' s' c' /\ k' l' s' c' = Some res) ->
  forall fuel l s c,
    star_loop m g fuel l s c k = Some res ->
    exists l' s' c', iter R l s c l' s' c' /\ k l' s' c' = Some res.
Proof.
  intros Hm. induction fuel as [|fuel IH]; intros l s c H; simpl in H.
  - exists l, s, c. split; [constructor | exact H].
  - assert (Hagain :
      m l s c (fun l' s' c' =>
        if Nat.ltb (List.length s') (List.length s)
        then star_loop m g fuel l' s' c' k else None) = Some res ->
      exists l' s' c', iter R l s c l' s' c' /\ k l' s' c' = Some res).
    { intros Ha. apply Hm in Ha as (l1 & s1 & c1 & HR & Hk).
      destruct (Nat.ltb (List.length s1) (List.length s)) eqn:Hlt;
        [|discriminate].
      apply Nat.ltb_lt in Hlt.
      apply IH in Hk as (l' & s' & c' & Hi & Hk).
      exists l', s', c'. split; [|exact Hk].
      eapply iter_more; eauto. }
    assert (Hstop : k l s c = Some res ->
      exists l' s' c', iter R l s c l' s' c' /\ k l' s' c' = Some res).
    { intros Hk. exists l, s, c. split; [constructor | exact Hk]. }
    destruct g; unfold or_else in H.
    + match type of H with
      | match ?x with _ => _ end = _ => destruct x as [r0|] eqn:E
      end.
      * inversion H; subst. auto.
      * auto.
    + destruct (k l s c) as [r0|] eqn:E.
      * inversion H; subst. auto.
      * auto.
Qed.

(** Whatever the matcher returns is reached along the denotation. *)
Lemma rmatch_sound (r : regex) :
  forall l s c k res,
    rmatch r l s c k = Some res ->
    exists l' s' c', den r l s c l' s' c' /\ k l' s' c' = Some res.
Proof.
  induction r as [ | p | r1 IH1 r2 IH2 | r1 IH1 r2 IH2 | g r IH | n r IH
                 | | | ]; intros l s c k res H; simpl in H.
  - exists l, s, c. simpl. auto.
  - destruct s as [|a s']; [discriminate|].
    destruct (p a) eqn:Hp; [|discriminate].
    exists (a :: l), s', c. simpl. split; [|exact H]. exists a. auto.
  - apply IH1 in H as (l1 & s1 & c1 & D1 & H).
    apply IH2 in H as (l2 & s2 & c2 & D2 & H).
    exists l2, s2, c2. split; [|exact H]. simpl. eauto.
  - unfold or_else in H.
    destruct (rmatch r1 l s c k) as [r0|] eqn:E.
    + inversion H; subst.
      apply IH1 in E as (l1 & s1 & c1 & D1 & E).
      exists l1, s1, c1. simpl. auto.
    + apply IH2 in H as (l1 & s1 & c1 & D1 & E').
      exists l1, s1, c1. simpl. auto.
  - eapply star_loop_sound in H; [|intros; apply IH; eassumption].
    exact H.
  - apply IH in H as (l1 & s1 & c1 & D1 & H).
    eexists l1, s1, _. split; [|exact H]. simpl. eauto.
  - destruct l; [|discriminate]. exists [], s, c. simpl. auto.
  - destruct s; [|discriminate]. exists l, [], c. simpl. auto.
  - destruct (xorb (is_word_at l) (is_word_at s)) eqn:E; [|discriminate].
    exists l, s, c. simpl. auto.
Qed.

(** The denotation only moves forward: what is left is a suffix of the
    input, and what was read is pushed on the left. *)
Lemma iter_split (R : step) :
  (forall l s c l' s' c', R l s c l' s' c' ->
     exists w, s = w ++ s' /\ l' = rev w ++ l) ->
  forall l s c l' s' c', iter R l s c l' s' c' ->
    exists w, s = w ++ s' /\ l' = rev w ++ l.
Proof.
  intros HR l s c l' s' c' H. induction H as [l s c | l s c l1 s1 c1 l' s' c' H1 Hlt H2 IH].
  - exists []. auto.
  - apply HR in H1 as (w1 & -> & ->). destruct IH as (w2 & -> & ->).
    exists (w1 ++ w2). rewrite rev_app_distr, <- !app_assoc. auto.
Qed.

Lemma den_split (r : regex) :
  forall l s c l' s' c', den r l s c l' s' c' ->
    exists w, s = w ++ s' /\ l' = rev w ++ l.
Proof.
  induction r as [ | p | r1 IH1 r2 IH2 | r1 IH1 r2 IH2 | g r IH | n r IH
                 | | | ]; intros l s c l' s' c' H; simpl in H.
  - destruct H as (-> & -> & ->). exists []. auto.
  - destruct H as (a & -> & _ & -> & _). exists [a]. auto.
  - destruct H as (l1 & s1 & c1 & H1 & H2).
    apply IH1 in H1 as (w1 & -> & ->). apply IH2 in H2 as (w2 & -> & ->).
    exists (w1 ++ w2). rewrite rev_app_distr, <- !app_assoc. auto.
  - destruct H as [H|H]; eauto.
  - eapply iter_split; eauto.
  - destruct H as (c1 & H & _). eauto.
  - destruct H as (_ & -> & -> & _). exists []. auto.
  - destruct H as (_ & -> & -> & _). exists []. auto.
  - destruct H as (_ & -> & -> & _). exists []. auto.
Qed.

Lemma firstn_consumed (w s' : str) :
  firstn (List.length (w ++ s') - List.length s') (w ++ s') = w.
Proof.
  rewrite length_app, Nat.add_sub.
  rewrite firstn_app, Nat.sub_diag, firstn_all. simpl. apply app_nil_r.
Qed.

Lemma captured_by_weaken (r r0 : regex) (s s0 pre : str) (n : nat) (w : str) :
  incl (groups_of r) (groups_of r0) -> s0 = pre ++ s ->
  captured_by r s n w -> captured_by r0 s0 n w.
Proof.
  intros Hi -> (r' & la & sa & ca & lb & sb & cb & pre' & Hin & Hd & -> & ->).
  exists r', la, (w ++ sb), ca, lb, sb, cb, (pre ++ pre').
  rewrite <- app_assoc. auto.
Qed.

(** A capture present after a match was either there before, or is the
    text read by the body of a group of that number. *)
Lemma cap_origin (r : regex) (n : nat) (w : str) :
  forall l s c l' s' c',
    den r l s c l' s' c' -> cap n c' = Some w ->
    cap n c = Some w \/ captured_by r s n w.
Proof.
  induction r as [ | p | r1 IH1 r2 IH2 | r1 IH1 r2 IH2 | g r IH | m r IH
                 | | | ]; intros l s c l' s' c' H Hc; simpl in H.
  - destruct H as (_ & _ & ->). auto.
  - destruct H as (a & _ & _ & _ & ->). auto.
  - destruct H as (l1 & s1 & c1 & H1 & H2).
    destruct (IH2 _ _ _ _ _ _ H2 Hc) as [Hc1|Hg].
    + destruct (IH1 _ _ _ _ _ _ H1 Hc1) as [Hc0|Hg]; [auto|].
      right. apply (@captured_by_weaken (r1) _ s _ ([]) n w);
        [simpl; apply incl_appl, incl_refl | reflexivity | exact Hg].
    + right. apply den_split in H1 as (w1 & -> & _).
      apply (@captured_by_weaken (r2) _ s1 _ (w1) n w);
        [simpl; apply incl_appr, incl_refl | reflexivity | exact Hg].
  - destruct H as [H|H].
    + destruct (IH1 _ _ _ _ _ _ H Hc) as [?|Hg]; [auto|].
      right. apply (@captured_by_weaken (r1) _ s _ ([]) n w);
        [simpl; apply incl_appl, incl_refl | reflexivity | exact Hg].
    + destruct (IH2 _ _ _ _ _ _ H Hc) as [?|Hg]; [auto|].
      right. apply (@captured_by_weaken (r2) _ s _ ([]) n w);
        [simpl; apply incl_appr, incl_refl | reflexivity | exact Hg].
  - induction H as [l s c | l s c l1 s1 c1 l' s' c' H1 Hlt H2 IHi]; [auto|].
    destruct (IHi Hc) as [Hc1|Hg].
    + destruct (IH _ _ _ _ _ _ H1 Hc1) as [?|Hg]; [auto|].
      right. exact Hg.
    + right. apply den_split in H1 as (w1 & -> & _).
      apply (@captured_by_weaken (Star g r) _ s1 _ (w1) n w);
        [apply incl_refl | reflexivity | exact Hg].
  - destruct H as (c1 & H & ->). simpl in Hc.
    destruct (Nat.eqb m n) eqn:E.
    + apply Nat.eqb_eq in E. subst m. inversion Hc; subst. right.
      pose proof (den_split _ _ _ _ _ _ _ H) as (w1 & Hs & _). subst s.
      rewrite firstn_consumed.
      exists r, l, (w1 ++ s'), c, l', s', c1, []. simpl. auto.
    + destruct (IH _ _ _ _ _ _ H Hc) as [?|Hg]; [auto|].
      right. apply (@captured_by_weaken (r) _ s _ ([]) n w);
        [simpl; apply incl_tl, incl_refl | reflexivity | exact Hg].
  - destruct H as (_ & _ & _ & ->). auto.
  - destruct H as (_ & _ & _ & ->). auto.
  - destruct H as (_ & _ & _ & ->). auto.
Qed.

Lemma app_tail_nil (w s : str) : s = w ++ s -> w = [].
Proof.
  intros H. rewrite <- (app_nil_l s) in H at 1.
  apply app_inv_tail in H. auto.
Qed.

(** The text a pattern reads is made of characters of its classes. *)
Lemma den_chars (P : char -> bool) (r : regex) :
  chars_in P r ->
  forall l s c l' s' c' w,
    den r l s c l' s' c' -> s = w ++ s' -> Forall (fun a => P a = true) w.
Proof.
  induction r as [ | p | r1 IH1 r2 IH2 | r1 IH1 r2 IH2 | g r IH | m r IH
                 | | | ]; intros HP l s c l' s' c' w H Hs; simpl in H, HP.
  - destruct H as (_ & E & _). subst s'.
    apply app_tail_nil in Hs. subst. constructor.
  - destruct H as (a & E & Hp & _ & _). subst s.
    change (a :: s') with ([a] ++ s') in Hs. apply app_inv_tail in Hs.
    subst. constructor; auto.
  - destruct H as (l1 & s1 & c1 & H1 & H2). destruct HP as [HP1 HP2].
    pose proof (den_split _ _ _ _ _ _ _ H1) as (w1 & E1 & _).
    pose proof (den_split _ _ _ _ _ _ _ H2) as (w2 & E2 & _).
    assert (w = w1 ++ w2).
    { rewrite E1, E2, app_assoc in Hs. apply app_inv_tail in Hs. auto. }
    subst w. apply Forall_app. split; eauto.
  - destruct HP. destruct H; eauto.
  - revert w Hs.
    induction H as [l s c | l s c l1 s1 c1 l' s' c' H1 Hlt H2 IHi];
      intros w Hs.
    + apply app_tail_nil in Hs. subst. constructor.
    + pose proof (den_split _ _ _ _ _ _ _ H1) as (w1 & E1 & _).
      pose proof (iter_split _ (den_split r) _ _ _ _ _ _ H2) as (w2 & E2 & _).
      assert (w = w1 ++ w2).
      { rewrite E1, E2, app_assoc in Hs. apply app_inv_tail in Hs. auto. }
      subst w. apply Forall_app. split; eauto.
  - destruct H as (c1 & H & _). eauto.
  - destruct H as (_ & _ & E & _). subst s'.
    apply app_tail_nil in Hs. subst. constructor.
  - destruct H as (_ & _ & E & _). subst s'.
    apply app_tail_nil in Hs. subst. constructor.
  - destruct H as (_ & _ & E & _). subst s'.
    apply app_tail_nil in Hs. subst. constructor.
Qed.

(** A successful search reaches the returned captures along the
    denotation, from some start position. *)
Lemma search_sound (r : regex) :
  forall s l m,
    search r l s = Some m ->
    exists pre s0 l' s', s = pre ++ s0 /\
      den r (rev pre ++ l) s0 [] l' s' m.
Proof.
  induction s as [|a s IH]; intros l m H; simpl in H.
  - destruct (rmatch r l [] [] accept) as [c|] eqn:E; [|discriminate].
    inversion H; subst.
    apply rmatch_sound in E as (l' & s' & c' & D & A).
    inversion A; subst. exists [], [], l', s'. auto.
  - destruct (rmatch r l (a :: s) [] accept) as [c|] eqn:E.
    + inversion H; subst.
      apply rmatch_sound in E as (l' & s' & c' & D & A).
      inversion A; subst. exists [], (a :: s), l', s'. auto.
    + apply IH in H as (pre & s0 & l' & s' & -> & D).
      exists (a :: pre), s0, l', s'. simpl. rewrite <- app_assoc. auto.
Qed.

(** What [match] captures in group [n] is text read by the body of a
    group [n] of the pattern. *)
Lemma re_match_captured (r : regex) (s : str) (m : caps) (n : nat) (w : str) :
  re_match r s = Some m -> cap n m = Some w -> captured_by r s n w.
Proof.
  intros H Hc. apply search_sound in H as (pre & s0 & l' & s' & -> & D).
  destruct (@cap_origin r n w _ _ _ _ _ _ D Hc) as [Hn|Hg]; [discriminate|].
  eapply captured_by_weaken; eauto. apply incl_refl.
Qed.

(** A capture, once set, stays set. *)
Lemma cap_kept (r : regex) (n : nat) :
  forall l s c l' s' c',
    den r l s c l' s' c' -> cap n c <> None -> cap n c' <> None.
Proof.
  induction r as [ | p | r1 IH1 r2 IH2 | r1 IH1 r2 IH2 | g r IH | m r IH
                 | | | ]; intros l s c l' s' c' H Hc; simpl in H.
  - destruct H as (_ & _ & ->). auto.
  - destruct H as (a & _ & _ & _ & ->). auto.
  - destruct H as (l1 & s1 & c1 & H1 & H2). eauto.
  - destruct H as [H|H]; eauto.
  - induction H; eauto.
  - destruct H as (c1 & H & ->). simpl.
    destruct (Nat.eqb m n); [discriminate|]. eauto.
  - destruct H as (_ & _ & _ & ->). auto.
  - destruct H as (_ & _ & _ & ->). auto.
  - destruct H as (_ & _ & _ & ->). auto.
Qed.

(** A group on every path is set by every match. *)
Lemma always_sets_cap (r : regex) (n : nat) :
  always_sets n r = true ->
  forall l s c l' s' c', den r l s c l' s' c' -> cap n c' <> None.
Proof.
  induction r as [ | p | r1 IH1 r2 IH2 | r1 IH1 r2 IH2 | g r IH | m r IH
                 | | | ]; intros Ha l s c l' s' c' H; simpl in H, Ha;
    try discriminate.
  - destruct H as (l1 & s1 & c1 & H1 & H2).
    apply orb_true_iff in Ha as [Ha|Ha].
    + eapply cap_kept; eauto.
    + eauto.
  - apply andb_true_iff in Ha as [Ha1 Ha2]. destruct H as [H|H]; eauto.
  - destruct H as (c1 & H & ->). simpl.
    destruct (Nat.eqb m n) eqn:E; [discriminate|]. simpl in Ha. eauto.
Qed.

Lemma re_match_sets (r : regex) (s : str) (m : caps) (n : nat) :
  always_sets n r = true -> re_match r s = Some m ->
  exists w, cap n m = Some w.
Proof.
  intros Ha H. apply search_sound in H as (pre & s0 & l' & s' & -> & D).
  pose proof (always_sets_cap _ _ Ha _ _ _ _ _ _ D) as Hn.
  destruct (cap n m) as [w|]; [eauto | congruence].
Qed.

(** A match at any start position makes the search succeed. *)
Lemma search_complete (r : regex) :
  forall pre l s0,
    rmatch r (rev pre ++ l) s0 [] accept <> None ->
    search r l (pre ++ s0) <> None.
Proof.
  induction pre as [|a pre IH]; intros l s0 H.
  - simpl in H. simpl app. destruct s0; simpl;
      destruct (rmatch r l _ [] accept); congruence.
  - simpl app. simpl search.
    destruct (rmatch r l (a :: pre ++ s0) [] accept); [discriminate|].
    apply IH. simpl in H. rewrite <- app_assoc in H. exact H.
Qed.

(** *** First-choice reasoning along the matcher *)

Lemma leads_eps (l s' : str) (c : caps) : leads Eps l [] s' c c.
Proof. intros k res H. exact H. Qed.

Lemma leads_chr (p : char -> bool) (a : char) (l s' : str) (c : caps) :
  p a = true -> leads (Chr p) l [a] s' c c.
Proof. intros Hp k res H. simpl. rewrite Hp. exact H. Qed.

Lemma leads_seq (r1 r2 : regex) (l w1 w2 s' : str) (c c1 c2 : caps) :
  leads r1 l w1 (w2 ++ s') c c1 ->
  leads r2 (rev w1 ++ l) w2 s' c1 c2 ->
  leads (Seq r1 r2) l (w1 ++ w2) s' c c2.
Proof.
  intros H1 H2 k res H. simpl. rewrite <- app_assoc. apply H1. apply H2.
  rewrite rev_app_distr, <- app_assoc in H. exact H.
Qed.

Lemma leads_alt_l (r1 r2 : regex) (l w s' : str) (c c' : caps) :
  leads r1 l w s' c c' -> leads (Alt r1 r2) l w s' c c'.
Proof.
  intros H1 k res H. simpl. rewrite (H1 k res H). reflexivity.
Qed.

Lemma leads_alt_r (r1 r2 : regex) (l w s' : str) (c c' : caps) :
  fails r1 l (w ++ s') c ->
  leads r2 l w s' c c' -> leads (Alt r1 r2) l w s' c c'.
Proof.
  intros F H2 k res H. simpl. rewrite (F k). simpl. apply H2. exact H.
Qed.

Lemma leads_group (n : nat) (r : regex) (l w s' : str) (c c1 : caps) :
  leads r l w s' c c1 -> leads (Group n r) l w s' c ((n, w) :: c1).
Proof.
  intros H1 k res H. simpl. apply H1. rewrite firstn_consumed. exact H.
Qed.

Lemma leads_bol (s' : str) (c : caps) : leads Bol [] [] s' c c.
Proof. intros k res H. exact H. Qed.

Lemma leads_eol (l : str) (c : caps) : leads Eol l [] [] c c.
Proof. intros k res H. exact H. Qed.

Lemma fails_chr_nil (p : char -> bool) (l : str) (c : caps) :
  fails (Chr p) l [] c.
Proof. intros k. reflexivity. Qed.

Lemma fails_chr_cons (p : char -> bool) (a : char) (l s : str) (c : caps) :
  p a = false -> fails (Chr p) l (a :: s) c.
Proof. intros Hp k. simpl. rewrite Hp. reflexivity. Qed.

Lemma fails_seq (r1 r2 : regex) (l s : str) (c : caps) :
  fails r1 l s c -> fails (Seq r1 r2) l s c.
Proof. intros F k. simpl. apply F. Qed.

Lemma star_leads_nil (r : regex) (l s' : str) (c : caps) :
  fails r l s' c -> star_leads r l [] s' c c.
Proof.
  intros F fuel k res _ H. simpl app. destruct fuel as [|fuel]; simpl.
  - exact H.
  - rewrite F. simpl. exact H.
Qed.

Lemma star_leads_cons (r : regex) (l w1 w2 s' : str) (c c1 c2 : caps) :
  w1 <> [] ->
  leads r l w1 (w2 ++ s') c c1 ->
  star_leads r (rev w1 ++ l) w2 s' c1 c2 ->
  star_leads r l (w1 ++ w2) s' c c2.
Proof.
  intros Hne H1 H2 fuel k res Hf H.
  assert (Hlen : List.length (w2 ++ s') < List.length ((w1 ++ w2) ++ s')).
  { rewrite <- app_assoc, (length_app w1). destruct w1; [congruence|].
    simpl. lia. }
  destruct fuel as [|fuel]; [lia|]. simpl.
  rewrite <- app_assoc. rewrite (H1 _ res); [reflexivity|].
  rewrite <- app_assoc in Hlen, Hf. apply Nat.ltb_lt in Hlen. rewrite Hlen.
  apply H2; [apply Nat.ltb_lt in Hlen; simpl in Hf; lia|].
  rewrite rev_app_distr, <- app_assoc in H. exact H.
Qed.

Lemma star_leads_leads (r : regex) (l w s' : str) (c c' : caps) :
  star_leads r l w s' c c' -> leads (Star true r) l w s' c c'.
Proof. intros H k res Hk. simpl. apply H; [lia | exact Hk]. Qed.

(** A greedy class takes the longest run. *)
Lemma star_leads_class (p : char -> bool) (w : str) :
  forall l s' c,
    Forall (fun a => p a = true) w ->
    fails (Chr p) (rev w ++ l) s' c ->
    star_leads (Chr p) l w s' c c.
Proof.
  induction w as [|a w IH]; intros l s' c Hw F.
  - apply star_leads_nil. exact F.
  - inversion Hw; subst.
    apply (star_leads_cons (Chr p) l [a] w s' c c c); [discriminate | |].
    + apply leads_chr. assumption.
    + apply IH; [assumption|]. simpl in F. rewrite <- app_assoc in F.
      exact F.
Qed.

Lemma fails_class (p : char -> bool) (l s : str) (c : caps) :
  match s with [] => True | a :: _ => p a = false end ->
  fails (Chr p) l s c.
Proof.
  destruct s; intros H; [apply fails_chr_nil | apply fails_chr_cons; exact H].
Qed.

Lemma leads_star_class (p : char -> bool) (l w s' : str) (c : caps) :
  Forall (fun a => p a = true) w ->
  match s' with [] => True | a :: _ => p a = false end ->
  leads (Star true (Chr p)) l w s' c c.
Proof.
  intros Hw Hs. apply star_leads_leads, star_leads_class; [exact Hw|].
  apply fails_class. exact Hs.
Qed.

Lemma leads_plus_class (p : char -> bool) (l : str) (a : char) (w s' : str)
    (c : caps) :
  Forall (fun a => p a = true) (a :: w) ->
  match s' with [] => True | a :: _ => p a = false end ->
  leads (plus (Chr p)) l (a :: w) s' c c.
Proof.
  intros Hw Hs. inversion Hw; subst.
  apply (leads_seq (Chr p) (Star true (Chr p)) l [a] w s' c c c).
  - apply leads_chr. assumption.
  - apply leads_star_class; assumption.
Qed.

(** Stepping over the head of a sequence. *)
Lemma step_seq (r1 r2 : regex) (l w1 s' : str) (c c1 : caps) (k : cont)
    (res : caps) :
  leads r1 l w1 s' c c1 ->
  rmatch r2 (rev w1 ++ l) s' c1 k = Some res ->
  rmatch (Seq r1 r2) l (w1 ++ s') c k = Some res.
Proof. intros H1 H2. simpl. apply H1. exact H2. Qed.

(** A lazy class stops at the first split the continuation accepts. *)
Lemma lazy_star_class (p : char -> bool) (w : str) :
  forall l s' c k res,
    Forall (fun a => p a = true) w ->
    (forall u v, w = u ++ v -> v <> [] -> k (rev u ++ l) (v ++ s') c = None) ->
    k (rev w ++ l) s' c = Some res ->
    rmatch (Star false (Chr p)) l (w ++ s') c k = Some res.
Proof.
  induction w as [|a w IH]; intros l s' c k res Hw Hfail Hk.
  - simpl. destruct (List.length s'); simpl; simpl in Hk; rewrite Hk;
      reflexivity.
  - inversion Hw; subst.
    pose proof (Hfail [] (a :: w) eq_refl ltac:(discriminate)) as H0.
    simpl in H0. simpl. rewrite H0. simpl.
    match goal with H : p a = true |- _ => rewrite H end.
    replace (List.length (w ++ s') <? S (List.length (w ++ s'))) with true
      by (symmetry; apply Nat.ltb_lt; lia).
    apply (IH (a :: l) s' c k res); [assumption | |].
    + intros u v E Hv. specialize (Hfail (a :: u) v).
      simpl in Hfail. rewrite <- app_assoc in Hfail. apply Hfail; [|exact Hv].
      rewrite E. reflexivity.
    + simpl in Hk. rewrite <- app_assoc in Hk. exact Hk.
Qed.

Lemma lazy_plus_class (p : char -> bool) (a : char) (w : str) (l s' : str)
    (c : caps) (k : cont) (res : caps) :
  Forall (fun a => p a = true) (a :: w) ->
  (forall u v, w = u ++ v -> v <> [] ->
     k (rev u ++ a :: l) (v ++ s') c = None) ->
  k (rev (a :: w) ++ l) s' c = Some res ->
  rmatch (plus_lazy (Chr p)) l ((a :: w) ++ s') c k = Some res.
Proof.
  intros Hw Hfail Hk. inversion Hw; subst. unfold plus_lazy.
  change ((a :: w) ++ s') with ([a] ++ (w ++ s')).
  apply (step_seq (Chr p) (Star false (Chr p)) l [a] (w ++ s') c c).
  - apply leads_chr. assumption.
  - apply lazy_star_class; [assumption | exact Hfail |].
    simpl in Hk. rewrite <- app_assoc in Hk. exact Hk.
Qed.

(** *** Counting what a pattern reads *)

Lemma count_nonws_app (u v : str) :
  count_nonws (u ++ v) = count_nonws u + count_nonws v.
Proof. unfold count_nonws. rewrite filter_app, length_app. reflexivity. Qed.

Lemma den_nonws (r : regex) :
  forall n l s c l' s' c' w,
    nonws_le r n -> den r l s c l' s' c' -> s = w ++ s' ->
    count_nonws w <= n.
Proof.
  induction r as [ | p | r1 IH1 r2 IH2 | r1 IH1 r2 IH2 | g r IH | m r IH
                 | | | ]; intros n l s c l' s' c' w Hn H Hs; simpl in H, Hn.
  - destruct H as (_ & E & _). subst s'. apply app_tail_nil in Hs. subst.
    unfold count_nonws. simpl. lia.
  - destruct H as (a & E & Hp & _ & _). subst s.
    change (a :: s') with ([a] ++ s') in Hs. apply app_inv_tail in Hs. subst.
    unfold count_nonws. simpl. destruct Hn as [Hn|Hn].
    + destruct (is_ws a); simpl; lia.
    + rewrite (Hn a Hp). simpl. lia.
  - destruct H as (l1 & s1 & c1 & H1 & H2).
    destruct Hn as (n1 & n2 & Hle & Hn1 & Hn2).
    pose proof (den_split _ _ _ _ _ _ _ H1) as (w1 & E1 & _).
    pose proof (den_split _ _ _ _ _ _ _ H2) as (w2 & E2 & _).
    assert (w = w1 ++ w2).
    { rewrite E1, E2, app_assoc in Hs. apply app_inv_tail in Hs. auto. }
    subst w. rewrite count_nonws_app.
    pose proof (IH1 _ _ _ _ _ _ _ _ Hn1 H1 E1).
    pose proof (IH2 _ _ _ _ _ _ _ _ Hn2 H2 E2). lia.
  - destruct Hn. destruct H; eauto.
  - assert (Hz : count_nonws w <= 0); [|lia]. clear n.
    revert w Hs.
    induction H as [l s c | l s c l1 s1 c1 l' s' c' H1 Hlt H2 IHi];
      intros w Hs.
    + apply app_tail_nil in Hs. subst. unfold count_nonws. simpl. lia.
    + pose proof (den_split _ _ _ _ _ _ _ H1) as (w1 & E1 & _).
      pose proof (iter_split _ (den_split r) _ _ _ _ _ _ H2) as (w2 & E2 & _).
      assert (w = w1 ++ w2).
      { rewrite E1, E2, app_assoc in Hs. apply app_inv_tail in Hs. auto. }
      subst w. rewrite count_nonws_app.
      pose proof (IH _ _ _ _ _ _ _ _ Hn H1 E1).
      pose proof (IHi _ E2). lia.
  - destruct H as (c1 & H & _). eauto.
  - destruct H as (_ & _ & E & _). subst s'. apply app_tail_nil in Hs. subst.
    unfold count_nonws. simpl. lia.
  - destruct H as (_ & _ & E & _). subst s'. apply app_tail_nil in Hs. subst.
    unfold count_nonws. simpl. lia.
  - destruct H as (_ & _ & E & _). subst s'. apply app_tail_nil in Hs. subst.
    unfold count_nonws. simpl. lia.
Qed.

(** *** Anchors *)

Lemma search_bol_later (r : regex) (s : str) :
  forall l, l <> [] -> search (Seq Bol r) l s = None.
Proof.
  induction s as [|a s IH]; intros l Hl;
    (destruct l as [|b l]; [congruence|]); simpl.
  - reflexivity.
  - apply IH. discriminate.
Qed.

(** A pattern that starts with [^] matches at the start or not at all. *)
Lemma re_match_anchored (r : regex) (s : str) :
  re_match (Seq Bol r) s = rmatch r [] s [] accept.
Proof.
  unfold re_match. destruct s as [|a s]; simpl.
  - destruct (rmatch r [] [] [] accept); reflexivity.
  - destruct (rmatch r [] (a :: s) [] accept); [reflexivity|].
    apply search_bol_later. discriminate.
Qed.

Lemma den_ends (r : regex) :
  ends_with_eol r = true ->
  forall l s c l' s' c', den r l s c l' s' c' -> s' = [].
Proof.
  induction r as [ | p | r1 IH1 r2 IH2 | r1 IH1 r2 IH2 | g r IH | m r IH
                 | | | ]; intros He l s c l' s' c' H; simpl in He, H;
    try discriminate.
  - destruct H as (l1 & s1 & c1 & _ & H2). eauto.
  - destruct H as (E & _ & E' & _). congruence.
Qed.

(** A lazy captured class in front of the rest [K] of a pattern. *)
Lemma step_lazy_group (n : nat) (p : char -> bool) (K : regex) (a : char)
    (w l T : str) (c : caps) (k : cont) (res : caps) :
  Forall (fun x => p x = true) (a :: w) ->
  (forall u v c', w = u ++ v -> v <> [] ->
     rmatch K (rev u ++ a :: l) (v ++ T) c' k = None) ->
  rmatch K (rev (a :: w) ++ l) T ((n, a :: w) :: c) k = Some res ->
  rmatch (Seq (Group n (plus_lazy (Chr p))) K) l ((a :: w) ++ T) c k
    = Some res.
Proof.
  intros Hw Hfail Hk.
  change (rmatch (Seq (Group n (plus_lazy (Chr p))) K) l ((a :: w) ++ T) c k)
    with (rmatch (plus_lazy (Chr p)) l ((a :: w) ++ T) c
            (fun l' s' c' =>
               rmatch K l' s'
                 ((n, firstn (List.length ((a :: w) ++ T) - List.length s')
                        ((a :: w) ++ T)) :: c') k)).
  apply lazy_plus_class; [exact Hw | |].
  - intros u v E Hv. apply Hfail; assumption.
  - rewrite firstn_consumed. exact Hk.
Qed.

(** A literal text reads itself. *)
Lemma leads_seq_of (f : char -> regex) (w : str) :
  (forall a l s' c, leads (f a) l [a] s' c c) ->
  w <> [] ->
  forall l s' c, leads (seq_of f w) l w s' c c.
Proof.
  intros Hf. induction w as [|a w IH]; intros Hne l s' c; [congruence|].
  destruct w as [|b w].
  - apply Hf.
  - change (seq_of f (a :: b :: w)) with (Seq (f a) (seq_of f (b :: w))).
    apply (leads_seq (f a) _ l [a] (b :: w) s' c c c); [apply Hf|].
    apply IH. discriminate.
Qed.

Lemma leads_chr_lit (a : char) (l s' : str) (c : caps) :
  leads (chr a) l [a] s' c c.
Proof. apply leads_chr. unfold char_eqb. apply N.eqb_refl. Qed.

Lemma leads_chr_i (a : char) (l s' : str) (c : caps) :
  leads (chr_i a) l [a] s' c c.
Proof.
  apply leads_chr. unfold char_eqb. rewrite N.eqb_refl. reflexivity.
Qed.

Lemma leads_text (w : str) (l s' : str) (c : caps) :
  w <> [] -> leads (seq_of chr w) l w s' c c.
Proof. intros H. apply leads_seq_of; [apply leads_chr_lit | exact H]. Qed.

Lemma leads_text_i (w : str) (l s' : str) (c : caps) :
  w <> [] -> leads (seq_of chr_i w) l w s' c c.
Proof. intros H. apply leads_seq_of; [apply leads_chr_i | exact H]. Qed.

End RegexFacts.

(** ** The parser *)

Module ParserFacts.
Import Js Regex Sem RegexFacts Parser ParserSpec.

Arguments char_eqb : simpl never.
Arguments is_digit : simpl never.
Arguments is_ws : simpl never.
Arguments is_lower : simpl never.
Arguments is_upper : simpl never.
Arguments is_line_terminator : simpl never.

(** [parseCitation] is the dispatch on the first grammar that matches. *)
Lemma parseCitation_classify (citation : str) :
  parseCitation citation =
  match classify (trim citation) with
  | None =>
    Ok {| valid := false; type := unknown; title := None;
          title_en := None; abbreviation := None; be_year := None; ce_year := None;
          section := None; subsection := None; paragraph := None;
          error := Some (lit "Could not parse Thai citation: " ++ [dquote]
                         ++ trim citation ++ [dquote]) |}
  | Some (IdBased, m) =>
    Ok {| valid := true; type := statute;
          title := Some (toLowerCase (group m 1));
          title_en := None; abbreviation := None; be_year := None; ce_year := None;
          section := Some (group m 2);
          subsection := None; paragraph := None; error := None |}
  | Some (g, m) =>
    parseSection (group m (pin_group g)) (title_value g m)
      (be_value g m) (ce_value g m) statute
  end.
Proof.
  unfold parseCitation, classify, grammars, first_match, grammar_re.
  destruct (re_match THAI_CITATION (trim citation)); [reflexivity|].
  destruct (re_match ENGLISH_BE_CITATION (trim citation)); [reflexivity|].
  destruct (re_match TRAILING_SECTION_BE (trim citation)); [reflexivity|].
  destruct (re_match SHORT_CITATION (trim citation)); [reflexivity|].
  destruct (re_match ID_BASED (trim citation)); [reflexivity|].
  destruct (re_match ENGLISH_CE_CITATION (trim citation)); [reflexivity|].
  destruct (re_match TRAILING_SECTION_CE (trim citation)); reflexivity.
Qed.

Lemma first_match_re (gs : list grammar) (t : str) (g : grammar) (m : caps) :
  first_match gs t = Some (g, m) -> re_match (grammar_re g) t = Some m.
Proof.
  induction gs as [|g0 gs IH]; simpl; [discriminate|].
  destruct (re_match (grammar_re g0) t) eqn:E; auto.
  intros H. inversion H; subst. exact E.
Qed.

Lemma classify_re (t : str) (g : grammar) (m : caps) :
  classify t = Some (g, m) -> re_match (grammar_re g) t = Some m.
Proof. apply first_match_re. Qed.

(** The groups of each grammar. *)
Lemma groups_of_grammar (g : grammar) :
  groups_of (grammar_re g) = grammar_groups g.
Proof. destruct g; reflexivity. Qed.

Lemma pin_group_body (g : grammar) (r' : regex) :
  In (pin_group g, r') (grammar_groups g) -> r' = pinpoint_re.
Proof.
  destruct g; simpl; intros H;
    repeat (destruct H as [H|H]; [inversion H; subst; reflexivity|]);
    destruct H.
Qed.

Lemma year_group_body (g : grammar) (r' : regex) :
  has_year g = true ->
  In (year_group g, r') (grammar_groups g) -> r' = digit4.
Proof.
  destruct g; simpl; intros Hy H; try discriminate;
    repeat (destruct H as [H|H]; [inversion H; subst; reflexivity|]);
    destruct H.
Qed.

Lemma title_group_body (g : grammar) (r' : regex) :
  has_year g = true ->
  In (title_group g, r') (grammar_groups g) -> r' = plus_lazy dot.
Proof.
  destruct g; simpl; intros Hy H; try discriminate;
    repeat (destruct H as [H|H]; [inversion H; subst; reflexivity|]);
    destruct H.
Qed.

Lemma pinpoint_chars : chars_in pin_char pinpoint_re.
Proof.
  unfold pinpoint_re, pin_char. cbn.
  repeat split; intros a Ha; rewrite ?Ha, ?orb_true_r; auto.
Qed.

Lemma grammar_sets_pin (g : grammar) :
  always_sets (pin_group g) (grammar_re g) = true.
Proof. destruct g; reflexivity. Qed.

Lemma grammar_sets_year (g : grammar) :
  has_year g = true -> always_sets (year_group g) (grammar_re g) = true.
Proof. destruct g; intros H; try discriminate; reflexivity. Qed.

Lemma grammar_sets_title (g : grammar) :
  always_sets (title_group g) (grammar_re g) = true.
Proof. destruct g; reflexivity. Qed.

(** The pinpoint a grammar captures is read by the pinpoint pattern. *)
Lemma pin_capture_den (g : grammar) (t : str) (m : caps) :
  re_match (grammar_re g) t = Some m ->
  exists la ca lb sb cb,
    den pinpoint_re la (group m (pin_group g) ++ sb) ca lb sb cb.
Proof.
  intros H.
  destruct (re_match_sets _ _ _ _ (grammar_sets_pin g) H) as (w & Hw).
  unfold group. rewrite Hw.
  destruct (re_match_captured _ _ _ _ _ H Hw)
    as (r' & la & sa & ca & lb & sb & cb & pre & Hin & Hd & -> & _).
  rewrite groups_of_grammar in Hin. apply pin_group_body in Hin. subst r'.
  eauto 6.
Qed.

Lemma pin_capture_chars (g : grammar) (t : str) (m : caps) :
  re_match (grammar_re g) t = Some m ->
  Forall (fun a => pin_char a = true) (group m (pin_group g)).
Proof.
  intros H. apply pin_capture_den in H as (la & ca & lb & sb & cb & Hd).
  eapply den_chars; [apply pinpoint_chars | exact Hd | reflexivity].
Qed.

Lemma den_digit4 (l s : str) (c : caps) (l' s' : str) (c' : caps) :
  den digit4 l s c l' s' c' ->
  exists a b d e, s = [a; b; d; e] ++ s' /\
    is_digit a = true /\ is_digit b = true /\
    is_digit d = true /\ is_digit e = true.
Proof.
  unfold digit4, digit. simpl.
  intros (l1 & s1 & c1 & (a & -> & Ha & _ & _) &
          l2 & s2 & c2 & (b & -> & Hb & _ & _) &
          l3 & s3 & c3 & (d & -> & Hd & _ & _) &
          (e & -> & He & _ & _)).
  exists a, b, d, e. auto.
Qed.

(** The year a grammar captures is four digits. *)
Lemma year_capture_digits (g : grammar) (t : str) (m : caps) :
  has_year g = true ->
  re_match (grammar_re g) t = Some m ->
  exists a b d e, group m (year_group g) = [a; b; d; e] /\
    is_digit a = true /\ is_digit b = true /\
    is_digit d = true /\ is_digit e = true.
Proof.
  intros Hy H.
  destruct (re_match_sets _ _ _ _ (grammar_sets_year g Hy) H) as (w & Hw).
  unfold group. rewrite Hw.
  destruct (re_match_captured _ _ _ _ _ H Hw)
    as (r' & la & sa & ca & lb & sb & cb & pre & Hin & Hd & -> & _).
  rewrite groups_of_grammar in Hin.
  apply (year_group_body _ _ Hy) in Hin. subst r'.
  apply den_digit4 in Hd as (a & b & d & e & E & Ha & Hb & Hd & He).
  apply app_inv_tail in E. subst w. exists a, b, d, e. auto.
Qed.

Lemma digit_range (a : char) :
  is_digit a = true -> (48 <= a <= 57)%N.
Proof.
  unfold is_digit. rewrite andb_true_iff, !N.leb_le. auto.
Qed.

Lemma digit_not_ws (a : char) : is_digit a = true -> is_ws a = false.
Proof.
  intros H. apply digit_range in H. unfold is_ws.
  rewrite !orb_false_iff, !andb_false_iff, !N.leb_gt, !N.eqb_neq. lia.
Qed.

(** [parseInt] of four digits is an integer from 0 to 9999. *)
Lemma parseInt10_digit4 (a b d e : char) :
  is_digit a = true -> is_digit b = true ->
  is_digit d = true -> is_digit e = true ->
  exists y, parseInt10 [a; b; d; e] = Int y /\ (0 <= y <= 9999)%Z /\
    y = (digit_val a * 1000 + digit_val b * 100 + digit_val d * 10
         + digit_val e)%Z.
Proof.
  intros Ha Hb Hd He. unfold parseInt10. simpl drop_ws.
  rewrite (digit_not_ws _ Ha).
  pose proof (digit_range _ Ha) as Ra. pose proof (digit_range _ Hb) as Rb.
  pose proof (digit_range _ Hd) as Rd. pose proof (digit_range _ He) as Re.
  destruct (N.eqb_spec a 45); [lia|]. destruct (N.eqb_spec a 43); [lia|].
  simpl digits_prefix. rewrite Ha, Hb, Hd, He.
  eexists. split; [reflexivity|].
  unfold digits_value, digit_val. simpl fold_left. split; lia.
Qed.

Lemma year_capture_int (g : grammar) (t : str) (m : caps) :
  has_year g = true ->
  re_match (grammar_re g) t = Some m ->
  exists y, parseInt10 (group m (year_group g)) = Int y /\ (0 <= y <= 9999)%Z.
Proof.
  intros Hy H.
  destruct (year_capture_digits _ _ _ Hy H)
    as (a & b & d & e & -> & Ha & Hb & Hd & He).
  destruct (parseInt10_digit4 _ _ _ _ Ha Hb Hd He) as (y & E & R & _).
  eauto.
Qed.

Lemma section_ref_groups :
  groups_of SECTION_REF =
  [(1, Seq (plus digit) (opt (Seq (text "/") (plus digit))));
   (2, plus digit); (3, Chr is_lower)].
Proof. reflexivity. Qed.

(** [SECTION_REF] takes a paragraph from one lower-case letter only. *)
Lemma section_ref_paragraph (t : str) (sm : caps) (w : str) :
  re_match SECTION_REF t = Some sm -> cap 3 sm = Some w ->
  exists a, w = [a] /\ is_lower a = true /\ In a t.
Proof.
  intros H Hw.
  destruct (re_match_captured _ _ _ _ _ H Hw)
    as (r' & la & sa & ca & lb & sb & cb & pre & Hin & Hd & -> & ->).
  rewrite section_ref_groups in Hin. simpl in Hin.
  destruct Hin as [Hin|[Hin|[Hin|[]]]]; inversion Hin; subst r'.
  simpl in Hd. destruct Hd as (a & E & Ha & _ & _).
  change (a :: sb) with ([a] ++ sb) in E. apply app_inv_tail in E. subst w.
  exists a. repeat split; auto.
  apply in_or_app. right. simpl. auto.
Qed.

Lemma lower_not_pin (a : char) :
  is_lower a = true -> pin_char a = true -> False.
Proof.
  unfold is_lower, pin_char, is_digit, char_eqb.
  rewrite !orb_true_iff, !andb_true_iff, !N.leb_le, !N.eqb_eq. lia.
Qed.

(** *** The shape of a pinpoint *)

Lemma iter_class (p : char -> bool) :
  forall l s c l' s' c',
    iter (den (Chr p)) l s c l' s' c' ->
    exists w, s = w ++ s' /\ Forall (fun a => p a = true) w /\
              l' = rev w ++ l /\ c' = c.
Proof.
  intros l s c l' s' c' H.
  induction H as [l s c | l s c l1 s1 c1 l' s' c' H1 Hlt H2 IH].
  - exists []. auto.
  - simpl in H1. destruct H1 as (a & -> & Hp & -> & ->).
    destruct IH as (w & -> & Hw & -> & ->).
    exists (a :: w). simpl. rewrite <- app_assoc. auto.
Qed.

Lemma den_plus_digit (l s : str) (c : caps) (l' s' : str) (c' : caps) :
  den (plus digit) l s c l' s' c' ->
  exists d, s = d ++ s' /\ digits1 d /\ l' = rev d ++ l /\ c' = c.
Proof.
  unfold plus, digit. simpl.
  intros (l1 & s1 & c1 & (a & -> & Ha & -> & ->) & H).
  apply iter_class in H as (w & -> & Hw & -> & ->).
  exists (a :: w). simpl. rewrite <- app_assoc.
  repeat split; auto; discriminate.
Qed.

Lemma den_paren_groups :
  forall l s c l' s' c',
    iter (den (seqs [text "("; plus digit; text ")"])) l s c l' s' c' ->
    exists gs, s = concat gs ++ s' /\ Forall paren_group gs /\ c' = c.
Proof.
  intros l s c l' s' c' H.
  induction H as [l s c | l s c l1 s1 c1 l' s' c' H1 Hlt H2 IH].
  - exists []. auto.
  - destruct IH as (gs & -> & Hgs & ->).
    change (seqs [text "("; plus digit; text ")"])
      with (Seq (chr 40%N) (Seq (plus digit) (chr 41%N))) in H1.
    destruct H1 as (l2 & s2 & c2 & (a & -> & Ha & -> & ->) &
                    l3 & s3 & c3 & Hd & (b & E & Hb & _ & ->)).
    apply den_plus_digit in Hd as (d & -> & Hd & -> & ->). subst s3.
    unfold char_eqb in Ha, Hb. apply N.eqb_eq in Ha, Hb. subst a b.
    exists ((lit "(" ++ d ++ lit ")") :: gs). split; [|split; auto].
    + simpl. rewrite <- !app_assoc. reflexivity.
    + constructor; [|exact Hgs]. exists d. auto.
Qed.

Lemma den_pin_shape (l w s' : str) (c : caps) (l' : str) (c' : caps) :
  den pinpoint_re l (w ++ s') c l' s' c' -> pin_shape w.
Proof.
  change pinpoint_re
    with (Seq (plus digit)
           (Seq (Alt (Seq (chr 47%N) (plus digit)) Eps)
                (Star true (seqs [text "("; plus digit; text ")"])))).
  intros (l1 & s1 & c1 & Hd1 & l2 & s2 & c2 & Ho & Hg).
  apply den_plus_digit in Hd1 as (d1 & E1 & Hd1 & -> & ->).
  change (den (Star true (seqs [text "("; plus digit; text ")"]))
              l2 s2 c2 l' s' c')
    with (iter (den (seqs [text "("; plus digit; text ")"]))
               l2 s2 c2 l' s' c') in Hg.
  apply den_paren_groups in Hg as (gs & -> & Hgs & ->).
  destruct Ho as [Ho|Ho].
  - destruct Ho as (l3 & s3 & c3 & (a & -> & Ha & -> & ->) & Hd2).
    apply den_plus_digit in Hd2 as (d2 & -> & Hd2 & _ & _).
    unfold char_eqb in Ha. apply N.eqb_eq in Ha. subst a.
    exists d1, (lit "/" ++ d2), gs.
    split; [|split; [exact Hd1 | split; [right; exists d2; auto | exact Hgs]]].
    change (d1 ++ 47%N :: d2 ++ concat gs ++ s')
      with (d1 ++ (lit "/" ++ d2) ++ concat gs ++ s') in E1.
    rewrite !app_assoc in E1. apply app_inv_tail in E1.
    rewrite E1. rewrite <- ?app_assoc. reflexivity.
  - destruct Ho as (_ & Es & _). rewrite <- Es in E1.
    exists d1, [], gs.
    split; [|split; [exact Hd1 | split; [left; reflexivity | exact Hgs]]].
    rewrite !app_assoc in E1. apply app_inv_tail in E1.
    rewrite E1. rewrite <- ?app_assoc. reflexivity.
Qed.

Lemma digit_is_pin (a : char) : is_digit a = true -> pin_char a = true.
Proof. intros H. unfold pin_char. rewrite H. reflexivity. Qed.

Lemma pin_stop_not_digit (s' : str) :
  pin_stop s' -> match s' with [] => True | a :: _ => is_digit a = false end.
Proof.
  destruct s' as [|a s']; simpl; [auto|]. unfold pin_char.
  destruct (is_digit a); simpl; congruence.
Qed.

(** What follows the digits of a pinpoint is not a digit, and what follows
    its optional part is not a slash. *)
Lemma groups_head (P : char -> bool) (gs : list str) (s' : str) :
  P 40%N = false ->
  (forall a, pin_char a = false -> P a = false) ->
  Forall paren_group gs -> pin_stop s' ->
  match concat gs ++ s' with [] => True | a :: _ => P a = false end.
Proof.
  intros H40 HP Hgs Hs. destruct Hgs as [|g gs (d & -> & _) _]; simpl.
  - destruct s'; [exact I | apply HP; exact Hs].
  - exact H40.
Qed.

Lemma pin_char_digit (a : char) : pin_char a = false -> is_digit a = false.
Proof.
  unfold pin_char. rewrite !orb_false_iff. tauto.
Qed.

Lemma pin_char_slash (a : char) : pin_char a = false -> char_eqb a 47%N = false.
Proof.
  unfold pin_char. rewrite !orb_false_iff. tauto.
Qed.

Lemma pin_char_open (a : char) : pin_char a = false -> char_eqb a 40%N = false.
Proof.
  unfold pin_char. rewrite !orb_false_iff. tauto.
Qed.

Lemma leads_plus_digits (l d s' : str) (c : caps) :
  digits1 d ->
  match s' with [] => True | a :: _ => is_digit a = false end ->
  leads (plus digit) l d s' c c.
Proof.
  intros (Hne & Hd) Hs. destruct d as [|a d]; [congruence|].
  apply leads_plus_class; assumption.
Qed.

Lemma leads_paren_group (l g s' : str) (c : caps) :
  paren_group g ->
  leads (seqs [text "("; plus digit; text ")"]) l g s' c c.
Proof.
  intros (d & -> & Hd).
  change (seqs [text "("; plus digit; text ")"])
    with (Seq (chr 40%N) (Seq (plus digit) (chr 41%N))).
  apply (leads_seq (chr 40%N) _ l [40%N] (d ++ [41%N]) s' c c c).
  - apply leads_chr. reflexivity.
  - apply (leads_seq (plus digit) (chr 41%N) _ d [41%N] s' c c c).
    + apply leads_plus_digits; [exact Hd | reflexivity].
    + apply leads_chr. reflexivity.
Qed.

Lemma star_leads_groups (gs : list str) :
  forall l s' c,
    Forall paren_group gs -> pin_stop s' ->
    star_leads (seqs [text "("; plus digit; text ")"]) l (concat gs) s' c c.
Proof.
  induction gs as [|g gs IH]; intros l s' c Hgs Hs.
  - apply star_leads_nil.
    change (seqs [text "("; plus digit; text ")"])
      with (Seq (chr 40%N) (Seq (plus digit) (chr 41%N))).
    apply fails_seq, fails_class.
    destruct s' as [|a s']; [exact I | apply pin_char_open; exact Hs].
  - inversion Hgs as [|g0 gs0 Hg Hgs']; subst. simpl concat.
    apply star_leads_cons with (c1 := c).
    + destruct Hg as (d & -> & _). discriminate.
    + apply leads_paren_group. exact Hg.
    + apply IH; assumption.
Qed.

(** The pinpoint pattern reads a whole pinpoint first, when what follows
    cannot belong to one. *)
Lemma pin_shape_leads (l frag s' : str) (c : caps) :
  pin_shape frag -> pin_stop s' -> leads pinpoint_re l frag s' c c.
Proof.
  intros (d1 & o & gs & -> & Hd1 & Ho & Hgs) Hs.
  change pinpoint_re
    with (Seq (plus digit)
           (Seq (Alt (Seq (chr 47%N) (plus digit)) Eps)
                (Star true (seqs [text "("; plus digit; text ")"])))).
  assert (Hgd : match concat gs ++ s' with
                | [] => True | a :: _ => is_digit a = false end).
  { apply groups_head; auto using pin_char_digit. }
  assert (Hgsl : match concat gs ++ s' with
                 | [] => True | a :: _ => char_eqb a 47%N = false end).
  { apply groups_head; auto using pin_char_slash. }
  apply leads_seq with (c1 := c).
  - apply leads_plus_digits; [exact Hd1|].
    destruct Ho as [->|(d2 & -> & _)]; [exact Hgd | reflexivity].
  - apply leads_seq with (c1 := c).
    + destruct Ho as [->|(d2 & -> & Hd2)].
      * apply leads_alt_r; [|apply leads_eps].
        apply fails_seq, fails_class. exact Hgsl.
      * apply leads_alt_l.
        apply (leads_seq (chr 47%N) (plus digit) _ [47%N] d2 _ c c c).
        -- apply leads_chr. reflexivity.
        -- apply leads_plus_digits; [exact Hd2 | exact Hgd].
    + apply star_leads_leads, star_leads_groups; assumption.
Qed.

Lemma pin_shape_nonempty (frag : str) : pin_shape frag -> frag <> [].
Proof.
  intros (d1 & o & gs & -> & (Hne & _) & _). destruct d1; [congruence|].
  discriminate.
Qed.

Lemma pin_shape_head (frag : str) :
  pin_shape frag -> exists a r, frag = a :: r /\ is_digit a = true.
Proof.
  intros (d1 & o & gs & -> & (Hne & Hd) & _).
  destruct d1 as [|a d1]; [congruence|]. inversion Hd; subst.
  exists a, (d1 ++ o ++ concat gs). auto.
Qed.

(** *** The pinpoint sub-grammar, read back *)

(** A pattern without groups leaves the captures as they are. *)
Lemma den_no_groups (r : regex) :
  groups_of r = [] ->
  forall l s c l' s' c', den r l s c l' s' c' -> c' = c.
Proof.
  induction r as [ | p | r1 IH1 r2 IH2 | r1 IH1 r2 IH2 | g r IH | m r IH
                 | | | ]; intros Hg l s c l' s' c' H; simpl in Hg, H.
  - tauto.
  - destruct H as (a & _ & _ & _ & ->). reflexivity.
  - apply app_eq_nil in Hg as [Hg1 Hg2].
    destruct H as (l1 & s1 & c1 & H1 & H2).
    apply (IH1 Hg1) in H1. apply (IH2 Hg2) in H2. congruence.
  - apply app_eq_nil in Hg as [Hg1 Hg2]. destruct H as [H|H]; eauto.
  - induction H as [l s c | l s c l1 s1 c1 l' s' c' H1 Hlt H2 IHi];
      [reflexivity|].
    apply (IH Hg) in H1. congruence.
  - discriminate.
  - tauto.
  - tauto.
  - tauto.
Qed.

Lemma den_group_word (n : nat) (r : regex) (l s : str) (c : caps)
    (l' s' : str) (c' : caps) :
  den (Group n r) l s c l' s' c' ->
  exists w c1, s = w ++ s' /\ l' = rev w ++ l /\
    den r l (w ++ s') c l' s' c1 /\ c' = (n, w) :: c1.
Proof.
  simpl. intros (c1 & H & ->).
  pose proof (den_split _ _ _ _ _ _ _ H) as (w & -> & ->).
  exists w, c1. rewrite firstn_consumed. auto.
Qed.

(** What [SECTION_REF] matches is its first group followed by the other
    two, each in parentheses when it took part. *)
Lemma section_ref_rebuild (f : str) (sm : caps) :
  re_match SECTION_REF f = Some sm ->
  group sm 1 ++ in_parens (cap 2 sm) ++ in_parens (cap 3 sm) = f /\
  group sm 1 <> [] /\
  (forall w, cap 2 sm = Some w -> w <> []) /\
  (forall w, cap 3 sm = Some w -> w <> []).
Proof.
  change SECTION_REF with
    (Seq Bol
      (Seq (Group 1 (Seq (plus digit) (opt (Seq (text "/") (plus digit)))))
        (Seq (Alt (Seq (chr 40%N) (Seq (Group 2 (plus digit)) (chr 41%N)))
                  Eps)
          (Seq (Alt (Seq (chr 40%N)
                       (Seq (Group 3 (Chr is_lower)) (chr 41%N))) Eps)
               Eol)))).
  rewrite re_match_anchored. intros H.
  apply rmatch_sound in H as (l' & s' & c' & H & A).
  inversion A; subst c'; clear A.
  destruct H as (l1 & s1 & c1 & H1 & l2 & s2 & c2 & H2 &
                 l3 & s3 & c3 & H3 & H4).
  apply den_group_word in H1 as (w1 & c0 & -> & -> & H1 & ->).
  assert (Hc0 : c0 = []).
  { eapply den_no_groups; [|exact H1]. reflexivity. }
  subst c0.
  assert (Hw1 : w1 <> []).
  { destruct H1 as (la & sa & ca & Hd & Ho).
    apply den_plus_digit in Hd as (d & Ed & (Hne & _) & _).
    apply den_split in Ho as (x & Ex & _). rewrite Ex in Ed.
    rewrite app_assoc in Ed. apply app_inv_tail in Ed. subst w1.
    destruct d; [congruence | discriminate]. }
  destruct H4 as (Es3 & _ & Es' & ->). subst s3.
  assert (Hpart2 : exists o2, s1 = in_parens o2 ++ s2 /\
            c2 = match o2 with Some w => [(2, w)] | None => [] end
                 ++ [(1, w1)] /\
            (forall w, o2 = Some w -> w <> [])).
  { destruct H2 as [H2|H2].
    - destruct H2 as (la & sa & ca & (a & -> & Ha & -> & ->) &
                      lb & sb & cb & Hg & (b & -> & Hb & _ & ->)).
      apply den_group_word in Hg as (w2 & cg & -> & _ & Hg & ->).
      apply den_plus_digit in Hg as (d & Ed & (Hne & _) & _ & ->).
      apply app_inv_tail in Ed. subst d.
      unfold char_eqb in Ha, Hb. apply N.eqb_eq in Ha, Hb. subst a b.
      exists (Some w2). simpl. rewrite <- app_assoc.
      repeat split; auto. intros w E. inversion E; subst. exact Hne.
    - destruct H2 as (_ & -> & ->). exists None. simpl.
      repeat split; auto. discriminate. }
  destruct Hpart2 as (o2 & -> & -> & Ho2).
  assert (Hpart3 : exists o3, s2 = in_parens o3 /\
            c3 = match o3 with Some w => [(3, w)] | None => [] end
                 ++ match o2 with Some w => [(2, w)] | None => [] end
                 ++ [(1, w1)] /\
            (forall w, o3 = Some w -> w <> [])).
  { destruct H3 as [H3|H3].
    - destruct H3 as (la & sa & ca & (a & -> & Ha & -> & ->) &
                      lb & sb & cb & Hg & (b & -> & Hb & _ & ->)).
      apply den_group_word in Hg as (w3 & cg & -> & _ & Hg & ->).
      simpl in Hg. destruct Hg as (x & Ex & _ & _ & ->).
      change (x :: b :: []) with ([x] ++ [b]) in Ex.
      apply app_inv_tail in Ex. subst w3.
      unfold char_eqb in Ha, Hb. apply N.eqb_eq in Ha, Hb. subst a b.
      exists (Some [x]). simpl. repeat split; auto.
      intros w E. inversion E; subst. discriminate.
    - destruct H3 as (_ & E3 & E4). subst s2 c3. exists None. simpl.
      repeat split; auto. discriminate. }
  destruct Hpart3 as (o3 & -> & -> & Ho3).
  assert (Hg1 : group (match o3 with Some w => [(3, w)] | None => [] end
                       ++ match o2 with Some w => [(2, w)] | None => [] end
                       ++ [(1, w1)]) 1 = w1).
  { destruct o3, o2; reflexivity. }
  assert (Hg2 : cap 2 (match o3 with Some w => [(3, w)] | None => [] end
                       ++ match o2 with Some w => [(2, w)] | None => [] end
                       ++ [(1, w1)]) = o2).
  { destruct o3, o2; reflexivity. }
  assert (Hg3 : cap 3 (match o3 with Some w => [(3, w)] | None => [] end
                       ++ match o2 with Some w => [(2, w)] | None => [] end
                       ++ [(1, w1)]) = o3).
  { destruct o3, o2; reflexivity. }
  rewrite Hg1, Hg2, Hg3. repeat split; auto.
Qed.

End ParserFacts.

(** ** Properties of [parseCitation] *)

Import Js Regex Sem RegexFacts Parser ParserSpec ParserFacts.

(** What [parseSection] copies from its arguments. *)
Lemma parseSection_fields (sec : str) (ttl : prop_value) (be ce : num)
    (ty : citation_type) (p : ParsedCitation) :
  parseSection sec ttl be ce ty = Ok p ->
  valid p = true /\ be_year p = Some be /\ ce_year p = Some ce /\
  exists t, ttl = PStr t /\ title p = Some (trim t).
Proof.
  unfold parseSection. destruct ttl as [t|]; [|discriminate].
  destruct (re_match SECTION_REF sec); intros H; inversion H; subst; simpl;
    eauto 6.
Qed.

(** The pinpoint sub-grammar as [parseSection] applies it: the three groups
    of [SECTION_REF] when it matches, the whole fragment otherwise. *)
Lemma parseSection_pinpoint (sec : str) (ttl : prop_value) (be ce : num)
    (ty : citation_type) (p : ParsedCitation) :
  parseSection sec ttl be ce ty = Ok p ->
  match re_match SECTION_REF sec with
  | Some sm =>
    section p = Some (group sm 1) /\
    subsection p = or_undefined (cap 2 sm) /\
    paragraph p = or_undefined (cap 3 sm)
  | None =>
    section p = Some sec /\ subsection p = None /\ paragraph p = None
  end /\ error p = None /\ valid p = true.
Proof.
  unfold parseSection. destruct ttl as [t|]; [|discriminate].
  destruct (re_match SECTION_REF sec); intros H; inversion H; subst; simpl;
    auto.
Qed.

(** The years of a year-bearing grammar: the captured year [y] is an
    integer of four digits; the local-epoch year is [y], or [y + 543] when
    the grammar is ambiguous and [y] is at most 2400. *)
Lemma grammar_years (g : grammar) (t : str) (m : caps) :
  has_year g = true ->
  re_match (grammar_re g) t = Some m ->
  exists y, parseInt10 (group m (year_group g)) = Int y /\
    (0 <= y <= 9999)%Z /\
    be_value g m
      = Int (if ambiguous_year g && negb (2400 <? y)%Z then y + 543 else y) /\
    ce_value g m
      = Int (if ambiguous_year g && negb (2400 <? y)%Z then y else y - 543).
Proof.
  intros Hy H. destruct (year_capture_int _ _ _ Hy H) as (y & E & R).
  exists y. unfold be_value, ce_value. rewrite E.
  unfold be_of_year, ce_of_year, num_gt, num_add, num_sub.
  destruct (ambiguous_year g); simpl; destruct (2400 <? y)%Z; simpl; auto.
Qed.

(** C2: for every input, the result of [parseCitation] carries either no
    year at all or both years, and then they are integers with
    [ce_year = be_year - 543], that is [be_year = ce_year + 543]. *)
Theorem parseCitation_years_paired (s : str) (p : ParsedCitation) :
  parseCitation s = Ok p ->
  (be_year p = None /\ ce_year p = None) \/
  (exists b e : Z, be_year p = Some (Int b) /\ ce_year p = Some (Int e) /\
     e = (b - 543)%Z /\ b = (e + 543)%Z).
Proof.
  rewrite parseCitation_classify.
  destruct (classify (trim s)) as [[g m]|] eqn:C.
  - apply classify_re in C.
    assert (Hyear : has_year g = true ->
      parseSection (group m (pin_group g)) (title_value g m)
        (be_value g m) (ce_value g m) statute = Ok p ->
      exists b e : Z, be_year p = Some (Int b) /\ ce_year p = Some (Int e) /\
        e = (b - 543)%Z /\ b = (e + 543)%Z).
    { intros Hy H. apply parseSection_fields in H as (_ & Hb & Hc & _).
      destruct (grammar_years _ _ _ Hy C) as (y & _ & _ & Eb & Ec).
      rewrite Eb in Hb. rewrite Ec in Hc.
      eexists _, _. split; [exact Hb|]. split; [exact Hc|].
      destruct (ambiguous_year g && negb (2400 <? y)%Z); lia. }
    destruct g; try (intros H; right; apply Hyear; [reflexivity | exact H]).
    intros H. inversion H; subst. left. auto.
  - intros H. inversion H; subst. left. auto.
Qed.

Lemma parseCitation_years_paired_witness :
  exists p, parseCitation (lit "Section 3, Personal Data Protection Act B.E. 2562") = Ok p /\
    ((be_year p = None /\ ce_year p = None) \/
     (exists b e : Z, be_year p = Some (Int b) /\ ce_year p = Some (Int e) /\
        e = (b - 543)%Z /\ b = (e + 543)%Z)).
Proof.
  eexists. split; [vm_compute; reflexivity|].
  apply (parseCitation_years_paired
           (lit "Section 3, Personal Data Protection Act B.E. 2562")).
  vm_compute. reflexivity.
Defined.

(** The citations with a letter-suffixed pinpoint used as examples. *)
Lemma letter_suffixed_examples :
  forall s, In s (map lit
      ["Section 3(1)(a), Personal Data Protection Act B.E. 2562";
       "Personal Data Protection Act B.E. 2562, s. 3(1)(a)";
       "มาตรา 3(1)(a) พ.ร.บ.คุ้มครองข้อมูลส่วนบุคคล พ.ศ. 2562";
       "s. 3(1)(a), PDPA 2019";
       "pdpa-be2562, s. 3(1)(a)";
       "Section 3(1)(a), Personal Data Protection Act 2019";
       "Personal Data Protection Act 2019, s. 3(1)(a)"]%string) ->
    classify (trim s) = None /\
    exists p, parseCitation s = Ok p /\ valid p = false.
Proof.
  intros s Hs. simpl in Hs.
  repeat (destruct Hs as [Hs|Hs];
          [subst s; split; [vm_compute; reflexivity|];
           eexists; split; vm_compute; reflexivity|]).
  destruct Hs.
Qed.

(** C10: [parseCitation] never sets [paragraph].  Every grammar captures a
    pinpoint made of digits, [/], [(] and [)] only, while [SECTION_REF]
    takes a paragraph from one lower-case letter only; and a citation whose
    pinpoint carries a letter group, such as [3(1)(a)], is matched by no
    grammar. *)
Theorem paragraph_never_set :
  (forall s p, parseCitation s = Ok p -> paragraph p = None) /\
  (forall g t m, re_match (grammar_re g) t = Some m ->
     Forall (fun a => pin_char a = true) (group m (pin_group g))) /\
  (forall t sm w, re_match SECTION_REF t = Some sm -> cap 3 sm = Some w ->
     exists a, w = [a] /\ is_lower a = true /\ pin_char a = false) /\
  (forall g, re_match (grammar_re g)
       (lit "Section 3(1)(a), Personal Data Protection Act B.E. 2562") = None)
  /\
  (exists p,
     parseCitation
       (lit "Section 3(1)(a), Personal Data Protection Act B.E. 2562") = Ok p
     /\ valid p = false).
Proof.
  split; [|split; [|split; [|split]]].
  - intros s p. rewrite parseCitation_classify.
    destruct (classify (trim s)) as [[g m]|] eqn:C.
    + apply classify_re in C.
      assert (Hsec :
        parseSection (group m (pin_group g)) (title_value g m)
          (be_value g m) (ce_value g m) statute = Ok p ->
        paragraph p = None).
      { intros H. apply parseSection_pinpoint in H as (H & _).
        destruct (re_match SECTION_REF (group m (pin_group g))) as [sm|] eqn:E;
          [|tauto].
        destruct H as (_ & _ & ->).
        destruct (cap 3 sm) as [w|] eqn:E3; [|reflexivity].
        destruct (section_ref_paragraph _ _ _ E E3) as (a & -> & Ha & Hin).
        pose proof (pin_capture_chars _ _ _ C) as Hpin.
        rewrite Forall_forall in Hpin.
        destruct (lower_not_pin a Ha (Hpin a Hin)). }
      destruct g; auto. intros H. inversion H; subst. reflexivity.
    + intros H. inversion H; subst. reflexivity.
  - apply pin_capture_chars.
  - intros t sm w H Hw.
    destruct (section_ref_paragraph _ _ _ H Hw) as (a & -> & Ha & _).
    exists a. repeat split; auto.
    destruct (pin_char a) eqn:E; [destruct (lower_not_pin a Ha E) | auto].
  - intros g. destruct g; vm_compute; reflexivity.
  - eexists. split; vm_compute; reflexivity.
Qed.

Lemma paragraph_never_set_witness :
  exists p,
    parseCitation (lit "Section 3(1), Personal Data Protection Act B.E. 2562")
      = Ok p /\
    subsection p = Some (lit "1") /\ paragraph p = None.
Proof.
  eexists. split; [vm_compute; reflexivity|].
  split; [vm_compute; reflexivity|].
  apply (proj1 paragraph_never_set
           (lit "Section 3(1), Personal Data Protection Act B.E. 2562")).
  vm_compute. reflexivity.
Defined.

(** C5: in the grammars whose four-digit year may belong to either epoch
    (the short form and the two forms with a bare year), the parsed year
    [y] is read by magnitude: above 2400 it is the local-epoch year
    ([be_year = y], [ce_year = y - 543]), otherwise the universal-epoch year
    ([ce_year = y], [be_year = y + 543]).  In particular [s. 3, PDPA 2019]
    gives section 3, [ce_year] 2019, [be_year] 2562 and the expanded
    title. *)
Theorem ambiguous_year_by_magnitude :
  (forall s g m p,
     classify (trim s) = Some (g, m) -> ambiguous_year g = true ->
     parseCitation s = Ok p ->
     exists y : Z,
       parseInt10 (group m (year_group g)) = Int y /\
       ((2400 < y)%Z ->
          be_year p = Some (Int y) /\ ce_year p = Some (Int (y - 543))) /\
       ((y <= 2400)%Z ->
          ce_year p = Some (Int y) /\ be_year p = Some (Int (y + 543)))) /\
  (exists m p,
     classify (trim (lit "s. 3, PDPA 2019")) = Some (Short, m) /\
     parseCitation (lit "s. 3, PDPA 2019") = Ok p /\
     valid p = true /\
     section p = Some (lit "3") /\
     ce_year p = Some (Int 2019) /\ be_year p = Some (Int 2562) /\
     title p = Some (lit "Personal Data Protection Act")).
Proof.
  split.
  - intros s g m p C Ha. rewrite parseCitation_classify, C.
    apply classify_re in C.
    assert (Hy : has_year g = true) by (destruct g; auto; discriminate).
    destruct (grammar_years _ _ _ Hy C) as (y & E & _ & Eb & Ec).
    rewrite Ha in Eb, Ec. simpl in Eb, Ec.
    assert (Hsec :
      parseSection (group m (pin_group g)) (title_value g m)
        (be_value g m) (ce_value g m) statute = Ok p ->
      exists y : Z,
        parseInt10 (group m (year_group g)) = Int y /\
        ((2400 < y)%Z ->
           be_year p = Some (Int y) /\ ce_year p = Some (Int (y - 543))) /\
        ((y <= 2400)%Z ->
           ce_year p = Some (Int y) /\ be_year p = Some (Int (y + 543)))).
    { intros H. apply parseSection_fields in H as (_ & Hb & Hc & _).
      rewrite Eb in Hb. rewrite Ec in Hc. exists y. split; [exact E|].
      destruct (Z.ltb_spec 2400 y); simpl in Hb, Hc;
        split; intros; auto; lia. }
    destruct g; try discriminate; exact Hsec.
  - eexists _, _. split; [vm_compute; reflexivity|].
    split; [vm_compute; reflexivity|].
    repeat split; vm_compute; reflexivity.
Qed.

Lemma ambiguous_year_by_magnitude_witness :
  exists m p y,
    classify (trim (lit "Section 7, Cybersecurity Act 2562")) = Some (EnglishCE, m) /\
    parseCitation (lit "Section 7, Cybersecurity Act 2562") = Ok p /\
    parseInt10 (group m (year_group EnglishCE)) = Int y /\
    ((2400 < y)%Z ->
       be_year p = Some (Int y) /\ ce_year p = Some (Int (y - 543))) /\
    ((y <= 2400)%Z ->
       ce_year p = Some (Int y) /\ be_year p = Some (Int (y + 543))).
Proof.
  eexists _, _.
  assert (C : classify (trim (lit "Section 7, Cybersecurity Act 2562"))
              = Some (EnglishCE, _)) by (vm_compute; reflexivity).
  assert (P : parseCitation (lit "Section 7, Cybersecurity Act 2562") = Ok _)
    by (vm_compute; reflexivity).
  destruct (proj1 ambiguous_year_by_magnitude _ _ _ _ C eq_refl P)
    as (y & E & H1 & H2).
  exists y. repeat split; try exact C; try exact P; try exact E; tauto.
Defined.

(** For every grammar but the bare-identifier one, the result carries the
    pinpoint as [parseSection] decomposes it. *)
Lemma pinpoint_decomposed (s : str) (g : grammar) (m : caps)
    (p : ParsedCitation) :
  classify (trim s) = Some (g, m) -> g <> IdBased ->
  parseCitation s = Ok p ->
  match re_match SECTION_REF (group m (pin_group g)) with
  | Some sm =>
    section p = Some (group sm 1) /\
    subsection p = or_undefined (cap 2 sm) /\
    paragraph p = or_undefined (cap 3 sm)
  | None =>
    section p = Some (group m (pin_group g)) /\
    subsection p = None /\ paragraph p = None
  end /\ error p = None /\ valid p = true.
Proof.
  intros C Hg. rewrite parseCitation_classify, C.
  destruct g; try congruence; apply parseSection_pinpoint.
Qed.

(** C1, evaluated where the code departs from it.  The fragment [3(1)]
    matches the sub-grammar, with section 3 and subsection 1, and the
    foreign-language full form decomposes it so; the bare-identifier form
    keeps the whole fragment as [section] and sets no subsection.  A short
    form whose abbreviation names a member of [Object.prototype] raises
    instead of returning a result. *)
Theorem id_based_pinpoint_kept_whole :
  (exists sm, re_match SECTION_REF (lit "3(1)") = Some sm /\
     group sm 1 = lit "3" /\ cap 2 sm = Some (lit "1") /\ cap 3 sm = None) /\
  (exists p, parseCitation (lit "Section 3(1), pdpa-be2562 B.E. 2562") = Ok p /\
     valid p = true /\ section p = Some (lit "3") /\
     subsection p = Some (lit "1")) /\
  (exists m p,
     classify (trim (lit "pdpa-be2562, s. 3(1)")) = Some (IdBased, m) /\
     group m (pin_group IdBased) = lit "3(1)" /\
     parseCitation (lit "pdpa-be2562, s. 3(1)") = Ok p /\
     valid p = true /\ section p = Some (lit "3(1)") /\
     subsection p = None /\ paragraph p = None) /\
  (exists m,
     classify (trim (lit "s. 3, constructor 2019")) = Some (Short, m) /\
     parseCitation (lit "s. 3, constructor 2019")
       = Throw "TypeError: title.trim is not a function").
Proof.
  repeat split.
  - eexists. repeat split; vm_compute; reflexivity.
  - eexists. repeat split; vm_compute; reflexivity.
  - eexists _, _. repeat split; vm_compute; reflexivity.
  - eexists. split; vm_compute; reflexivity.
Qed.

(** ** Strings *)

Module JsFacts.
Import Js.

Lemma str_eqb_eq (s t : str) : str_eqb s t = true <-> s = t.
Proof.
  revert t. induction s as [|a s IH]; intros [|b t]; simpl;
    try (split; [discriminate | congruence]); [tauto|].
  rewrite andb_true_iff. unfold char_eqb. rewrite N.eqb_eq, IH.
  split; [intros [-> ->]; reflexivity | intros H; inversion H; auto].
Qed.

Lemma str_eqb_neq (s t : str) : s <> t -> str_eqb s t = false.
Proof.
  intros H. destruct (str_eqb s t) eqn:E; [|reflexivity].
  apply str_eqb_eq in E. contradiction.
Qed.

Lemma str_eqb_refl (s : str) : str_eqb s s = true.
Proof. apply str_eqb_eq. reflexivity. Qed.

(** *** Trimming *)

Lemma drop_ws_head (s : str) :
  match drop_ws s with
  | [] => True
  | a :: _ => is_ws a = false
  end.
Proof.
  induction s as [|a s IH]; simpl; [exact I|].
  destruct (is_ws a) eqn:E; [exact IH | exact E].
Qed.

Lemma drop_ws_suffix (s : str) : exists w, s = w ++ drop_ws s.
Proof.
  induction s as [|a s (w & IH)]; simpl.
  - exists []. reflexivity.
  - destruct (is_ws a).
    + exists (a :: w). simpl. rewrite <- IH. reflexivity.
    + exists []. reflexivity.
Qed.

Lemma drop_ws_id (a : char) (s : str) :
  is_ws a = false -> drop_ws (a :: s) = a :: s.
Proof. intros H. simpl. rewrite H. reflexivity. Qed.

Lemma drop_ws_snoc (s : str) (b : char) :
  is_ws b = false -> exists u, drop_ws (s ++ [b]) = u ++ [b].
Proof.
  intros Hb. induction s as [|a s (u & IH)]; simpl.
  - rewrite Hb. exists []. reflexivity.
  - destruct (is_ws a).
    + exists u. exact IH.
    + exists (a :: s). reflexivity.
Qed.

(** A trimmed string is empty, or starts and ends with a code unit that is
    not white space. *)
Lemma trim_ends (s : str) :
  trim s = [] \/
  exists a u b, (trim s = a :: u /\ is_ws a = false) /\
                (exists v, trim s = v ++ [b] /\ is_ws b = false).
Proof.
  unfold trim. pose proof (drop_ws_head s) as Hh.
  destruct (drop_ws s) as [|a s1] eqn:E1; [left; reflexivity|].
  right.
  destruct (drop_ws_snoc (rev s1) a Hh) as (u & Hr).
  change (rev (a :: s1)) with (rev s1 ++ [a]). 
  pose proof (drop_ws_head (rev s1 ++ [a])) as Hb.
  rewrite Hr in Hb |- *.
  exists a, (rev u). destruct u as [|b u'].
  - exists a. split; [auto|]. exists []. auto.
  - exists b. simpl in Hb. split.
    + rewrite rev_app_distr. auto.
    + exists (rev (u' ++ [a])). split; [reflexivity | exact Hb].
Qed.

Lemma trim_fixed (s : str) :
  (s = [] \/
   exists a u b, (s = a :: u /\ is_ws a = false) /\
                 (exists v, s = v ++ [b] /\ is_ws b = false)) ->
  trim s = s.
Proof.
  intros [->|(a & u & b & (E1 & Ha) & (v & E2 & Hb))]; [reflexivity|].
  unfold trim. rewrite E1, (drop_ws_id _ _ Ha), <- E1, E2.
  rewrite rev_app_distr. simpl. rewrite Hb. simpl.
  rewrite rev_involutive. reflexivity.
Qed.

Lemma trim_idempotent (s : str) : trim (trim s) = trim s.
Proof. apply trim_fixed. apply trim_ends. Qed.

Lemma drop_ws_Forall (P : char -> Prop) (s : str) :
  Forall P s -> Forall P (drop_ws s).
Proof.
  induction 1 as [|a s Ha Hs IH]; simpl; [constructor|].
  destruct (is_ws a); [exact IH | constructor; assumption].
Qed.

Lemma trim_Forall (P : char -> Prop) (s : str) :
  Forall P s -> Forall P (trim s).
Proof.
  intros H. unfold trim.
  apply Forall_rev, drop_ws_Forall, Forall_rev, drop_ws_Forall. exact H.
Qed.

End JsFacts.

(** ** Properties of [formatCitation] *)

Import Formatter JsFacts.

(** C6: [formatCitation] is a total function.  For a citation that is not
    valid or has no section it returns the empty string whatever the format
    is; for a format that is none of [full_th], [full_en], [short] and
    [pinpoint] it returns what it returns for [full_en], which is also the
    format of a call that leaves the argument out. *)
Theorem formatCitation_total :
  (forall p f, valid p = false \/ section p = None ->
     formatCitation p f = []) /\
  (forall p f,
     f <> lit "full_th" -> f <> lit "full_en" ->
     f <> lit "short" -> f <> lit "pinpoint" ->
     formatCitation p (Some f) = formatCitation p (Some (lit "full_en"))) /\
  (forall p, formatCitation p None = formatCitation p (Some (lit "full_en"))).
Proof.
  split; [|split].
  - intros p f [H|H]; unfold formatCitation; rewrite H;
      [reflexivity | rewrite orb_true_r; reflexivity].
  - intros p f H1 H2 H3 H4. unfold formatCitation.
    rewrite (str_eqb_neq _ _ H1), (str_eqb_neq _ _ H2),
      (str_eqb_neq _ _ H3), (str_eqb_neq _ _ H4).
    destruct (negb (valid p) || negb (truthy (section p))); reflexivity.
  - intros p. reflexivity.
Qed.

Lemma formatCitation_total_witness :
  formatCitation
    {| valid := false; type := unknown; title := None; title_en := None; abbreviation := None;
       be_year := None; ce_year := None; section := None;
       subsection := None; paragraph := None; error := None |}
    (Some (lit "short")) = [] /\
  formatCitation
    {| valid := true; type := statute;
       title := Some (lit "Personal Data Protection Act");
       title_en := None; abbreviation := None;
       be_year := Some (Int 2562); ce_year := Some (Int 2019);
       section := Some (lit "3");
       subsection := None; paragraph := None; error := None |}
    (Some (lit "bluebook"))
  = lit "Section 3, Personal Data Protection Act B.E. 2562 (2019)".
Proof.
  split.
  - apply (proj1 formatCitation_total). left. reflexivity.
  - rewrite (proj1 (proj2 formatCitation_total));
      [vm_compute; reflexivity | | | | ]; vm_compute; discriminate.
Defined.

(** ** Properties of [validateCitation] *)

Import Store Validator Examples.

(** C4: whatever the database state and the input, a result of
    [validateCitation] with [provision_exists] has [document_exists]. *)
Theorem provision_implies_document (like : str -> str -> bool)
    (db : Database) (s : str) (v : ValidationResult) :
  validateCitation like db s = Ok v ->
  provision_exists v = true -> document_exists v = true.
Proof.
  unfold validateCitation.
  destruct (parseCitation s) as [parsed|msg]; [|discriminate].
  intros H. inversion H; subst; clear H.
  destruct (negb (valid parsed)); [simpl; auto|].
  destruct (find _ (legal_documents db)) as [doc|]; [|simpl; auto].
  destruct (truthy (section parsed)); [|simpl; auto].
  destruct (find _ (legal_provisions db)); simpl; auto.
Qed.

Lemma provision_implies_document_witness :
  exists v,
    validateCitation sqlite_like example_db
      (lit "Section 3, Personal Data Protection Act B.E. 2562") = Ok v /\
    provision_exists v = true /\ document_exists v = true.
Proof.
  eexists. split; [vm_compute; reflexivity|].
  split; [vm_compute; reflexivity|].
  apply (provision_implies_document sqlite_like example_db
           (lit "Section 3, Personal Data Protection Act B.E. 2562"));
    vm_compute; reflexivity.
Defined.

(** ** Properties of [resolveExistingStatuteId] *)

Import StatuteId.






(** ** Properties of [buildFtsQueryVariants] *)

Module FtsFacts.
Import Js Regex FtsQuery FtsSpec JsFacts.

(** Induction along [strip_comments]. *)
Lemma strip_comments_ind (P : str -> Prop) :
  P [] ->
  (forall a, P [a]) ->
  (forall s, P s -> P (45%N :: 45%N :: s)) ->
  (forall a b s, char_eqb a 45%N && char_eqb b 45%N = false ->
     P (b :: s) -> P (a :: b :: s)) ->
  forall s, P s.
Proof.
  intros H0 H1 H2 H3.
  assert (H : forall n s, List.length s <= n -> P s).
  { induction n as [|n IH]; intros s Hn.
    - destruct s; [exact H0 | simpl in Hn; lia].
    - destruct s as [|a [|b s]]; [exact H0 | apply H1 |].
      simpl in Hn.
      destruct (char_eqb a 45%N && char_eqb b 45%N) eqn:E.
      + apply andb_true_iff in E as [Ea Eb]. unfold char_eqb in Ea, Eb.
        apply N.eqb_eq in Ea, Eb. subst. apply H2. apply IH. lia.
      + apply H3; [exact E|]. apply IH. simpl. lia. }
  intros s. apply (H (List.length s)). lia.
Qed.

Lemma strip_comments_skip (s : str) :
  strip_comments (45%N :: 45%N :: s) = strip_comments s.
Proof. reflexivity. Qed.

Lemma strip_comments_keep (a b : char) (s : str) :
  char_eqb a 45%N && char_eqb b 45%N = false ->
  strip_comments (a :: b :: s) = a :: strip_comments (b :: s).
Proof. intros H. simpl. rewrite H. reflexivity. Qed.

Lemma strip_comments_head (b : char) (s : str) :
  char_eqb b 45%N = false -> strip_comments (b :: s) = b :: strip_comments s.
Proof.
  intros H. destruct s as [|c s]; [reflexivity|].
  apply strip_comments_keep. rewrite H. reflexivity.
Qed.

Lemma strip_comments_incl (s : str) (c : char) :
  In c (strip_comments s) -> In c s.
Proof.
  revert c. induction s as [ | a | s IH | a b s E IH ] using strip_comments_ind;
    intros c H.
  - exact H.
  - exact H.
  - rewrite strip_comments_skip in H. right. right. auto.
  - rewrite (strip_comments_keep _ _ _ E) in H. destruct H as [H|H].
    + left. exact H.
    + right. auto.
Qed.

Lemma strip_comments_length (s : str) :
  List.length (strip_comments s) <= List.length s.
Proof.
  induction s as [ | a | s IH | a b s E IH ] using strip_comments_ind.
  - simpl. lia.
  - simpl. lia.
  - rewrite strip_comments_skip. simpl. lia.
  - rewrite (strip_comments_keep _ _ _ E). simpl in *. lia.
Qed.

(** No comment sequence is left. *)
Lemma strip_comments_clean (s : str) :
  includes (strip_comments s) (lit "--") = false.
Proof.
  change (lit "--") with [45%N; 45%N].
  induction s as [ | a | s IH | a b s E IH ] using strip_comments_ind.
  - reflexivity.
  - simpl. rewrite andb_false_r. reflexivity.
  - rewrite strip_comments_skip. exact IH.
  - rewrite (strip_comments_keep _ _ _ E).
    change (includes (a :: strip_comments (b :: s)) [45%N; 45%N])
      with (starts_with [45%N; 45%N] (a :: strip_comments (b :: s))
            || includes (strip_comments (b :: s)) [45%N; 45%N]).
    rewrite IH, orb_false_r.
    destruct (char_eqb a 45%N) eqn:Ea.
    + simpl in E. rewrite (strip_comments_head _ _ E).
      simpl. unfold char_eqb in *. rewrite (N.eqb_sym 45 b), E.
      apply andb_false_r.
    + simpl. unfold char_eqb in *. rewrite (N.eqb_sym 45 a), Ea.
      reflexivity.
Qed.


Lemma quoteCount_snoc (s : str) :
  quoteCount (s ++ [dquote]) = S (quoteCount s).
Proof.
  unfold quoteCount. rewrite filter_app, length_app.
  change (List.length (filter (fun c => char_eqb c dquote) [dquote])) with 1.
  lia.
Qed.

Lemma mod2_even (n : nat) : Nat.eqb (Nat.modulo n 2) 0 = Nat.even n.
Proof.
  pose proof (Nat.div_mod_eq n 2) as D.
  pose proof (Nat.mod_upper_bound n 2 ltac:(lia)) as B.
  destruct (Nat.even n) eqn:E.
  - apply Nat.even_spec in E as (m & E). apply Nat.eqb_eq. lia.
  - apply Nat.eqb_neq. intros Z.
    assert (Ev : Nat.even n = true) by (apply Nat.even_spec; exists (n / 2); lia).
    congruence.
Qed.


End FtsFacts.

Import FtsQuery FtsSpec FtsFacts.

Ltac break_all :=
  repeat match goal with
  | H : exists _, _ |- _ => destruct H
  | H : _ /\ _ |- _ => destruct H
  end.

Ltac chars_eq :=
  repeat match goal with
  | H : char_eqb _ _ = true |- _ =>
    unfold char_eqb in H; apply N.eqb_eq in H
  end.

(** The explicit-syntax test, in the spec's words. *)
Lemma explicit_mode_sound (s : str) :
  re_test EXPLICIT_FTS_SYNTAX s = true -> explicit_syntax s.
Proof.
  unfold re_test. destruct (search EXPLICIT_FTS_SYNTAX [] s) as [m|] eqn:E;
    [intros _ | discriminate].
  apply search_sound in E as (pre & s0 & l' & s' & -> & D).
  rewrite app_nil_r in D. unfold explicit_syntax, whole_word, boundary.
  simpl in D.
  destruct D as [D|[D|[D|[D|D]]]].
  - destruct D as (a & -> & Ha & _). left.
    unfold quote_class, char_eqb in Ha. rewrite !orb_true_iff, !N.eqb_eq in Ha.
    assert (a = dquote) by tauto. subst a.
    apply in_or_app. right. left. reflexivity.
  - right. left. break_all. chars_eq. subst.
    eexists pre, _. split; [reflexivity|]. split; [assumption|].
    rewrite rev_app_distr. assumption.
  - right. right. left. break_all. chars_eq. subst.
    eexists pre, _. split; [reflexivity|]. split; [assumption|].
    rewrite rev_app_distr. assumption.
  - right. right. right. left. break_all. chars_eq. subst.
    eexists pre, _. split; [reflexivity|]. split; [assumption|].
    rewrite rev_app_distr. assumption.
  - right. right. right. right. break_all. chars_eq. subst.
    exists pre. reflexivity.
Qed.

Lemma rmatch_alt_l (r1 r2 : regex) (l s : str) (c : caps) (k : cont) :
  rmatch r1 l s c k <> None -> rmatch (Alt r1 r2) l s c k <> None.
Proof.
  simpl. unfold or_else. destruct (rmatch r1 l s c k); congruence.
Qed.

Lemma rmatch_alt_r (r1 r2 : regex) (l s : str) (c : caps) (k : cont) :
  rmatch r2 l s c k <> None -> rmatch (Alt r1 r2) l s c k <> None.
Proof.
  simpl. unfold or_else. destruct (rmatch r1 l s c k); congruence.
Qed.

Lemma explicit_mode_complete (s : str) :
  explicit_syntax s -> re_test EXPLICIT_FTS_SYNTAX s = true.
Proof.
  intros H. unfold re_test.
  assert (Hs : search EXPLICIT_FTS_SYNTAX [] s <> None);
    [|destruct (search EXPLICIT_FTS_SYNTAX [] s); congruence].
  unfold explicit_syntax, whole_word, boundary in H.
  destruct H as [H|[H|[H|[H|H]]]].
  - apply in_split in H as (pre & post & ->).
    apply search_complete. simpl. discriminate.
  - destruct H as (pre & post & -> & B1 & B2).
    apply search_complete. rewrite app_nil_r.
    apply rmatch_alt_r, rmatch_alt_l.
    rewrite rev_app_distr in B2. simpl in B1, B2 |- *.
    rewrite B1, B2. discriminate.
  - destruct H as (pre & post & -> & B1 & B2).
    apply search_complete. rewrite app_nil_r.
    apply rmatch_alt_r, rmatch_alt_r, rmatch_alt_l.
    rewrite rev_app_distr in B2. simpl in B1, B2 |- *.
    rewrite B1, B2. discriminate.
  - destruct H as (pre & post & -> & B1 & B2).
    apply search_complete. rewrite app_nil_r.
    apply rmatch_alt_r, rmatch_alt_r, rmatch_alt_r, rmatch_alt_l.
    rewrite rev_app_distr in B2. simpl in B1, B2 |- *.
    rewrite B1, B2. discriminate.
  - destruct H as (pre & ->).
    apply search_complete. rewrite app_nil_r.
    apply rmatch_alt_r, rmatch_alt_r, rmatch_alt_r, rmatch_alt_r.
    simpl. discriminate.
Qed.

(** Explicit-syntax mode is what the spec calls so. *)
Lemma explicit_mode_iff (s : str) :
  re_test EXPLICIT_FTS_SYNTAX s = true <-> explicit_syntax s.
Proof.
  split; [apply explicit_mode_sound | apply explicit_mode_complete].
Qed.

(** What the explicit-syntax branch strips is gone from its result. *)
Lemma normalised_clean (t : str) :
  let stripped := strip_comments (strip_semicolons (normalise_quotes t)) in
  (forall c, In c stripped ->
     is_smart_quote c = false /\ char_eqb c 59%N = false) /\
  includes stripped (lit "--") = false /\
  List.length stripped <= List.length t.
Proof.
  simpl. split; [|split].
  - intros c Hc. apply strip_comments_incl in Hc.
    unfold strip_semicolons in Hc. apply filter_In in Hc as (Hc & Hsemi).
    apply negb_true_iff in Hsemi. split; [|exact Hsemi].
    unfold normalise_quotes in Hc. apply in_map_iff in Hc as (x & Hx & _).
    destruct (is_smart_quote x) eqn:E; subst c; [reflexivity | exact E].
  - apply strip_comments_clean.
  - eapply Nat.le_trans; [apply strip_comments_length|].
    unfold strip_semicolons.
    eapply Nat.le_trans; [apply filter_length_le|].
    unfold normalise_quotes. rewrite length_map. lia.
Qed.



Lemma rev_cons_nonempty (c : char) (cur : str) : rev (c :: cur) <> [].
Proof. simpl. destruct (rev cur); discriminate. Qed.

Lemma filter_nonempty_cons (w : str) (l : list str) :
  w <> [] -> filter nonempty (w :: l) = w :: filter nonempty l.
Proof. intros H. destruct w; [congruence | reflexivity]. Qed.

Lemma words_single (w : str) :
  w <> [] -> Forall (fun c => is_ws c = false) w -> words_of w [w].
Proof.
  intros Hne Hw. rewrite <- (app_nil_r w) at 1.
  apply words_word; auto. constructor.
Qed.

(** [split(/\s+/)] followed by the removal of the empty pieces yields the
    words of the string. *)
Lemma split_ws_from_words (s : str) :
  forall cur in_sep,
    Forall (fun c => is_ws c = false) cur ->
    (in_sep = true -> cur = []) ->
    words_of (rev cur ++ s) (filter nonempty (split_ws_from s cur in_sep)).
Proof.
  induction s as [|a s IH]; intros cur in_sep Hcur Hsep.
  - rewrite app_nil_r.
    change (split_ws_from [] cur in_sep) with [rev cur].
    destruct cur as [|c cur]; [simpl; constructor|].
    rewrite (filter_nonempty_cons _ _ (rev_cons_nonempty c cur)).
    apply words_single; [apply rev_cons_nonempty|].
    apply Forall_rev. exact Hcur.
  - assert (Hrest : is_ws a = true ->
                    words_of (a :: s)
                      (filter nonempty (split_ws_from s [] true))).
    { intros Ha. apply words_space; [exact Ha|].
      apply (IH [] true); [constructor | reflexivity]. }
    destruct (is_ws a) eqn:Ha.
    + destruct in_sep.
      * rewrite (Hsep eq_refl).
        change (split_ws_from (a :: s) [] true)
          with (if is_ws a then split_ws_from s [] true
                else split_ws_from s [a] false).
        rewrite Ha. apply Hrest. reflexivity.
      * change (split_ws_from (a :: s) cur false)
          with (if is_ws a then rev cur :: split_ws_from s [] true
                else split_ws_from s (a :: cur) false).
        rewrite Ha.
        destruct cur as [|c cur]; [simpl; apply Hrest; reflexivity|].
        rewrite (filter_nonempty_cons _ _ (rev_cons_nonempty c cur)).
        apply words_word;
          [apply rev_cons_nonempty | | | apply Hrest; reflexivity].
        -- apply Forall_rev. exact Hcur.
        -- right. exists a, s. auto.
    + change (split_ws_from (a :: s) cur in_sep)
        with (if is_ws a
              then if in_sep then split_ws_from s [] true
                   else rev cur :: split_ws_from s [] true
              else split_ws_from s (a :: cur) false).
      rewrite Ha.
      specialize (IH (a :: cur) false).
      change (rev (a :: cur)) with (rev cur ++ [a]) in IH.
      rewrite <- app_assoc in IH.
      apply IH; [constructor; auto | discriminate].
Qed.

Lemma split_ws_words (s : str) :
  words_of s (filter nonempty (split_ws s)).
Proof.
  apply (split_ws_from_words s [] false); [constructor | discriminate].
Qed.


Lemma drop_ws_all (s : str) :
  Forall (fun c => is_ws c = true) s -> drop_ws s = [].
Proof.
  induction 1 as [|a s Ha _ IH]; simpl; [reflexivity|].
  rewrite Ha. exact IH.
Qed.

(** A string of white space trims to the empty string. *)
Lemma trim_blank (s : str) :
  Forall (fun c => is_ws c = true) s -> trim s = [].
Proof.
  intros H. unfold trim. rewrite (drop_ws_all _ H). reflexivity.
Qed.



(** ** Formatting and parsing back *)

Module RoundTripFacts.
Import Js Regex Sem RegexFacts Parser ParserSpec ParserFacts Formatter
       JsFacts RoundTrip.

Lemma years_print :
  forallb year_prints (seq (Z.to_nat 1000) (Z.to_nat 9000)) = true.
Proof. vm_compute. reflexivity. Qed.

(** A year from 1000 to 9999 prints as four digits, which read back as the
    year. *)
Lemma year_roundtrip (y : Z) :
  (1000 <= y <= 9999)%Z ->
  exists a b d e, num_to_str (Int y) = [a; b; d; e] /\
    is_digit a = true /\ is_digit b = true /\
    is_digit d = true /\ is_digit e = true /\
    parseInt10 [a; b; d; e] = Int y.
Proof.
  intros Hy. pose proof years_print as H. rewrite forallb_forall in H.
  specialize (H (Z.to_nat y)).
  assert (Hin : In (Z.to_nat y) (seq (Z.to_nat 1000) (Z.to_nat 9000)))
    by (apply in_seq; lia).
  apply H in Hin. unfold year_prints in Hin.
  rewrite Z2Nat.id in Hin by lia.
  destruct (num_to_str (Int y)) as [|a [|b [|d [|e [|]]]]]; try discriminate.
  rewrite !andb_true_iff in Hin. destruct Hin as ((((Ha & Hb) & Hd) & He) & Hp).
  exists a, b, d, e. repeat split; auto.
  destruct (parseInt10 [a; b; d; e]) as [m|]; [|discriminate].
  apply Z.eqb_eq in Hp. subst m. reflexivity.
Qed.

Lemma nonws_le_mono (r : regex) :
  forall n m, n <= m -> nonws_le r n -> nonws_le r m.
Proof.
  induction r as [ | p | r1 IH1 r2 IH2 | r1 IH1 r2 IH2 | g r IH | k r IH
                 | | | ]; intros n m Hle H; simpl in *; auto.
  - destruct H; [left; lia | right; assumption].
  - destruct H as (n1 & n2 & Hs & H1 & H2). exists n1, n2.
    split; [lia | auto].
  - destruct H. split; eauto.
  - eauto.
Qed.

Lemma nonws_le_seq (r1 r2 : regex) (n1 n2 : nat) :
  nonws_le r1 n1 -> nonws_le r2 n2 -> nonws_le (Seq r1 r2) (n1 + n2).
Proof. intros H1 H2. simpl. exists n1, n2. auto. Qed.

Lemma nonws_le_chr (p : char -> bool) : nonws_le (Chr p) 1.
Proof. simpl. left. lia. Qed.

Lemma nonws_le_space : nonws_le space 0.
Proof. simpl. right. auto. Qed.

Lemma nonws_le_plus_space : nonws_le (plus space) 0.
Proof. apply (nonws_le_seq space (Star true space) 0 0); apply nonws_le_space. Qed.

Lemma nonws_le_digit4 : nonws_le digit4 4.
Proof.
  apply (nonws_le_seq digit _ 1 3); [apply nonws_le_chr|].
  apply (nonws_le_seq digit _ 1 2); [apply nonws_le_chr|].
  apply (nonws_le_seq digit _ 1 1); apply nonws_le_chr.
Qed.

Lemma nonws_le_opt_chr (p : char -> bool) : nonws_le (opt (Chr p)) 1.
Proof. simpl. split; [left; lia | exact I]. Qed.

Lemma tail_en_nonws : nonws_le tail_en 14.
Proof.
  apply (nonws_le_seq (plus space) _ 0 14); [apply nonws_le_plus_space|].
  apply (nonws_le_seq be_marker _ 4 10).
  { apply (nonws_le_seq _ _ 1 3); [apply nonws_le_chr|].
    apply (nonws_le_seq _ _ 1 2); [apply nonws_le_opt_chr|].
    apply (nonws_le_seq _ _ 1 1); [apply nonws_le_chr|].
    apply nonws_le_opt_chr. }
  apply (nonws_le_seq (star space) _ 0 10); [apply nonws_le_space|].
  apply (nonws_le_seq (Group 3 digit4) _ 4 6); [apply nonws_le_digit4|].
  apply (nonws_le_seq paren_year Eol 6 0); [|exact I].
  split; [|exact I].
  apply (nonws_le_seq (star space) _ 0 6); [apply nonws_le_space|].
  apply (nonws_le_seq _ _ 1 5); [apply nonws_le_chr|].
  apply (nonws_le_seq digit4 _ 4 1); [apply nonws_le_digit4|].
  apply nonws_le_chr.
Qed.

Lemma tail_th_nonws : nonws_le tail_th 8.
Proof.
  apply (nonws_le_seq (plus space) _ 0 8); [apply nonws_le_plus_space|].
  apply (nonws_le_seq (text "พ.ศ.") _ 4 4).
  { apply (nonws_le_seq _ _ 1 3); [apply nonws_le_chr|].
    apply (nonws_le_seq _ _ 1 2); [apply nonws_le_chr|].
    apply (nonws_le_seq _ _ 1 1); apply nonws_le_chr. }
  apply (nonws_le_seq (star space) _ 0 4); [apply nonws_le_space|].
  apply (nonws_le_seq (Group 3 digit4) Eol 4 0);
    [apply nonws_le_digit4 | exact I].
Qed.

Lemma count_nonws_cons (a : char) (w : str) :
  count_nonws (a :: w)
  = (if is_ws a then 0 else 1) + count_nonws w.
Proof. unfold count_nonws. simpl. destruct (is_ws a); reflexivity. Qed.

Lemma count_nonws_pos (v : str) (x : char) :
  In x v -> is_ws x = false -> 1 <= count_nonws v.
Proof.
  intros Hin Hx. apply in_split in Hin as (v1 & v2 & ->).
  rewrite count_nonws_app, count_nonws_cons, Hx. lia.
Qed.

(** A tail pattern cannot read more than it can hold: with more text in
    front of a complete tail, it does not match. *)
Lemma tail_too_long (K : regex) (n : nat) (v T l : str) (c : caps) (x : char) :
  ends_with_eol K = true -> nonws_le K n ->
  In x v -> is_ws x = false -> n <= count_nonws T ->
  rmatch K l (v ++ T) c accept = None.
Proof.
  intros He Hn Hin Hx HT.
  destruct (rmatch K l (v ++ T) c accept) as [res|] eqn:E; [|reflexivity].
  exfalso. apply rmatch_sound in E as (l' & s' & c' & D & _).
  pose proof (den_ends K He _ _ _ _ _ _ D). subst s'.
  pose proof (den_nonws K n _ _ _ _ _ _ (v ++ T) Hn D
                ltac:(rewrite app_nil_r; reflexivity)) as Hc.
  rewrite count_nonws_app in Hc.
  pose proof (count_nonws_pos v x Hin Hx). lia.
Qed.

Lemma leads_digit4 (l s' : str) (c : caps) (a b d e : char) :
  is_digit a = true -> is_digit b = true ->
  is_digit d = true -> is_digit e = true ->
  leads digit4 l [a; b; d; e] s' c c.
Proof.
  intros Ha Hb Hd He k res H. unfold digit4, digit. simpl.
  rewrite Ha, Hb, Hd, He. exact H.
Qed.

Lemma not_ws_next (a : char) (s : str) :
  is_ws a = false ->
  match a :: s with [] => True | x :: _ => is_ws x = false end.
Proof. auto. Qed.

Lemma be_marker_leads (l s' : str) (c : caps) :
  leads be_marker l (lit "B.E.") s' c c.
Proof.
  change be_marker with
    (Seq (chr_i 66%N) (Seq (opt (chr_i 46%N))
       (Seq (chr_i 69%N) (opt (chr_i 46%N))))).
  apply (leads_seq _ _ l [66%N] [46%N; 69%N; 46%N] s' c c c);
    [apply leads_chr_i|].
  apply (leads_seq _ _ _ [46%N] [69%N; 46%N] s' c c c);
    [apply leads_alt_l, leads_chr_i|].
  apply (leads_seq _ _ _ [69%N] [46%N] s' c c c); [apply leads_chr_i|].
  apply leads_alt_l, leads_chr_i.
Qed.

(** The tail of the foreign-language full form reads a complete tail. *)
Lemma tail_en_leads (l : str) (c : caps) (y1 y2 y3 y4 c1 c2 c3 c4 : char) :
  is_digit y1 = true -> is_digit y2 = true ->
  is_digit y3 = true -> is_digit y4 = true ->
  is_digit c1 = true -> is_digit c2 = true ->
  is_digit c3 = true -> is_digit c4 = true ->
  leads tail_en l
    (lit " " ++ lit "B.E." ++ lit " " ++ [y1; y2; y3; y4]
     ++ (lit " " ++ lit "(" ++ [c1; c2; c3; c4] ++ lit ")") ++ [])
    [] c ((3, [y1; y2; y3; y4]) :: c).
Proof.
  intros Hy1 Hy2 Hy3 Hy4 Hc1 Hc2 Hc3 Hc4.
  change tail_en with
    (Seq (plus space) (Seq be_marker (Seq (star space)
       (Seq (Group 3 digit4) (Seq paren_year Eol))))).
  apply leads_seq with (c1 := c).
  { apply leads_plus_class; [repeat constructor | reflexivity]. }
  apply leads_seq with (c1 := c).
  { apply be_marker_leads. }
  apply leads_seq with (c1 := c).
  { apply leads_star_class; [repeat constructor|].
    exact (digit_not_ws y1 Hy1). }
  apply leads_seq with (c1 := (3, [y1; y2; y3; y4]) :: c).
  { apply leads_group, leads_digit4; assumption. }
  apply leads_seq with (c1 := (3, [y1; y2; y3; y4]) :: c).
  { apply leads_alt_l.
    change (seqs [star space; text "("; digit4; text ")"])
      with (Seq (star space) (Seq (chr 40%N) (Seq digit4 (chr 41%N)))).
    apply (leads_seq (star space) _ _ (lit " ")
             (lit "(" ++ [c1; c2; c3; c4] ++ lit ")")) with (c1 := (3, [y1; y2; y3; y4]) :: c).
    { apply leads_star_class; [repeat constructor | reflexivity]. }
    apply (leads_seq (chr 40%N) _ _ (lit "(") ([c1; c2; c3; c4] ++ lit ")"))
      with (c1 := (3, [y1; y2; y3; y4]) :: c).
    { apply leads_chr. reflexivity. }
    apply (leads_seq digit4 _ _ [c1; c2; c3; c4] (lit ")"))
      with (c1 := (3, [y1; y2; y3; y4]) :: c).
    { apply leads_digit4; assumption. }
    apply leads_chr. reflexivity. }
  apply leads_eol.
Qed.

Lemma tail_th_leads (l : str) (c : caps) (y1 y2 y3 y4 : char) :
  is_digit y1 = true -> is_digit y2 = true ->
  is_digit y3 = true -> is_digit y4 = true ->
  leads tail_th l
    (lit " " ++ lit "พ.ศ." ++ lit " " ++ [y1; y2; y3; y4] ++ [])
    [] c ((3, [y1; y2; y3; y4]) :: c).
Proof.
  intros Hy1 Hy2 Hy3 Hy4.
  change tail_th with
    (Seq (plus space) (Seq (text "พ.ศ.") (Seq (star space)
       (Seq (Group 3 digit4) Eol)))).
  apply leads_seq with (c1 := c).
  { apply leads_plus_class; [repeat constructor | reflexivity]. }
  apply leads_seq with (c1 := c).
  { apply (leads_text (lit "พ.ศ.")). discriminate. }
  apply leads_seq with (c1 := c).
  { apply leads_star_class; [repeat constructor|].
    exact (digit_not_ws y1 Hy1). }
  apply leads_seq with (c1 := (3, [y1; y2; y3; y4]) :: c).
  { apply leads_group, leads_digit4; assumption. }
  apply leads_eol.
Qed.

Lemma count_nonws_digits (y1 y2 y3 y4 : char) :
  is_digit y1 = true -> is_digit y2 = true ->
  is_digit y3 = true -> is_digit y4 = true ->
  count_nonws [y1; y2; y3; y4] = 4.
Proof.
  intros H1 H2 H3 H4. rewrite !count_nonws_cons.
  rewrite !digit_not_ws by assumption. reflexivity.
Qed.

(** The last code unit of a string lies in each of its non-empty
    suffixes. *)
Lemma last_in_suffix (t v0 u v : str) (b : char) :
  t = v0 ++ [b] -> t = u ++ v -> v <> [] -> In b v.
Proof.
  intros E1 E2 Hv. destruct (exists_last Hv) as (v' & x & ->).
  rewrite E1, app_assoc in E2. apply app_inj_tail in E2 as [_ ->].
  apply in_or_app. right. left. reflexivity.
Qed.

(** The text [formatCitation] builds for [full_en] is matched by
    [ENGLISH_BE_CITATION], which captures the pinpoint, the title and the
    local-epoch year it was built from. *)
Lemma reparse_en (pin t : str) (a b : char) (u v0 : str)
    (y1 y2 y3 y4 c1 c2 c3 c4 : char) :
  pin_shape pin ->
  t = a :: u -> is_ws a = false ->
  t = v0 ++ [b] -> is_ws b = false ->
  Forall (fun x => negb (is_line_terminator x) = true) t ->
  is_digit y1 = true -> is_digit y2 = true ->
  is_digit y3 = true -> is_digit y4 = true ->
  is_digit c1 = true -> is_digit c2 = true ->
  is_digit c3 = true -> is_digit c4 = true ->
  re_match ENGLISH_BE_CITATION
    (lit "Section " ++ pin ++ lit ", " ++ t ++ lit " B.E. "
     ++ [y1; y2; y3; y4] ++ lit " (" ++ [c1; c2; c3; c4] ++ lit ")")
  = Some [(3, [y1; y2; y3; y4]); (2, t); (1, pin)].
Proof.
  intros Hpin Et Ha Et' Hb Hdot Hy1 Hy2 Hy3 Hy4 Hc1 Hc2 Hc3 Hc4.
  change ENGLISH_BE_CITATION with
    (Seq Bol (Seq marker_en (Seq (plus space) (Seq (Group 1 pinpoint_re)
       (Seq (star space) (Seq (opt (chr_i 44%N)) (Seq (plus space)
          (Seq (Group 2 (plus_lazy dot)) tail_en)))))))).
  rewrite re_match_anchored.
  set (T := lit " " ++ lit "B.E." ++ lit " " ++ [y1; y2; y3; y4]
            ++ (lit " " ++ lit "(" ++ [c1; c2; c3; c4] ++ lit ")") ++ []).
  change (lit "Section " ++ pin ++ lit ", " ++ t ++ lit " B.E. "
          ++ [y1; y2; y3; y4] ++ lit " (" ++ [c1; c2; c3; c4] ++ lit ")")
    with (lit "Section" ++ (lit " " ++ (pin ++ ([] ++ (lit "," ++
            (lit " " ++ (t ++ T))))))).
  destruct (pin_shape_head pin Hpin) as (p0 & pr & Epin & Hp0).
  apply step_seq with (c1 := []).
  { apply leads_alt_l. apply (leads_text_i (lit "Section")). discriminate. }
  apply step_seq with (c1 := []).
  { apply leads_plus_class; [repeat constructor|].
    rewrite Epin. exact (digit_not_ws p0 Hp0). }
  apply step_seq with (c1 := [(1, pin)]).
  { apply leads_group, pin_shape_leads; [exact Hpin | reflexivity]. }
  apply step_seq with (c1 := [(1, pin)]).
  { apply leads_star_class; [constructor | reflexivity]. }
  apply step_seq with (c1 := [(1, pin)]).
  { apply leads_alt_l, leads_chr_i. }
  apply step_seq with (c1 := [(1, pin)]).
  { apply leads_plus_class; [repeat constructor|].
    rewrite Et. exact Ha. }
  rewrite Et. apply step_lazy_group.
  - rewrite <- Et. exact Hdot.
  - intros x v c' Eu Hv.
    apply (tail_too_long tail_en 14 v T _ c' b);
      [reflexivity | apply tail_en_nonws | | exact Hb |].
    + apply (last_in_suffix t v0 (a :: x) v b); auto.
      rewrite Et, Eu. reflexivity.
    + unfold T. rewrite !count_nonws_app.
      rewrite !count_nonws_digits by assumption. simpl. lia.
  - rewrite <- Et.
    apply (tail_en_leads _ _ y1 y2 y3 y4 c1 c2 c3 c4); auto.
Qed.

(** The same for [full_th] and [THAI_CITATION]. *)
Lemma reparse_th (pin t : str) (a b : char) (u v0 : str)
    (y1 y2 y3 y4 : char) :
  pin_shape pin ->
  t = a :: u -> is_ws a = false ->
  t = v0 ++ [b] -> is_ws b = false ->
  Forall (fun x => negb (is_line_terminator x) = true) t ->
  is_digit y1 = true -> is_digit y2 = true ->
  is_digit y3 = true -> is_digit y4 = true ->
  re_match THAI_CITATION
    (lit "มาตรา " ++ pin ++ lit " " ++ t ++ lit " พ.ศ. "
     ++ [y1; y2; y3; y4])
  = Some [(3, [y1; y2; y3; y4]); (2, t); (1, pin)].
Proof.
  intros Hpin Et Ha Et' Hb Hdot Hy1 Hy2 Hy3 Hy4.
  change THAI_CITATION with
    (Seq Bol (Seq (text "มาตรา") (Seq (plus space) (Seq (Group 1 pinpoint_re)
       (Seq (plus space) (Seq (Group 2 (plus_lazy dot)) tail_th)))))).
  rewrite re_match_anchored.
  set (T := lit " " ++ lit "พ.ศ." ++ lit " " ++ [y1; y2; y3; y4] ++ []).
  change (lit "มาตรา " ++ pin ++ lit " " ++ t ++ lit " พ.ศ. "
          ++ [y1; y2; y3; y4])
    with (lit "มาตรา" ++ (lit " " ++ (pin ++ (lit " " ++ (t ++ T))))).
  destruct (pin_shape_head pin Hpin) as (p0 & pr & Epin & Hp0).
  apply step_seq with (c1 := []).
  { apply (leads_text (lit "มาตรา")). discriminate. }
  apply step_seq with (c1 := []).
  { apply leads_plus_class; [repeat constructor|].
    rewrite Epin. exact (digit_not_ws p0 Hp0). }
  apply step_seq with (c1 := [(1, pin)]).
  { apply leads_group, pin_shape_leads; [exact Hpin | reflexivity]. }
  apply step_seq with (c1 := [(1, pin)]).
  { apply leads_plus_class; [repeat constructor|].
    rewrite Et. exact Ha. }
  rewrite Et. apply step_lazy_group.
  - rewrite <- Et. exact Hdot.
  - intros x v c' Eu Hv.
    apply (tail_too_long tail_th 8 v T _ c' b);
      [reflexivity | apply tail_th_nonws | | exact Hb |].
    + apply (last_in_suffix t v0 (a :: x) v b); auto.
      rewrite Et, Eu. reflexivity.
    + unfold T. rewrite !count_nonws_app.
      rewrite !count_nonws_digits by assumption. simpl. lia.
  - rewrite <- Et.
    apply (tail_th_leads _ _ y1 y2 y3 y4); auto.
Qed.

End RoundTripFacts.

Import RoundTrip RoundTripFacts.

(** The title a year-bearing grammar hands over holds no line
    terminator. *)
Lemma title_capture_chars (g : grammar) (t : str) (m : caps) :
  has_year g = true ->
  re_match (grammar_re g) t = Some m ->
  Forall (fun x => dot_char x = true) (group m (title_group g)).
Proof.
  intros Hy H.
  destruct (re_match_sets _ _ _ _ (grammar_sets_title g) H) as (w & Hw).
  unfold group. rewrite Hw.
  destruct (re_match_captured _ _ _ _ _ H Hw)
    as (r' & la & sa & ca & lb & sb & cb & pre & Hin & Hd & -> & _).
  rewrite groups_of_grammar in Hin.
  apply (title_group_body _ _ Hy) in Hin. subst r'.
  eapply den_chars; [|exact Hd | reflexivity].
  unfold plus_lazy, dot, dot_char. simpl. auto.
Qed.

Lemma assoc_value (key : str) (tbl : list (str * str)) (v : str) :
  assoc key tbl = Some v -> In v (map snd tbl).
Proof.
  induction tbl as [|[k x] tbl IH]; simpl; [discriminate|].
  destruct (str_eqb k key); [intros H; inversion H; auto | auto].
Qed.

Lemma first_included_value (tt : str) (tbl : list (str * str)) (v : str) :
  first_included tt tbl = Some v -> In v (map snd tbl).
Proof.
  induction tbl as [|[k x] tbl IH]; simpl; [discriminate|].
  destruct (includes tt k); [intros H; inversion H; auto | auto].
Qed.

Lemma table_titles_chars :
  Forall (fun v => Forall (fun x => dot_char x = true) v)
    (map snd ABBREVIATION_MAP ++ map snd THAI_SHORT_MAP).
Proof.
  assert (H : forallb (forallb dot_char)
                (map snd ABBREVIATION_MAP ++ map snd THAI_SHORT_MAP) = true)
    by (vm_compute; reflexivity).
  rewrite forallb_forall in H. apply Forall_forall. intros v Hv.
  apply Forall_forall. intros x Hx.
  specialize (H v Hv). rewrite forallb_forall in H. auto.
Qed.

Lemma title_value_chars (g : grammar) (t : str) (m : caps) (t0 : str) :
  has_year g = true ->
  re_match (grammar_re g) t = Some m ->
  title_value g m = PStr t0 ->
  Forall (fun x => dot_char x = true) t0.
Proof.
  intros Hy H Ht.
  pose proof (title_capture_chars g t m Hy H) as Hc.
  pose proof table_titles_chars as Htab. rewrite Forall_forall in Htab.
  destruct g; simpl in Ht, Hc; try discriminate;
    try (inversion Ht; subst; exact Hc).
  - destruct (resolveThaiTitle (trim (group m 2))) as [v|] eqn:E;
      inversion Ht; subst.
    + apply Htab. apply in_or_app. right.
      eapply first_included_value. exact E.
    + apply trim_Forall. exact Hc.
  - unfold resolveAbbreviation, get_property in Ht.
    destruct (assoc (toLowerCase (trim (group m 2))) ABBREVIATION_MAP)
      as [v|] eqn:E.
    + inversion Ht; subst. apply Htab. apply in_or_app. left.
      eapply assoc_value. exact E.
    + destruct (existsb _ object_prototype_names); inversion Ht; subst.
      apply trim_Forall. exact Hc.
Qed.

(** The pinpoint of a parsed citation is the fragment it was parsed
    from. *)
Lemma buildPinpoint_parseSection (frag : str) (ttl : prop_value)
    (be ce : num) (ty : citation_type) (p : ParsedCitation) :
  pin_shape frag ->
  parseSection frag ttl be ce ty = Ok p ->
  buildPinpoint p = frag /\ truthy (section p) = true.
Proof.
  intros Hs H. apply parseSection_pinpoint in H as (H & _).
  unfold buildPinpoint.
  destruct (re_match SECTION_REF frag) as [sm|] eqn:E.
  - destruct H as (H1 & H2 & H3). rewrite H1, H2, H3.
    destruct (section_ref_rebuild frag sm E) as (Hf & Hne & Hn2 & Hn3).
    split.
    + rewrite <- Hf. clear Hf.
      destruct (cap 2 sm) as [[|x2 w2]|];
        try (exfalso; apply (Hn2 [] eq_refl); reflexivity);
        destruct (cap 3 sm) as [[|x3 w3]|];
        try (exfalso; apply (Hn3 [] eq_refl); reflexivity);
        simpl; rewrite <- ?app_assoc, ?app_nil_r; simpl;
        rewrite <- ?app_assoc; reflexivity.
    + simpl. destruct (group sm 1); [congruence | reflexivity].
  - destruct H as (H1 & H2 & H3). rewrite H1, H2, H3. simpl.
    split; [reflexivity|].
    destruct frag; [|reflexivity].
    exfalso. exact (pin_shape_nonempty [] Hs eq_refl).
Qed.

Lemma trim_between (a b : char) (x : str) :
  is_ws a = false -> is_ws b = false ->
  trim (a :: x ++ [b]) = a :: x ++ [b].
Proof.
  intros Ha Hb. apply trim_fixed. right.
  exists a, (x ++ [b]), b. split; [auto|]. exists (a :: x). auto.
Qed.

Lemma formatCitation_full_en (p : ParsedCitation) :
  valid p = true -> truthy (section p) = true ->
  formatCitation p full_en = full_en_template p (buildPinpoint p).
Proof.
  intros Hv Hs. unfold formatCitation, full_en. rewrite Hv, Hs. reflexivity.
Qed.

Lemma formatCitation_full_th (p : ParsedCitation) :
  valid p = true -> truthy (section p) = true ->
  formatCitation p full_th
  = trim (lit "มาตรา " ++ buildPinpoint p ++ lit " "
          ++ str_or_empty (title p) ++ lit " พ.ศ. "
          ++ num_or_empty (be_year p)).
Proof.
  intros Hv Hs. unfold formatCitation, full_th. rewrite Hv, Hs. reflexivity.
Qed.

Lemma parseSection_trim (frag t0 : str) (be ce : num) (ty : citation_type) :
  parseSection frag (PStr (trim t0)) be ce ty
  = parseSection frag (PStr t0) be ce ty.
Proof. unfold parseSection. rewrite trim_idempotent. reflexivity. Qed.

Lemma thai_rejects_latin (x : str) :
  re_match THAI_CITATION (lit "S" ++ x) = None.
Proof.
  change THAI_CITATION with
    (Seq Bol (Seq (text "มาตรา") (Seq (plus space) (Seq (Group 1 pinpoint_re)
       (Seq (plus space) (Seq (Group 2 (plus_lazy dot)) tail_th)))))).
  rewrite re_match_anchored. reflexivity.
Qed.

(** What a successful parse with years looks like: the grammar, the
    pinpoint fragment and the title it was built from. *)
Lemma parsed_with_years (s : str) (p : ParsedCitation) (b e : Z) :
  parseCitation s = Ok p ->
  be_year p = Some (Int b) -> ce_year p = Some (Int e) ->
  exists frag t0,
    pin_shape frag /\
    Forall (fun x => dot_char x = true) t0 /\
    parseSection frag (PStr t0) (Int b) (Int e) statute = Ok p /\
    e = (b - 543)%Z /\ (b <= 9999)%Z.
Proof.
  intros H Hb He. rewrite parseCitation_classify in H.
  destruct (classify (trim s)) as [[g m]|] eqn:C;
    [|inversion H; subst; discriminate].
  apply classify_re in C.
  assert (Hg : has_year g = true).
  { destruct g; try reflexivity. inversion H; subst. discriminate. }
  assert (HS : parseSection (group m (pin_group g)) (title_value g m)
                 (be_value g m) (ce_value g m) statute = Ok p).
  { destruct g; try exact H. discriminate. }
  clear H.
  destruct (pin_capture_den g _ m C) as (la & ca & lb & sb & cb & Hd).
  apply den_pin_shape in Hd.
  destruct (title_value g m) as [t0|] eqn:Etv; [|discriminate].
  pose proof (title_value_chars g _ m t0 Hg C Etv) as Hch.
  destruct (grammar_years g _ m Hg C) as (y & _ & Hy & Eb & Ec).
  pose proof (parseSection_fields _ _ _ _ _ _ HS) as (_ & Hb' & He' & _).
  rewrite Eb, Hb in Hb'. rewrite Ec, He in He'. rewrite Eb, Ec in HS.
  assert (Hb'' : b = if ambiguous_year g && negb (2400 <? y)%Z
                     then (y + 543)%Z else y) by congruence.
  assert (He'' : e = if ambiguous_year g && negb (2400 <? y)%Z
                     then y else (y - 543)%Z) by congruence.
  rewrite <- Hb'', <- He'' in HS.
  exists (group m (pin_group g)), t0.
  split; [exact Hd|]. split; [exact Hch|]. split; [exact HS|].
  destruct (ambiguous_year g && negb (2400 <? y)%Z) eqn:Ea.
  - apply andb_true_iff in Ea as [_ Ea]. apply negb_true_iff in Ea.
    apply Z.ltb_ge in Ea. lia.
  - lia.
Qed.

(** Parsing the [full_en] text of a parsed citation gives the citation
    back. *)
Lemma parse_formatted_en (s : str) (p : ParsedCitation) (b e : Z) (t : str) :
  parseCitation s = Ok p ->
  be_year p = Some (Int b) -> ce_year p = Some (Int e) ->
  title p = Some t -> t <> [] -> (1000 <= e)%Z ->
  parseCitation (formatCitation p full_en) = Ok p.
Proof.
  intros H Hb He Ht Hne Hy.
  destruct (parsed_with_years s p b e H Hb He)
    as (frag & t0 & Hshape & Hch & HS & Ee & Hb9).
  pose proof (parseSection_fields _ _ _ _ _ _ HS)
    as (Hv & _ & _ & t1 & Et1 & Htt).
  inversion Et1; subst t1. rewrite Ht in Htt. inversion Htt as [Htrim].
  destruct (buildPinpoint_parseSection _ _ _ _ _ _ Hshape HS) as (Hpin & Hsec).
  rewrite (formatCitation_full_en p Hv Hsec). unfold full_en_template.
  rewrite Hpin, Ht, Hb, He. cbn [str_or_empty num_or_empty].
  destruct (year_roundtrip b ltac:(lia))
    as (y1 & y2 & y3 & y4 & Eb & Hy1 & Hy2 & Hy3 & Hy4 & Pb).
  destruct (year_roundtrip e ltac:(lia))
    as (c1 & c2 & c3 & c4 & Ec & Hc1 & Hc2 & Hc3 & Hc4 & _).
  rewrite Eb, Ec.
  set (F := lit "Section " ++ frag ++ lit ", " ++ t ++ lit " B.E. "
            ++ [y1; y2; y3; y4] ++ lit " (" ++ [c1; c2; c3; c4] ++ lit ")").
  assert (HF : trim F = F).
  { unfold F.
    change (lit "Section " ++ frag ++ lit ", " ++ t ++ lit " B.E. "
            ++ [y1; y2; y3; y4] ++ lit " (" ++ [c1; c2; c3; c4] ++ lit ")")
      with (83%N :: (lit "ection " ++ frag ++ lit ", " ++ t ++ lit " B.E. "
            ++ [y1; y2; y3; y4] ++ lit " (" ++ [c1; c2; c3; c4] ++ lit ")")).
    rewrite !app_assoc. apply trim_between; reflexivity. }
  rewrite HF. unfold parseCitation. rewrite HF.
  assert (HT : re_match THAI_CITATION F = None) by apply thai_rejects_latin.
  rewrite HT.
  destruct (trim_ends t0) as [E0|(a & u & z & (Ea & Ha) & (v0 & Ez & Hz))];
    [congruence|].
  rewrite <- Htrim in Ea, Ez.
  assert (HE : re_match ENGLISH_BE_CITATION F
               = Some [(3, [y1; y2; y3; y4]); (2, t); (1, frag)]).
  { apply (reparse_en frag t a z u v0); auto.
    rewrite Htrim. apply trim_Forall. exact Hch. }
  rewrite HE.
  change (group [(3, [y1; y2; y3; y4]); (2, t); (1, frag)] 3)
    with [y1; y2; y3; y4].
  change (group [(3, [y1; y2; y3; y4]); (2, t); (1, frag)] 2) with t.
  change (group [(3, [y1; y2; y3; y4]); (2, t); (1, frag)] 1) with frag.
  rewrite Pb. simpl num_sub. rewrite Htrim, parseSection_trim, <- Ee.
  exact HS.
Qed.

(** Parsing the [full_th] text of a parsed citation gives the citation
    back, when the title holds no known Thai short name. *)
Lemma parse_formatted_th (s : str) (p : ParsedCitation) (b e : Z) (t : str) :
  parseCitation s = Ok p ->
  be_year p = Some (Int b) -> ce_year p = Some (Int e) ->
  title p = Some t -> t <> [] -> (1000 <= b)%Z ->
  resolveThaiTitle t = None ->
  parseCitation (formatCitation p full_th) = Ok p.
Proof.
  intros H Hb He Ht Hne Hy Hres.
  destruct (parsed_with_years s p b e H Hb He)
    as (frag & t0 & Hshape & Hch & HS & Ee & Hb9).
  pose proof (parseSection_fields _ _ _ _ _ _ HS)
    as (Hv & _ & _ & t1 & Et1 & Htt).
  inversion Et1; subst t1. rewrite Ht in Htt. inversion Htt as [Htrim].
  destruct (buildPinpoint_parseSection _ _ _ _ _ _ Hshape HS) as (Hpin & Hsec).
  rewrite (formatCitation_full_th p Hv Hsec).
  rewrite Hpin, Ht, Hb. cbn [str_or_empty num_or_empty].
  destruct (year_roundtrip b ltac:(lia))
    as (y1 & y2 & y3 & y4 & Eb & Hy1 & Hy2 & Hy3 & Hy4 & Pb).
  rewrite Eb.
  set (F := lit "มาตรา " ++ frag ++ lit " " ++ t ++ lit " พ.ศ. "
            ++ [y1; y2; y3; y4]).
  assert (HF : trim F = F).
  { unfold F.
    change (lit "มาตรา " ++ frag ++ lit " " ++ t ++ lit " พ.ศ. "
            ++ [y1; y2; y3; y4])
      with (3617%N :: (lit "าตรา " ++ frag ++ lit " " ++ t ++ lit " พ.ศ. "
            ++ [y1; y2; y3] ++ [y4])).
    rewrite !app_assoc.
    apply trim_between; [reflexivity | exact (digit_not_ws y4 Hy4)]. }
  rewrite HF. unfold parseCitation. rewrite HF.
  destruct (trim_ends t0) as [E0|(a & u & z & (Ea & Ha) & (v0 & Ez & Hz))];
    [congruence|].
  rewrite <- Htrim in Ea, Ez.
  assert (HE : re_match THAI_CITATION F
               = Some [(3, [y1; y2; y3; y4]); (2, t); (1, frag)]).
  { apply (reparse_th frag t a z u v0); auto.
    rewrite Htrim. apply trim_Forall. exact Hch. }
  rewrite HE.
  change (group [(3, [y1; y2; y3; y4]); (2, t); (1, frag)] 3)
    with [y1; y2; y3; y4].
  change (group [(3, [y1; y2; y3; y4]); (2, t); (1, frag)] 2) with t.
  change (group [(3, [y1; y2; y3; y4]); (2, t); (1, frag)] 1) with frag.
  rewrite Pb. simpl num_sub.
  assert (Htt' : trim t = t) by (rewrite Htrim; apply trim_idempotent).
  rewrite Htt', Hres. rewrite Htrim, parseSection_trim, <- Ee.
  exact HS.
Qed.

(** C3, as the code supports it: for [full_en] and [full_th], formatting a
    parsed citation, parsing the text and formatting again gives the first
    text back, for every string parsed through a grammar with a year, with a
    title that is not empty and a year that prints with four digits
    ([ce_year] at least 1000 for [full_en], [be_year] at least 1000 for
    [full_th]), and, for [full_th], with a title that holds none of the known
    Thai short names.  Parsing the text then gives the very citation it was
    formatted from. *)
Theorem reformat_idempotent (s : str) (p : ParsedCitation) (b e : Z)
    (t : str) :
  parseCitation s = Ok p -> valid p = true ->
  be_year p = Some (Int b) -> ce_year p = Some (Int e) ->
  title p = Some t -> t <> [] ->
  ((1000 <= e)%Z ->
     parseCitation (formatCitation p full_en) = Ok p /\
     reformat p full_en = Ok (formatCitation p full_en)) /\
  ((1000 <= b)%Z -> resolveThaiTitle t = None ->
     parseCitation (formatCitation p full_th) = Ok p /\
     reformat p full_th = Ok (formatCitation p full_th)).
Proof.
  intros H _ Hb He Ht Hne. split.
  - intros Hy. pose proof (parse_formatted_en s p b e t H Hb He Ht Hne Hy) as R.
    split; [exact R|]. unfold reformat. rewrite R. reflexivity.
  - intros Hy Hres.
    pose proof (parse_formatted_th s p b e t H Hb He Ht Hne Hy Hres) as R.
    split; [exact R|]. unfold reformat. rewrite R. reflexivity.
Qed.

Lemma reformat_idempotent_witness :
  exists p,
    parseCitation
      (lit "s. 3(1), Personal Data Protection Act B.E. 2562 (2019)") = Ok p /\
    formatCitation p full_en
      = lit "Section 3(1), Personal Data Protection Act B.E. 2562 (2019)" /\
    reformat p full_en = Ok (formatCitation p full_en) /\
    reformat p full_th = Ok (formatCitation p full_th).
Proof.
  eexists. split; [vm_compute; reflexivity|].
  split; [vm_compute; reflexivity|].
  match goal with
  | |- reformat ?p _ = _ /\ _ =>
    pose proof (reformat_idempotent
      (lit "s. 3(1), Personal Data Protection Act B.E. 2562 (2019)") p
      2562 2019 (lit "Personal Data Protection Act")
      ltac:(vm_compute; reflexivity) eq_refl eq_refl eq_refl eq_refl
      ltac:(discriminate)) as [Hen Hth]
  end.
  split.
  - apply Hen. lia.
  - apply Hth; [lia | vm_compute; reflexivity].
Defined.

(** C3 as stated fails: a citation in the bare-identifier form has no year,
    one with a year below 1000 prints it with fewer than four digits, one
    with a blank title prints none, and a Thai short name in the title is
    replaced when the [full_th] text is parsed; in each case the title is
    free of year and section markers, the parse succeeds, and formatting
    the parse of the formatted text gives another text. *)
Lemma reformat_counterexample :
  (exists p,
     parseCitation (lit "abc, s. 3") = Ok p /\ valid p = true /\
     title p = Some (lit "abc") /\ marker_free (lit "abc") = true /\
     formatCitation p full_en = lit "Section 3, abc B.E.  ()" /\
     reformat p full_en = Ok [] /\
     reformat p full_en <> Ok (formatCitation p full_en) /\
     reformat p full_th <> Ok (formatCitation p full_th)) /\
  (exists p,
     parseCitation (lit "Section 3, Foo B.E. 0999") = Ok p /\
     valid p = true /\
     title p = Some (lit "Foo") /\ marker_free (lit "Foo") = true /\
     formatCitation p full_en = lit "Section 3, Foo B.E. 999 (456)" /\
     reformat p full_en <> Ok (formatCitation p full_en) /\
     reformat p full_th <> Ok (formatCitation p full_th)) /\
  (exists p,
     parseCitation (lit "Section 3,    B.E. 2562") = Ok p /\
     valid p = true /\
     title p = Some [] /\ marker_free [] = true /\
     reformat p full_en <> Ok (formatCitation p full_en) /\
     reformat p full_th <> Ok (formatCitation p full_th)) /\
  (exists p,
     parseCitation (lit "Section 3, พ.ร.บ.คุ้มครองข้อมูลส่วนบุคคล B.E. 2562")
       = Ok p /\
     valid p = true /\
     title p = Some (lit "พ.ร.บ.คุ้มครองข้อมูลส่วนบุคคล") /\
     marker_free (lit "พ.ร.บ.คุ้มครองข้อมูลส่วนบุคคล") = true /\
     formatCitation p full_th
       = lit "มาตรา 3 พ.ร.บ.คุ้มครองข้อมูลส่วนบุคคล พ.ศ. 2562" /\
     reformat p full_th
       = Ok (lit "มาตรา 3 Personal Data Protection Act พ.ศ. 2562") /\
     reformat p full_th <> Ok (formatCitation p full_th)).
Proof.
  repeat split;
    try (eexists; repeat split;
         try (vm_compute; reflexivity); vm_compute; discriminate).
Qed.

(* ================================================================= *)
(** * Part III: further properties of the code *)
(* ================================================================= *)

(** ** The result of [parseCitation] *)

Lemma parseSection_type (sec : str) (ttl : prop_value) (be ce : num)
    (ty : citation_type) (p : ParsedCitation) :
  parseSection sec ttl be ce ty = Ok p ->
  type p = ty /\ abbreviation p = None.
Proof.
  unfold parseSection. destruct ttl as [t|]; [|discriminate].
  destruct (re_match SECTION_REF sec); intros H; inversion H; subst; simpl;
    auto.
Qed.

(** The section [parseSection] stores starts where the fragment starts. *)
Lemma parseSection_section_head (frag : str) (ttl : prop_value) (be ce : num)
    (ty : citation_type) (p : ParsedCitation) :
  pin_shape frag ->
  parseSection frag ttl be ce ty = Ok p ->
  exists a sec, section p = Some (a :: sec) /\ is_digit a = true.
Proof.
  intros Hs H. destruct (pin_shape_head frag Hs) as (a & r & Ef & Ha).
  apply parseSection_pinpoint in H as (H & _).
  destruct (re_match SECTION_REF frag) as [sm|] eqn:E.
  - destruct H as (H1 & _). rewrite H1.
    destruct (section_ref_rebuild frag sm E) as (Hf & Hne & _).
    destruct (group sm 1) as [|x w]; [congruence|].
    rewrite Ef in Hf. simpl in Hf. inversion Hf; subst. eauto.
  - destruct H as (H1 & _). rewrite H1, Ef. eauto.
Qed.

(** The fields of a valid and of an invalid result. *)
Lemma parsed_valid_fields (s : str) (p : ParsedCitation) :
  parseCitation s = Ok p -> valid p = true ->
  type p = statute /\ error p = None /\ abbreviation p = None /\
  (exists t, title p = Some t) /\
  exists a sec, section p = Some (a :: sec) /\ is_digit a = true.
Proof.
  rewrite parseCitation_classify.
  destruct (classify (trim s)) as [[g m]|] eqn:C.
  - apply classify_re in C.
    destruct (pin_capture_den g _ m C) as (la & ca & lb & sb & cb & Hd).
    apply den_pin_shape in Hd.
    assert (HS :
      parseSection (group m (pin_group g)) (title_value g m)
        (be_value g m) (ce_value g m) statute = Ok p ->
      type p = statute /\ error p = None /\
      abbreviation p = None /\ (exists t, title p = Some t) /\
      exists a sec, section p = Some (a :: sec) /\ is_digit a = true).
    { intros H.
      pose proof (parseSection_fields _ _ _ _ _ _ H) as (_ & _ & _ & t & _ & Ht).
      pose proof (parseSection_type _ _ _ _ _ _ H) as (Hty & Hab).
      pose proof (parseSection_pinpoint _ _ _ _ _ _ H) as (_ & He & _).
      pose proof (parseSection_section_head _ _ _ _ _ _ Hd H) as Hsec.
      repeat split; eauto. }
    destruct g; try (intros H _; apply HS; exact H).
    intros H _. inversion H; subst; simpl.
    destruct (pin_shape_head _ Hd) as (a & r & Ef & Ha).
    simpl in Ef. rewrite Ef. repeat split; eauto.
  - intros H. inversion H; subst. discriminate.
Qed.

Lemma parsed_invalid_fields (s : str) (p : ParsedCitation) :
  parseCitation s = Ok p -> valid p = false ->
  type p = unknown /\
  error p = Some (lit "Could not parse Thai citation: " ++ [dquote]
                  ++ trim s ++ [dquote]) /\
  title p = None /\ abbreviation p = None /\
  be_year p = None /\ ce_year p = None /\
  section p = None /\ subsection p = None /\ paragraph p = None.
Proof.
  rewrite parseCitation_classify.
  destruct (classify (trim s)) as [[g m]|] eqn:C.
  - destruct g;
      try (intros H Hv; apply parseSection_fields in H as (H & _);
           congruence).
    intros H. inversion H; subst. discriminate.
  - intros H _. inversion H; subst; simpl. repeat split; reflexivity.
Qed.

(** X1: a result of [parseCitation] is either valid, and then of type
    [statute] (never [royal_decree]), without error and abbreviation, with a
    title and with a section that starts with a digit; or invalid, and then
    of type [unknown], with the error message that quotes the trimmed input
    and with no other field. *)
Theorem parseCitation_result_shape (s : str) (p : ParsedCitation) :
  parseCitation s = Ok p ->
  (valid p = true /\ type p = statute /\ error p = None /\
   abbreviation p = None /\ (exists t, title p = Some t) /\
   exists a sec, section p = Some (a :: sec) /\ is_digit a = true) \/
  (valid p = false /\ type p = unknown /\
   error p = Some (lit "Could not parse Thai citation: " ++ [dquote]
                   ++ trim s ++ [dquote]) /\
   title p = None /\ abbreviation p = None /\
   be_year p = None /\ ce_year p = None /\
   section p = None /\ subsection p = None /\ paragraph p = None).
Proof.
  intros H. destruct (valid p) eqn:Hv.
  - left. split; [reflexivity|]. exact (parsed_valid_fields s p H Hv).
  - right. split; [reflexivity|]. exact (parsed_invalid_fields s p H Hv).
Qed.

Lemma parseCitation_result_shape_witness :
  exists p,
    parseCitation (lit "Personal Data Protection Act 2019, s. 19") = Ok p /\
    ((valid p = true /\ type p = statute /\ error p = None /\
      abbreviation p = None /\ (exists t, title p = Some t) /\
      exists a sec, section p = Some (a :: sec) /\ is_digit a = true) \/
     (valid p = false /\ type p = unknown /\
      error p = Some (lit "Could not parse Thai citation: " ++ [dquote]
                      ++ trim (lit "Personal Data Protection Act 2019, s. 19")
                      ++ [dquote]) /\
      title p = None /\ abbreviation p = None /\
      be_year p = None /\ ce_year p = None /\
      section p = None /\ subsection p = None /\ paragraph p = None)).
Proof.
  eexists. split; [vm_compute; reflexivity|].
  apply (parseCitation_result_shape
           (lit "Personal Data Protection Act 2019, s. 19")).
  vm_compute. reflexivity.
Defined.

(** ** When [parseCitation] raises *)

(** *** Lower-casing *)

Lemma lower_units_no_upper (c : char) :
  Forall (fun x => is_upper x = false) (lower_units c).
Proof.
  unfold lower_units. destruct (is_upper c) eqn:Eu.
  - constructor; [|constructor]. unfold is_upper in *.
    apply andb_true_iff in Eu as [H1 H2].
    apply N.leb_le in H1. apply N.leb_le in H2.
    apply andb_false_iff. right. apply N.leb_gt. lia.
  - destruct (c =? 304)%N; [repeat constructor|].
    destruct (c =? 8490)%N; [repeat constructor|].
    constructor; [exact Eu | constructor].
Qed.

Lemma toLowerCase_no_upper (s : str) :
  Forall (fun x => is_upper x = false) (toLowerCase s).
Proof.
  unfold toLowerCase. induction s as [|a s IH]; simpl; [constructor|].
  apply Forall_app. split; [apply lower_units_no_upper | exact IH].
Qed.

Lemma no_upper_forallb (s : str) :
  Forall (fun x => is_upper x = false) s ->
  forallb (fun x => negb (is_upper x)) s = true.
Proof.
  intros H. apply forallb_forall. rewrite Forall_forall in H.
  intros x Hx. rewrite (H x Hx). reflexivity.
Qed.

(** A lower-cased key names a member of [Object.prototype] that is not an
    own property of the abbreviation table exactly when it is [constructor]
    or [__proto__]: the other member names hold an upper-case letter. *)
Lemma inherited_keys (x : str) :
  resolveAbbreviation x = Some PInherited <->
  toLowerCase x = lit "constructor" \/ toLowerCase x = lit "__proto__".
Proof.
  unfold resolveAbbreviation, get_property.
  pose proof (no_upper_forallb _ (toLowerCase_no_upper x)) as Hl.
  split.
  - destruct (assoc (toLowerCase x) ABBREVIATION_MAP); [discriminate|].
    destruct (existsb (str_eqb (toLowerCase x)) object_prototype_names) eqn:E;
      [|discriminate].
    intros _. apply existsb_exists in E as (n & Hn & E).
    apply str_eqb_eq in E. rewrite E in Hl |- *. clear E.
    unfold object_prototype_names in Hn. simpl in Hn.
    repeat (destruct Hn as [<-|Hn];
            [first [left; reflexivity | right; reflexivity
                   | vm_compute in Hl; discriminate]|]).
    destruct Hn.
  - intros [E|E]; rewrite E; reflexivity.
Qed.

(** X2: [parseCitation] raises exactly when the short form is the first
    grammar to match and the lower-cased, trimmed abbreviation is
    [constructor] or [__proto__], the two lower-case member names of
    [Object.prototype]: the abbreviation table then yields a value that is
    no string, and [title.trim()] raises a TypeError.  No other input
    raises. *)
Theorem parseCitation_throws_iff (s : str) :
  ((exists msg, parseCitation s = Throw msg) <->
   (exists m, classify (trim s) = Some (Short, m) /\
      (toLowerCase (trim (group m 2)) = lit "constructor" \/
       toLowerCase (trim (group m 2)) = lit "__proto__"))) /\
  (forall msg, parseCitation s = Throw msg ->
     msg = "TypeError: title.trim is not a function"%string).
Proof.
  rewrite parseCitation_classify.
  assert (HS : forall g m,
    (g = Thai \/ g = EnglishBE \/ g = TrailingBE \/ g = EnglishCE
     \/ g = TrailingCE) ->
    exists t, title_value g m = PStr t).
  { intros g m Hg. destruct Hg as [->|[->|[->|[->| ->]]]]; simpl; eauto. }
  assert (HP : forall sec t be ce ty msg,
    parseSection sec (PStr t) be ce ty = Throw msg -> False).
  { intros sec t be ce ty msg. unfold parseSection.
    destruct (re_match SECTION_REF sec); discriminate. }
  destruct (classify (trim s)) as [[g m]|] eqn:C.
  - destruct g;
      try (split;
           [split;
            [intros (msg & H);
             match type of H with
             | parseSection _ (title_value ?g ?m) _ _ _ = _ =>
               destruct (HS g m ltac:(tauto)) as (t & Et); rewrite Et in H
             end; destruct (HP _ _ _ _ _ _ H)
            | intros (m' & H & _); discriminate]
           | intros msg H;
             match type of H with
             | parseSection _ (title_value ?g ?m) _ _ _ = _ =>
               destruct (HS g m ltac:(tauto)) as (t & Et); rewrite Et in H
             end; destruct (HP _ _ _ _ _ _ H)]).
    + (* Short *)
      simpl title_value.
      destruct (resolveAbbreviation (trim (group m 2))) as [[t|]|] eqn:E.
      * split; [split|].
        -- intros (msg & H). destruct (HP _ _ _ _ _ _ H).
        -- intros (m' & H & Hk). inversion H; subst m'.
           apply inherited_keys in Hk. congruence.
        -- intros msg H. destruct (HP _ _ _ _ _ _ H).
      * split; [split|].
        -- intros _. exists m. split; [reflexivity|].
           apply inherited_keys. exact E.
        -- intros _. eexists. reflexivity.
        -- intros msg H. simpl in H. inversion H. reflexivity.
      * split; [split|].
        -- intros (msg & H). destruct (HP _ _ _ _ _ _ H).
        -- intros (m' & H & Hk). inversion H; subst m'.
           apply inherited_keys in Hk. congruence.
        -- intros msg H. destruct (HP _ _ _ _ _ _ H).
    + (* IdBased *)
      split; [split|].
      * intros (msg & H). discriminate.
      * intros (m' & H & _). discriminate.
      * intros msg H. discriminate.
  - split; [split|].
    + intros (msg & H). discriminate.
    + intros (m' & H & _). discriminate.
    + intros msg H. discriminate.
Qed.

Lemma parseCitation_throws_iff_witness :
  exists msg, parseCitation (lit "s. 3, __proto__ 2019") = Throw msg.
Proof.
  apply (proj2 (proj1 (parseCitation_throws_iff (lit "s. 3, __proto__ 2019")))).
  eexists. split; [vm_compute; reflexivity|].
  right. vm_compute. reflexivity.
Defined.

(** ** How the pinpoint is decomposed *)

Import PinpointSpec.

Lemma section_ref_unfold : SECTION_REF = Seq Bol SECTION_REF_body.
Proof. reflexivity. Qed.

Lemma opens_app (u v : str) : opens (u ++ v) = opens u + opens v.
Proof. unfold opens. rewrite filter_app, length_app. reflexivity. Qed.

Lemma opens_class (P : char -> bool) (w : str) :
  P 40%N = false -> Forall (fun a => P a = true) w -> opens w = 0.
Proof.
  intros HP H. unfold opens. induction H as [|a w Ha Hw IH]; [reflexivity|].
  simpl. destruct (char_eqb a 40%N) eqn:E; [|exact IH].
  unfold char_eqb in E. apply N.eqb_eq in E. subst a. congruence.
Qed.

Lemma opens_digits (d : str) : digits1 d -> opens d = 0.
Proof. intros (_ & H). apply (opens_class is_digit); [reflexivity | exact H]. Qed.

Lemma opens_paren_group (g : str) : paren_group g -> opens g = 1.
Proof.
  intros (d & -> & Hd). rewrite !opens_app, (opens_digits d Hd). reflexivity.
Qed.

Lemma opens_groups (gs : list str) :
  Forall paren_group gs -> opens (concat gs) = List.length gs.
Proof.
  induction 1 as [|g gs Hg Hgs IH]; [reflexivity|].
  simpl. rewrite opens_app, (opens_paren_group g Hg), IH. reflexivity.
Qed.

Lemma opens_slash (o : str) :
  (o = [] \/ exists d2, o = lit "/" ++ d2 /\ digits1 d2) -> opens o = 0.
Proof.
  intros [->|(d2 & -> & Hd)]; [reflexivity|].
  rewrite opens_app, (opens_digits d2 Hd). reflexivity.
Qed.

(** The first group of [SECTION_REF] holds no parenthesis, the second one
    digits only. *)
Lemma section_ref_classes (f : str) (sm : caps) :
  re_match SECTION_REF f = Some sm ->
  opens (group sm 1) = 0 /\
  (forall w, cap 2 sm = Some w -> digits1 w).
Proof.
  intros H. split.
  - destruct (cap 1 sm) as [w|] eqn:E; unfold group; rewrite E; [|reflexivity].
    destruct (re_match_captured _ _ _ _ _ H E)
      as (r' & la & sa & ca & lb & sb & cb & pre & Hin & Hd & -> & _).
    rewrite section_ref_groups in Hin.
    destruct Hin as [Hin|[Hin|[Hin|[]]]]; inversion Hin; subst r'.
    apply (opens_class (fun a => is_digit a || char_eqb a 47%N));
      [reflexivity|].
    eapply den_chars; [|exact Hd | reflexivity].
    simpl. repeat split.
    + intros a Ha. rewrite Ha. reflexivity.
    + intros a Ha. rewrite Ha. reflexivity.
    + intros a Ha. rewrite Ha. apply orb_true_r.
    + intros a Ha. rewrite Ha. reflexivity.
    + intros a Ha. rewrite Ha. reflexivity.
  - intros w E.
    destruct (section_ref_rebuild f sm H) as (_ & _ & Hne & _).
    split; [exact (Hne w E)|].
    destruct (re_match_captured _ _ _ _ _ H E)
      as (r' & la & sa & ca & lb & sb & cb & pre & Hin & Hd & -> & _).
    rewrite section_ref_groups in Hin.
    destruct Hin as [Hin|[Hin|[Hin|[]]]]; inversion Hin; subst r'.
    apply den_plus_digit in Hd as (d & Ed & (_ & Hd) & _).
    apply app_inv_tail in Ed. subst d. exact Hd.
Qed.

(** [SECTION_REF] reads a pinpoint without group, or with one group. *)
Lemma section_ref_leads_head (d1 o s' : str) (c : caps) :
  digits1 d1 -> (o = [] \/ exists d2, o = lit "/" ++ d2 /\ digits1 d2) ->
  match s' with [] => True | a :: _ => pin_char a = false \/ a = 40%N end ->
  leads (Group 1 (Seq (plus digit) (opt (Seq (text "/") (plus digit)))))
    [] (d1 ++ o) s' c ((1, d1 ++ o) :: c).
Proof.
  intros Hd1 Ho Hs.
  assert (Hnd : match s' with [] => True | a :: _ => is_digit a = false end).
  { destruct s' as [|a s']; [exact I|].
    destruct Hs as [Hs| ->]; [apply pin_char_digit; exact Hs | reflexivity]. }
  assert (Hns : match s' with [] => True | a :: _ => char_eqb a 47%N = false end).
  { destruct s' as [|a s']; [exact I|].
    destruct Hs as [Hs| ->]; [apply pin_char_slash; exact Hs | reflexivity]. }
  apply leads_group.
  apply leads_seq with (c1 := c).
  - apply leads_plus_digits; [exact Hd1|].
    destruct Ho as [->|(d2 & -> & _)]; [exact Hnd | reflexivity].
  - unfold opt. destruct Ho as [->|(d2 & -> & Hd2)].
    + apply leads_alt_r; [|apply leads_eps].
      apply fails_seq, fails_class. exact Hns.
    + apply leads_alt_l.
      apply (leads_seq (chr 47%N) (plus digit) _ [47%N] d2 _ c c c).
      * apply leads_chr. reflexivity.
      * apply leads_plus_digits; [exact Hd2 | exact Hnd].
Qed.

Lemma section_ref_matches_plain (d1 o : str) :
  digits1 d1 -> (o = [] \/ exists d2, o = lit "/" ++ d2 /\ digits1 d2) ->
  re_match SECTION_REF (d1 ++ o) = Some [(1, d1 ++ o)].
Proof.
  intros Hd1 Ho. rewrite section_ref_unfold, re_match_anchored.
  pose proof (section_ref_leads_head d1 o [] [] Hd1 Ho I) as H1.
  unfold SECTION_REF_body.
  rewrite <- (app_nil_r (d1 ++ o)) at 1.
  apply (step_seq _ _ _ _ _ _ _ _ _ H1).
  reflexivity.
Qed.

Lemma section_ref_matches_group (d1 o n : str) :
  digits1 d1 -> (o = [] \/ exists d2, o = lit "/" ++ d2 /\ digits1 d2) ->
  digits1 n ->
  re_match SECTION_REF (d1 ++ o ++ lit "(" ++ n ++ lit ")")
  = Some [(2, n); (1, d1 ++ o)].
Proof.
  intros Hd1 Ho Hn. rewrite section_ref_unfold, re_match_anchored.
  pose proof (section_ref_leads_head d1 o (lit "(" ++ n ++ lit ")") []
                Hd1 Ho (or_intror eq_refl)) as H1.
  unfold SECTION_REF_body.
  rewrite app_assoc.
  apply (step_seq _ _ _ _ _ _ _ _ _ H1).
  assert (H2 : leads (Alt (Seq (chr 40%N) (Seq (Group 2 (plus digit)) (chr 41%N))) Eps)
                 (rev (d1 ++ o) ++ []) (lit "(" ++ n ++ lit ")") []
                 [(1, d1 ++ o)] [(2, n); (1, d1 ++ o)]).
  { apply leads_alt_l.
    apply (leads_seq (chr 40%N) _ _ [40%N] (n ++ [41%N]) []
             _ [(1, d1 ++ o)] _).
    - apply leads_chr. reflexivity.
    - apply (leads_seq (Group 2 (plus digit)) (chr 41%N) _ n [41%N] []
               _ [(2, n); (1, d1 ++ o)] _).
      + apply leads_group. apply leads_plus_digits; [exact Hn | reflexivity].
      + apply leads_chr. reflexivity. }
  rewrite <- (app_nil_r (lit "(" ++ n ++ lit ")")).
  apply (step_seq _ _ _ _ _ _ _ _ _ H2).
  reflexivity.
Qed.

Lemma pin_shape_chars (frag : str) :
  pin_shape frag -> Forall (fun a => pin_char a = true) frag.
Proof.
  intros (d1 & o & gs & -> & (_ & Hd1) & Ho & Hgs).
  assert (Hdig : forall d, Forall (fun a => is_digit a = true) d ->
                           Forall (fun a => pin_char a = true) d).
  { intros d Hd. eapply Forall_impl; [|exact Hd]. apply digit_is_pin. }
  apply Forall_app. split; [auto|]. apply Forall_app. split.
  - destruct Ho as [->|(d2 & -> & (_ & Hd2))]; [constructor|].
    constructor; [reflexivity | auto].
  - induction Hgs as [|g gs (d & -> & (_ & Hd)) Hgs IH]; [constructor|].
    cbn [concat]. apply Forall_app. split; [|exact IH].
    change (lit "(") with [40%N]. change (lit ")") with [41%N].
    apply Forall_app. split; [constructor; [reflexivity | constructor]|].
    apply Forall_app. split; [auto|].
    constructor; [reflexivity | constructor].
Qed.

(** With two groups or more, [SECTION_REF] does not match. *)
Lemma section_ref_rejects (d1 o : str) (gs : list str) :
  digits1 d1 -> (o = [] \/ exists d2, o = lit "/" ++ d2 /\ digits1 d2) ->
  Forall paren_group gs -> 2 <= List.length gs ->
  re_match SECTION_REF (d1 ++ o ++ concat gs) = None.
Proof.
  intros Hd1 Ho Hgs Hlen.
  destruct (re_match SECTION_REF (d1 ++ o ++ concat gs)) as [sm|] eqn:E;
    [|reflexivity].
  exfalso.
  destruct (section_ref_rebuild _ sm E) as (Hf & _).
  destruct (section_ref_classes _ sm E) as (H1 & H2).
  assert (Hop : opens (d1 ++ o ++ concat gs) = List.length gs).
  { rewrite !opens_app, (opens_digits d1 Hd1), (opens_slash o Ho),
      (opens_groups gs Hgs). reflexivity. }
  assert (Hpin : Forall (fun a => pin_char a = true) (d1 ++ o ++ concat gs)).
  { apply pin_shape_chars. exists d1, o, gs. auto. }
  assert (H3 : cap 3 sm = None).
  { destruct (cap 3 sm) as [w|] eqn:E3; [|reflexivity].
    destruct (section_ref_paragraph _ _ _ E E3) as (a & _ & Ha & Hin).
    rewrite Forall_forall in Hpin.
    destruct (lower_not_pin a Ha (Hpin a Hin)). }
  rewrite H3 in Hf. cbn [in_parens] in Hf. rewrite app_nil_r in Hf.
  destruct (cap 2 sm) as [w|] eqn:E2; cbn [in_parens] in Hf;
    rewrite <- Hf in Hop; rewrite ?opens_app, H1 in Hop.
  - rewrite (opens_digits w (H2 w eq_refl)) in Hop.
    change (opens (lit "(")) with 1 in Hop.
    change (opens (lit ")")) with 0 in Hop. lia.
  - change (opens []) with 0 in Hop. lia.
Qed.

(** How [parseSection] decomposes a pinpoint: without group the fragment
    is the section; with one group the group is the subsection; with two
    groups or more the fragment is kept whole. *)
Lemma parseSection_decomposition (d1 o : str) (gs : list str) (t : str)
    (be ce : num) (ty : citation_type) :
  digits1 d1 -> (o = [] \/ exists d2, o = lit "/" ++ d2 /\ digits1 d2) ->
  Forall paren_group gs ->
  exists p,
    parseSection (d1 ++ o ++ concat gs) (PStr t) be ce ty = Ok p /\
    paragraph p = None /\
    match gs with
    | [] => section p = Some (d1 ++ o) /\ subsection p = None
    | [g1] =>
      section p = Some (d1 ++ o) /\
      exists n, g1 = lit "(" ++ n ++ lit ")" /\ digits1 n /\
                subsection p = Some n
    | _ :: _ :: _ =>
      section p = Some (d1 ++ o ++ concat gs) /\ subsection p = None
    end.
Proof.
  intros Hd1 Ho Hgs. unfold parseSection.
  destruct gs as [|g1 [|g2 gs]].
  - cbn [concat]. rewrite app_nil_r.
    rewrite (section_ref_matches_plain d1 o Hd1 Ho).
    eexists. split; [reflexivity|]. simpl. auto.
  - inversion Hgs as [|x y (n & En & Hn) Hy]; subst.
    cbn [concat]. rewrite app_nil_r.
    rewrite (section_ref_matches_group d1 o n Hd1 Ho Hn).
    eexists. split; [reflexivity|]. simpl. split; [reflexivity|].
    split; [reflexivity|]. exists n. split; [reflexivity|].
    split; [exact Hn|].
    destruct Hn as (Hne & _). destruct n; [congruence | reflexivity].
  - rewrite (section_ref_rejects d1 o (g1 :: g2 :: gs) Hd1 Ho Hgs);
      [|simpl; lia].
    eexists. split; [reflexivity|]. simpl. auto.
Qed.

(** X3: in every grammar but the bare-identifier one, the captured
    pinpoint is digits, an optional slash and digits, and groups of digits in
    parentheses.  Without group the section is the whole fragment; with one
    group the section is the part before it and the subsection the digits
    inside; with two groups or more [SECTION_REF] does not match, and the
    whole fragment becomes the section, without subsection. *)
Theorem pinpoint_decomposition (s : str) (g : grammar) (m : caps)
    (p : ParsedCitation) :
  classify (trim s) = Some (g, m) -> g <> IdBased ->
  parseCitation s = Ok p ->
  exists d1 o gs,
    group m (pin_group g) = d1 ++ o ++ concat gs /\
    digits1 d1 /\
    (o = [] \/ exists d2, o = lit "/" ++ d2 /\ digits1 d2) /\
    Forall paren_group gs /\
    paragraph p = None /\
    match gs with
    | [] => section p = Some (d1 ++ o) /\ subsection p = None
    | [g1] =>
      section p = Some (d1 ++ o) /\
      exists n, g1 = lit "(" ++ n ++ lit ")" /\ digits1 n /\
                subsection p = Some n
    | _ :: _ :: _ =>
      section p = Some (d1 ++ o ++ concat gs) /\ subsection p = None
    end.
Proof.
  intros C Hg H. rewrite parseCitation_classify, C in H.
  apply classify_re in C.
  destruct (pin_capture_den g _ m C) as (la & ca & lb & sb & cb & Hd).
  apply den_pin_shape in Hd. destruct Hd as (d1 & o & gs & E & Hd1 & Ho & Hgs).
  exists d1, o, gs. split; [exact E|]. split; [exact Hd1|].
  split; [exact Ho|]. split; [exact Hgs|].
  assert (HS : parseSection (group m (pin_group g)) (title_value g m)
                 (be_value g m) (ce_value g m) statute = Ok p).
  { destruct g; try exact H. congruence. }
  clear H. rewrite E in HS.
  destruct (title_value g m) as [t|]; [|discriminate].
  destruct (parseSection_decomposition d1 o gs t (be_value g m) (ce_value g m)
              statute Hd1 Ho Hgs) as (p' & Hp' & R).
  rewrite Hp' in HS. inversion HS; subst p'. exact R.
Qed.

Lemma pinpoint_decomposition_witness :
  exists m p d1 o gs,
    classify (trim (lit "Section 77/1(2)(3), Civil and Commercial Code B.E. 2468"))
      = Some (EnglishBE, m) /\
    parseCitation (lit "Section 77/1(2)(3), Civil and Commercial Code B.E. 2468")
      = Ok p /\
    group m (pin_group EnglishBE) = d1 ++ o ++ concat gs /\
    digits1 d1 /\
    (o = [] \/ exists d2, o = lit "/" ++ d2 /\ digits1 d2) /\
    Forall paren_group gs /\
    paragraph p = None /\
    match gs with
    | [] => section p = Some (d1 ++ o) /\ subsection p = None
    | [g1] =>
      section p = Some (d1 ++ o) /\
      exists n, g1 = lit "(" ++ n ++ lit ")" /\ digits1 n /\
                subsection p = Some n
    | _ :: _ :: _ =>
      section p = Some (d1 ++ o ++ concat gs) /\ subsection p = None
    end.
Proof.
  eexists. eexists.
  assert (C : classify (trim (lit "Section 77/1(2)(3), Civil and Commercial Code B.E. 2468"))
              = Some (EnglishBE, _)) by (vm_compute; reflexivity).
  assert (P : parseCitation (lit "Section 77/1(2)(3), Civil and Commercial Code B.E. 2468")
              = Ok _) by (vm_compute; reflexivity).
  destruct (pinpoint_decomposition _ _ _ _ C ltac:(discriminate) P)
    as (d1 & o & gs & R).
  exists d1, o, gs. split; [exact C|]. split; [exact P|]. exact R.
Defined.

(** ** White space around a citation *)

(** *** More on trimming *)

Lemma drop_ws_pad (w x : str) :
  Forall (fun c => is_ws c = true) w -> drop_ws (w ++ x) = drop_ws x.
Proof.
  induction 1 as [|a w Ha Hw IH]; [reflexivity|].
  simpl. rewrite Ha. exact IH.
Qed.

(** Trimming removes the white space around a string that starts and ends
    with other code units. *)
Lemma trim_pad (w1 w2 z : str) :
  Forall (fun c => is_ws c = true) w1 ->
  Forall (fun c => is_ws c = true) w2 ->
  (z = [] \/
   exists a u b, (z = a :: u /\ is_ws a = false) /\
                 (exists v, z = v ++ [b] /\ is_ws b = false)) ->
  trim (w1 ++ z ++ w2) = z.
Proof.
  intros H1 H2 [->|(a & u & b & (E1 & Ha) & (v & E2 & Hb))].
  - simpl. apply trim_blank. apply Forall_app. auto.
  - unfold trim. rewrite (drop_ws_pad w1 _ H1).
    rewrite E1. simpl app. rewrite (drop_ws_id _ _ Ha).
    change (a :: u ++ w2) with ((a :: u) ++ w2). rewrite <- E1, E2.
    rewrite rev_app_distr, (drop_ws_pad (rev w2)); [|apply Forall_rev; exact H2].
    rewrite rev_app_distr. simpl. rewrite Hb. simpl.
    rewrite rev_involutive. reflexivity.
Qed.

Lemma drop_ws_prefix_ws (s : str) :
  exists w, s = w ++ drop_ws s /\ Forall (fun c => is_ws c = true) w.
Proof.
  induction s as [|a s (w & IH & Hw)]; simpl.
  - exists []. auto.
  - destruct (is_ws a) eqn:E.
    + exists (a :: w). simpl. rewrite <- IH. auto.
    + exists []. auto.
Qed.

(** A string is its trimmed form with white space around. *)
Lemma trim_decompose (s : str) :
  exists w1 w2, s = w1 ++ trim s ++ w2 /\
    Forall (fun c => is_ws c = true) w1 /\
    Forall (fun c => is_ws c = true) w2.
Proof.
  destruct (drop_ws_prefix_ws s) as (w1 & E1 & H1).
  destruct (drop_ws_prefix_ws (rev (drop_ws s))) as (w2 & E2 & H2).
  exists w1, (rev w2). split; [|split; [exact H1 | apply Forall_rev; exact H2]].
  unfold trim. rewrite <- rev_app_distr, <- E2, rev_involutive. exact E1.
Qed.

Lemma trim_padded (pre post s : str) :
  Forall (fun c => is_ws c = true) pre ->
  Forall (fun c => is_ws c = true) post ->
  trim (pre ++ s ++ post) = trim s.
Proof.
  intros Hpre Hpost.
  destruct (trim_decompose s) as (w1 & w2 & E & H1 & H2).
  rewrite E at 1.
  replace (pre ++ (w1 ++ trim s ++ w2) ++ post)
    with ((pre ++ w1) ++ trim s ++ (w2 ++ post))
    by (rewrite <- !app_assoc; reflexivity).
  apply trim_pad; [apply Forall_app; auto | apply Forall_app; auto|].
  apply trim_ends.
Qed.

(** X4: white space before and after a citation is ignored: the padded
    input parses to the very result of the input itself. *)
Theorem parseCitation_ignores_padding (pre post s : str) :
  Forall (fun c => is_ws c = true) pre ->
  Forall (fun c => is_ws c = true) post ->
  parseCitation (pre ++ s ++ post) = parseCitation s.
Proof.
  intros Hpre Hpost. unfold parseCitation.
  rewrite (trim_padded pre post s Hpre Hpost). reflexivity.
Qed.

Lemma parseCitation_ignores_padding_witness :
  parseCitation (lit "  " ++ lit "s. 3, PDPA 2019" ++ [9%N; 10%N])
  = parseCitation (lit "s. 3, PDPA 2019").
Proof.
  apply (parseCitation_ignores_padding (lit "  ") [9%N; 10%N]
           (lit "s. 3, PDPA 2019")).
  - repeat constructor.
  - repeat constructor.
Defined.

(** ** The text [formatCitation] returns *)

Lemma trim_head (a : char) (x : str) :
  is_ws a = false -> exists r, trim (a :: x) = a :: r.
Proof.
  intros Ha. unfold trim. rewrite (drop_ws_id _ _ Ha).
  change (rev (a :: x)) with (rev x ++ [a]).
  destruct (drop_ws_snoc (rev x) a Ha) as (u & E). rewrite E.
  rewrite rev_app_distr. simpl. eauto.
Qed.

Lemma trim_starts (t : str) (a : char) :
  (exists x, t = a :: x) -> is_ws a = false -> trim t <> [].
Proof.
  intros (x & ->) Ha. destruct (trim_head a x Ha) as (r & E).
  rewrite E. discriminate.
Qed.

Lemma formatCitation_invalid (p : ParsedCitation) (f : option str) :
  valid p = false \/ truthy (section p) = false -> formatCitation p f = [].
Proof.
  intros [H|H]; unfold formatCitation; rewrite H;
    [reflexivity | rewrite orb_true_r; reflexivity].
Qed.

Lemma formatCitation_nonempty (p : ParsedCitation) (f : option str) :
  valid p = true -> truthy (section p) = true -> formatCitation p f <> [].
Proof.
  intros Ev Es H.
  unfold formatCitation in H. rewrite Ev, Es in H. simpl in H.
  assert (Hfull : full_en_template p (buildPinpoint p) <> []).
  { unfold full_en_template.
    apply (trim_starts _ 83%N); [eexists; reflexivity | reflexivity]. }
  destruct (str_eqb _ (lit "full_th")).
  { revert H. apply (trim_starts _ 3617%N);
      [eexists; reflexivity | reflexivity]. }
  destruct (str_eqb _ (lit "full_en")); [contradiction|].
  destruct (str_eqb _ (lit "short")).
  { revert H. apply (trim_starts _ 115%N);
      [eexists; reflexivity | reflexivity]. }
  destruct (str_eqb _ (lit "pinpoint")); [discriminate | contradiction].
Qed.

(** The [full_en] template starts with a letter and ends with a
    parenthesis: trimming it changes nothing. *)
Lemma full_en_template_text (p : ParsedCitation) (pin : str) :
  full_en_template p pin
  = lit "Section " ++ pin ++ lit ", " ++ str_or_empty (title p)
    ++ lit " B.E. " ++ num_or_empty (be_year p)
    ++ lit " (" ++ num_or_empty (ce_year p) ++ lit ")".
Proof.
  unfold full_en_template. apply trim_fixed. right.
  eexists 83%N, _, 41%N. split; [split; [reflexivity | reflexivity]|].
  eexists. split; [|reflexivity].
  change (lit ")") with [41%N]. rewrite !app_assoc. reflexivity.
Qed.

(** X5: [formatCitation] returns the empty string exactly for a citation
    that is not valid or whose section is missing or empty.  Otherwise, for
    [full_en], for an unknown format and for a call without format, the
    result is the template itself, which the final [trim()] leaves as it is:
    it starts with [Section] and the pinpoint and ends with a parenthesis,
    also when the title and the years are missing. *)
Theorem formatCitation_empty_iff (p : ParsedCitation) (f : option str) :
  (formatCitation p f = [] <->
   valid p = false \/ truthy (section p) = false) /\
  (valid p = true -> truthy (section p) = true ->
   (forall x, f = Some x ->
      x <> lit "full_th" /\ x <> lit "short" /\ x <> lit "pinpoint") ->
   formatCitation p f
   = lit "Section " ++ buildPinpoint p ++ lit ", " ++ str_or_empty (title p)
     ++ lit " B.E. " ++ num_or_empty (be_year p)
     ++ lit " (" ++ num_or_empty (ce_year p) ++ lit ")").
Proof.
  split.
  - split; [|apply formatCitation_invalid].
    intros H. destruct (valid p) eqn:Ev; [|auto].
    destruct (truthy (section p)) eqn:Es; [|auto].
    destruct (formatCitation_nonempty p f Ev Es H).
  - intros Hv Hs Hf. rewrite <- full_en_template_text.
    unfold formatCitation. rewrite Hv, Hs. simpl.
    destruct f as [x|]; [|reflexivity].
    destruct (Hf x eq_refl) as (H1 & H2 & H3).
    rewrite (str_eqb_neq _ _ H1), (str_eqb_neq _ _ H2), (str_eqb_neq _ _ H3).
    destruct (str_eqb x (lit "full_en")); reflexivity.
Qed.

Lemma formatCitation_empty_iff_witness :
  exists p,
    parseCitation (lit "pdpa-be2562, s. 3") = Ok p /\
    formatCitation p None = lit "Section 3, pdpa-be2562 B.E.  ()".
Proof.
  eexists. split; [vm_compute; reflexivity|].
  rewrite (proj2 (formatCitation_empty_iff _ None));
    [vm_compute; reflexivity | reflexivity | reflexivity | discriminate].
Defined.

(** ** More on [validateCitation] and [resolveExistingStatuteId] *)

(** A valid result of [parseCitation] has a section that is not empty, and a
    result without years is the bare-identifier one or an invalid one. *)
Lemma parsed_section_truthy (s : str) (p : ParsedCitation) :
  parseCitation s = Ok p -> valid p = true -> truthy (section p) = true.
Proof.
  rewrite parseCitation_classify.
  destruct (classify (trim s)) as [[g m]|] eqn:C.
  - apply classify_re in C.
    destruct (pin_capture_den g _ m C) as (la & ca & lb & sb & cb & Hd).
    apply den_pin_shape in Hd.
    assert (HS :
      parseSection (group m (pin_group g)) (title_value g m)
        (be_value g m) (ce_value g m) statute = Ok p ->
      truthy (section p) = true).
    { intros H.
      destruct (title_value g m) as [t|]; [|discriminate].
      apply (buildPinpoint_parseSection _ _ _ _ _ _ Hd H). }
    destruct g; try (intros H _; apply HS; exact H).
    intros H _. inversion H; subst; simpl.
    destruct (pin_shape_head _ Hd) as (a & r & Ef & _).
    simpl in Ef. rewrite Ef. reflexivity.
  - intros H. inversion H; subst. discriminate.
Qed.

Lemma parsed_without_be_year (s : str) (p : ParsedCitation) :
  parseCitation s = Ok p -> be_year p = None -> ce_year p = None.
Proof.
  rewrite parseCitation_classify.
  destruct (classify (trim s)) as [[g m]|] eqn:C.
  - destruct g;
      try (intros H Hb; apply parseSection_fields in H as (_ & H & _);
           congruence).
    intros H _. inversion H; subst. reflexivity.
  - intros H _. inversion H; subst. reflexivity.
Qed.



(** X7: a validation has no warning exactly when the provision was found
    and the statute is not repealed; there are at most two warnings, and the
    warning of a repealed statute comes first. *)
Theorem validateCitation_warnings (like : str -> str -> bool) (db : Database)
    (s : str) (v : ValidationResult) :
  validateCitation like db s = Ok v ->
  (warnings v = [] <->
   provision_exists v = true /\ status v <> Some (lit "repealed")) /\
  List.length (warnings v) <= 2 /\
  (status v = Some (lit "repealed") ->
   exists w, warnings v = lit "This statute has been repealed" :: w).
Proof.
  unfold validateCitation.
  destruct (parseCitation s) as [parsed|msg] eqn:P; [|discriminate].
  intros H. inversion H; subst; clear H.
  destruct (valid parsed) eqn:Ev; simpl.
  2:{ split; [|split; [lia | discriminate]].
      split; [discriminate | intros (H & _); discriminate]. }
  destruct (find _ (legal_documents db)) as [doc|] eqn:Ed; simpl.
  2:{ split; [|split; [lia | discriminate]].
      split; [discriminate | intros (H & _); discriminate]. }
  rewrite (parsed_section_truthy s parsed P Ev).
  destruct (str_eqb (doc_status doc) (lit "repealed")) eqn:Er.
  - apply str_eqb_eq in Er.
    destruct (find _ (legal_provisions db)); simpl;
      (split; [|split; [lia | eauto]]);
      (split; [discriminate | intros (_ & H); rewrite Er in H; congruence]).
  - assert (Hr : Some (doc_status doc) <> Some (lit "repealed")).
    { intros H. inversion H as [H']. rewrite H', str_eqb_refl in Er.
      discriminate. }
    destruct (find _ (legal_provisions db)); simpl;
      (split; [|split; [lia | intros H; congruence]]).
    + split; auto.
    + split; [discriminate | intros (H & _); discriminate].
Qed.

Lemma validateCitation_warnings_witness :
  exists v,
    validateCitation sqlite_like example_db
      (lit "Section 999, Personal Data Protection Act B.E. 2562") = Ok v /\
    document_exists v = true /\ provision_exists v = false /\
    warnings v <> [] /\ List.length (warnings v) <= 2.
Proof.
  eexists. split; [vm_compute; reflexivity|].
  split; [reflexivity|]. split; [reflexivity|].
  pose proof (validateCitation_warnings sqlite_like example_db
                (lit "Section 999, Personal Data Protection Act B.E. 2562") _
                ltac:(vm_compute; reflexivity)) as (Hw & Hl & _).
  split; [|exact Hl].
  intros E. apply Hw in E as (E & _). discriminate.
Defined.

(** X8: for a citation without years, that is one in the bare-identifier
    form, the document is looked up by the LIKE match of the identifier
    against the two titles and the short name only: the year is not
    compared, and neither is the [id] column. *)
Theorem validateCitation_id_based (like : str -> str -> bool) (db : Database)
    (s : str) (p : ParsedCitation) (v : ValidationResult) :
  parseCitation s = Ok p -> valid p = true -> be_year p = None ->
  validateCitation like db s = Ok v ->
  exists t, title p = Some t /\
    (document_exists v = true <->
     exists d, In d (legal_documents db) /\
       (like (wrap t) (doc_title d) = true \/
        like_opt like (wrap t) (doc_title_en d) = true \/
        like_opt like (wrap t) (doc_short_name d) = true)).
Proof.
  intros P Hv Hb. pose proof (parsed_without_be_year s p P Hb) as Hc.
  assert (Ht : exists t, title p = Some t).
  { revert P. rewrite parseCitation_classify.
    destruct (classify (trim s)) as [[g m]|];
      [|intros H; inversion H; subst; discriminate].
    destruct g;
      try (intros H; apply parseSection_fields in H as (_ & _ & _ & t & _ & H);
           eauto).
    intros H. inversion H; subst; simpl. eauto. }
  destruct Ht as (t & Ht). exists t. split; [exact Ht|].
  revert H. unfold validateCitation. rewrite P, Hv. simpl.
  unfold yearSearch_of. rewrite Hb, Hc, Ht. simpl.
  assert (Hsel : forall d,
    document_selects like t (Int 0) d = true <->
    (like (wrap t) (doc_title d) = true \/
     like_opt like (wrap t) (doc_title_en d) = true \/
     like_opt like (wrap t) (doc_short_name d) = true)).
  { intros d. unfold document_selects, year_selects.
    rewrite orb_true_r, andb_true_r, !orb_true_iff. tauto. }
  destruct (find _ (legal_documents db)) as [doc|] eqn:Ed.
  - apply find_some in Ed as (Hin & Hs). apply Hsel in Hs.
    intros H. inversion H; subst; clear H.
    destruct (truthy (section p)); [destruct (find _ (legal_provisions db))|];
      simpl; (split; [intros _; exists doc; auto | reflexivity]).
  - intros H. inversion H; subst; clear H. simpl.
    split; [discriminate|]. intros (d & Hin & Hs). apply Hsel in Hs.
    rewrite (find_none _ _ Ed d Hin) in Hs. discriminate.
Qed.

Lemma validateCitation_id_based_witness :
  exists p v t,
    parseCitation (lit "pdpa-be2562, s. 3") = Ok p /\
    validateCitation sqlite_like example_db (lit "pdpa-be2562, s. 3") = Ok v /\
    title p = Some t /\ t = lit "pdpa-be2562" /\
    document_exists v = false /\
    (document_exists v = true <->
     exists d, In d (legal_documents example_db) /\
       (sqlite_like (wrap t) (doc_title d) = true \/
        like_opt sqlite_like (wrap t) (doc_title_en d) = true \/
        like_opt sqlite_like (wrap t) (doc_short_name d) = true)).
Proof.
  eexists. eexists.
  assert (P : parseCitation (lit "pdpa-be2562, s. 3") = Ok _)
    by (vm_compute; reflexivity).
  assert (V : validateCitation sqlite_like example_db (lit "pdpa-be2562, s. 3")
              = Ok _) by (vm_compute; reflexivity).
  destruct (validateCitation_id_based sqlite_like example_db _ _ _ P
              eq_refl eq_refl V) as (t & Ht & H).
  exists t. split; [exact P|]. split; [exact V|]. split; [exact Ht|].
  split; [|split; [reflexivity | exact H]].
  vm_compute in Ht. inversion Ht. reflexivity.
Defined.

(** X9: the input goes into the LIKE patterns as it is.  When the pattern
    built from it matches every value, as it does for an input made of the
    wildcard, the lookup returns the input when a document has it as
    identifier and the identifier of the first document otherwise. *)
Theorem resolve_wildcard (like : str -> str -> bool) (db : Database)
    (inputId : str) (d0 : document) (rest : list document) :
  legal_documents db = d0 :: rest ->
  (forall value, like (wrap inputId) value = true) ->
  fst (resolveExistingStatuteId like db inputId [])
  = Some (if existsb (fun d => str_eqb (doc_id d) inputId) (d0 :: rest)
          then inputId else doc_id d0).
Proof.
  intros Hdb Hlike.
  unfold resolveExistingStatuteId, bind, run_get, ret, get.
  rewrite Hdb. cbv beta iota zeta.
  destruct (find (selects like ById inputId) (d0 :: rest)) as [r|] eqn:E.
  - pose proof (find_some _ _ E) as (Hin & Hs). cbn [selects] in Hs.
    assert (Hex : existsb (fun d => str_eqb (doc_id d) inputId) (d0 :: rest)
                  = true).
    { apply existsb_exists. exists r. auto. }
    rewrite Hex. apply str_eqb_eq in Hs. rewrite Hs. reflexivity.
  - assert (Hex : existsb (fun d => str_eqb (doc_id d) inputId) (d0 :: rest)
                  = false).
    { destruct (existsb _ (d0 :: rest)) eqn:X; [|reflexivity].
      apply existsb_exists in X as (d & Hd & Hs).
      pose proof (find_none _ _ E d Hd) as Hn. cbn [selects] in Hn.
      congruence. }
    rewrite Hex. cbv beta iota zeta. cbn [find selects]. rewrite Hlike.
    reflexivity.
Qed.

Lemma sqlite_like_percent (p v : str) :
  sqlite_like p v = true -> sqlite_like (37%N :: p) v = true.
Proof. intros H. destruct v; simpl; rewrite H; reflexivity. Qed.

Lemma sqlite_like_any (v : str) : sqlite_like [37%N] v = true.
Proof.
  induction v as [|a v IH]; [reflexivity|].
  simpl in IH |- *. exact IH.
Qed.

Lemma resolve_wildcard_witness :
  fst (resolveExistingStatuteId sqlite_like example_db (lit "%") [])
  = Some (lit "pdpa-be2562").
Proof.
  rewrite (resolve_wildcard sqlite_like example_db (lit "%") pdpa [cca]).
  - reflexivity.
  - reflexivity.
  - intros value. change (wrap (lit "%")) with [37%N; 37%N; 37%N].
    apply sqlite_like_percent, sqlite_like_percent, sqlite_like_any.
Defined.

(** ** Identifiers as text *)

Import JsText StatuteIdText.

(** *** Sets and replacements *)

Lemma set_add_spec (x : str) (s : list str) :
  NoDup s ->
  NoDup (set_add x s) /\ In x (set_add x s) /\ incl s (set_add x s) /\
  (forall y, In y (set_add x s) -> y = x \/ In y s) /\
  List.length s <= List.length (set_add x s) <= S (List.length s) /\
  (s <> [] -> hd_error (set_add x s) = hd_error s).
Proof.
  intros Hs. unfold set_add. destruct (existsb (str_eqb x) s) eqn:E.
  - apply existsb_exists in E as (y & Hy & E). apply str_eqb_eq in E. subst y.
    repeat split; auto using incl_refl; lia.
  - assert (Hn : ~ In x s).
    { intros H. assert (existsb (str_eqb x) s = true).
      { apply existsb_exists. exists x. split; [exact H | apply str_eqb_refl]. }
      congruence. }
    split; [|split; [|split; [|split; [|split]]]].
    + apply NoDup_app; [exact Hs | repeat constructor; auto|].
      intros a Ha [<-|[]]. contradiction.
    + apply in_or_app. right. left. reflexivity.
    + apply incl_appl, incl_refl.
    + intros y Hy. apply in_app_or in Hy as [Hy|[<-|[]]]; auto.
    + rewrite length_app. simpl. lia.
    + intros Hne. destruct s; [congruence | reflexivity].
Qed.

Lemma replace_ws_from_no_ws (rep s : str) (b : bool) :
  Forall (fun c => is_ws c = false) rep ->
  Forall (fun c => is_ws c = false) (replace_ws_from rep s b).
Proof.
  intros Hrep. revert b. induction s as [|a s IH]; intros b; simpl;
    [constructor|].
  destruct (is_ws a) eqn:E.
  - destruct b; [apply IH|]. apply Forall_app. split; [exact Hrep | apply IH].
  - constructor; [exact E | apply IH].
Qed.

Lemma replace_unit_gone (a b : char) (s : str) :
  a <> b -> ~ In a (replace_unit a b s).
Proof.
  intros Hab H. unfold replace_unit in H. apply in_map_iff in H as (c & E & _).
  destruct (char_eqb c a) eqn:Ec; [congruence|].
  unfold char_eqb in Ec. apply N.eqb_neq in Ec. congruence.
Qed.

(** X10: the candidates of an identifier are distinct, between one and
    four, start with the lower-cased trimmed identifier and hold the trimmed
    identifier; every other one is the form with each run of white space
    turned into a hyphen, present when the lower-cased identifier holds a
    space, which then holds no white space at all, or the form with each
    hyphen turned into a space, present when it holds a hyphen. *)
Theorem statuteIdCandidates_invariants (toLowerCase : str -> str) (id : str) :
  let trimmed := toLowerCase (trim id) in
  let cs := statuteIdCandidates toLowerCase id in
  NoDup cs /\
  1 <= List.length cs <= 4 /\
  hd_error cs = Some trimmed /\
  In (trim id) cs /\
  (forall c, In c cs ->
     c = trimmed \/ c = trim id \/
     (includes trimmed (lit " ") = true /\
      c = replace_ws_runs (lit "-") trimmed) \/
     (includes trimmed (lit "-") = true /\
      c = replace_unit 45%N 32%N trimmed)) /\
  (includes trimmed (lit " ") = true ->
     In (replace_ws_runs (lit "-") trimmed) cs /\
     Forall (fun c => is_ws c = false) (replace_ws_runs (lit "-") trimmed)) /\
  (includes trimmed (lit "-") = true ->
     In (replace_unit 45%N 32%N trimmed) cs /\
     ~ In 45%N (replace_unit 45%N 32%N trimmed)).
Proof.
  intros trimmed cs. unfold cs, statuteIdCandidates. fold trimmed.
  pose proof (set_add_spec trimmed [] (NoDup_nil _))
    as (N1 & I1 & _ & O1 & L1 & _).
  assert (H1 : hd_error (set_add trimmed []) = Some trimmed) by reflexivity.
  assert (Hne1 : set_add trimmed [] <> []) by discriminate.
  set (c1 := set_add trimmed []) in *.
  pose proof (set_add_spec (trim id) c1 N1) as (N2 & I2 & S2 & O2 & L2 & Hd2).
  specialize (Hd2 Hne1).
  assert (Hne2 : set_add (trim id) c1 <> []).
  { intros E. rewrite E in I2. destruct I2. }
  set (c2 := set_add (trim id) c1) in *.
  set (c3 := if includes trimmed (lit " ")
             then set_add (replace_ws_runs (lit "-") trimmed) c2 else c2).
  assert (P3 : NoDup c3 /\ incl c2 c3 /\
               List.length c2 <= List.length c3 <= S (List.length c2) /\
               hd_error c3 = hd_error c2 /\
               (forall y, In y c3 ->
                  (includes trimmed (lit " ") = true /\
                   y = replace_ws_runs (lit "-") trimmed) \/ In y c2) /\
               (includes trimmed (lit " ") = true ->
                  In (replace_ws_runs (lit "-") trimmed) c3)).
  { unfold c3. destruct (includes trimmed (lit " ")).
    - pose proof (set_add_spec (replace_ws_runs (lit "-") trimmed) c2 N2)
        as (N & I & S & O & L & Hd).
      repeat split; auto; try lia;
        try (intros y Hy; destruct (O y Hy); auto).
    - repeat split; auto using incl_refl; try lia; try discriminate. }
  destruct P3 as (N3 & S3 & L3 & Hd3 & O3 & I3).
  assert (Hne3 : c3 <> []).
  { intros E. apply (S3 (trim id)) in I2. rewrite E in I2. destruct I2. }
  set (c4 := if includes trimmed (lit "-")
             then set_add (replace_unit 45%N 32%N trimmed) c3 else c3).
  assert (P4 : NoDup c4 /\ incl c3 c4 /\
               List.length c3 <= List.length c4 <= S (List.length c3) /\
               hd_error c4 = hd_error c3 /\
               (forall y, In y c4 ->
                  (includes trimmed (lit "-") = true /\
                   y = replace_unit 45%N 32%N trimmed) \/ In y c3) /\
               (includes trimmed (lit "-") = true ->
                  In (replace_unit 45%N 32%N trimmed) c4)).
  { unfold c4. destruct (includes trimmed (lit "-")).
    - pose proof (set_add_spec (replace_unit 45%N 32%N trimmed) c3 N3)
        as (N & I & S & O & L & Hd).
      repeat split; auto; try lia;
        try (intros y Hy; destruct (O y Hy); auto).
    - repeat split; auto using incl_refl; try lia; try discriminate. }
  destruct P4 as (N4 & S4 & L4 & Hd4 & O4 & I4).
  change (NoDup c4 /\ 1 <= List.length c4 <= 4 /\ hd_error c4 = Some trimmed /\
          In (trim id) c4 /\
          (forall c, In c c4 ->
             c = trimmed \/ c = trim id \/
             (includes trimmed (lit " ") = true /\
              c = replace_ws_runs (lit "-") trimmed) \/
             (includes trimmed (lit "-") = true /\
              c = replace_unit 45%N 32%N trimmed)) /\
          (includes trimmed (lit " ") = true ->
             In (replace_ws_runs (lit "-") trimmed) c4 /\
             Forall (fun c => is_ws c = false)
               (replace_ws_runs (lit "-") trimmed)) /\
          (includes trimmed (lit "-") = true ->
             In (replace_unit 45%N 32%N trimmed) c4 /\
             ~ In 45%N (replace_unit 45%N 32%N trimmed))).
  split; [exact N4|]. split.
  { assert (Lc1 : List.length c1 = 1) by reflexivity. lia. }
  split; [congruence|]. split; [auto|]. split; [|split].
  - intros c Hc. destruct (O4 c Hc) as [H|H]; [auto|].
    destruct (O3 c H) as [H'|H']; [auto|].
    destruct (O2 c H') as [H''|H'']; [auto|].
    destruct (O1 c H'') as [H3|[]]. auto.
  - intros H. split; [auto|].
    apply replace_ws_from_no_ws. repeat constructor.
  - intros H. split; [auto|]. apply replace_unit_gone. discriminate.
Qed.

Lemma statuteIdCandidates_invariants_witness :
  statuteIdCandidates Js.toLowerCase (lit "  PDPA BE-2562 ")
  = [lit "pdpa be-2562"; lit "PDPA BE-2562"; lit "pdpa-be-2562";
     lit "pdpa be 2562"] /\
  NoDup (statuteIdCandidates Js.toLowerCase (lit "  PDPA BE-2562 ")).
Proof.
  split; [vm_compute; reflexivity|].
  exact (proj1 (statuteIdCandidates_invariants Js.toLowerCase
                  (lit "  PDPA BE-2562 "))).
Defined.

(** X11: an identifier is valid exactly when it holds a code unit that is
    not white space. *)
Theorem isValidStatuteId_iff (id : str) :
  isValidStatuteId id = true <-> exists c, In c id /\ is_ws c = false.
Proof.
  unfold isValidStatuteId. rewrite andb_true_iff, !Nat.ltb_lt.
  destruct (trim_decompose id) as (w1 & w2 & E & H1 & H2).
  split.
  - intros (_ & H).
    destruct (trim_ends id) as [Et|(a & u & b & (Ea & Ha) & _)].
    + rewrite Et in H. simpl in H. lia.
    + exists a. split; [|exact Ha]. rewrite E, Ea.
      apply in_or_app. right. left. reflexivity.
  - intros (c & Hc & Hw).
    assert (Ht : trim id <> []).
    { intros Et. rewrite Et in E. simpl in E. rewrite E in Hc.
      assert (Hall : Forall (fun c => is_ws c = true) (w1 ++ w2))
        by (apply Forall_app; auto).
      rewrite Forall_forall in Hall. rewrite (Hall c Hc) in Hw. discriminate. }
    split.
    + destruct id; [destruct Hc | simpl; lia].
    + destruct (trim id); [congruence | simpl; lia].
Qed.

(** ** The date of a search *)

Import AsOfDate.

(** What [ISO_DATE_PATTERN] accepts. *)
Lemma iso_date_shape (t : str) :
  re_test ISO_DATE_PATTERN t = true ->
  exists y1 y2 y3 y4 m1 m2 d1 d2,
    t = [y1; y2; y3; y4; 45%N; m1; m2; 45%N; d1; d2] /\
    Forall (fun c => is_digit c = true) [y1; y2; y3; y4; m1; m2; d1; d2].
Proof.
  unfold re_test. fold (re_match ISO_DATE_PATTERN t).
  change ISO_DATE_PATTERN with
    (Seq Bol (Seq digit4 (Seq (chr 45%N) (Seq (Seq digit digit)
       (Seq (chr 45%N) (Seq (Seq digit digit) Eol)))))).
  rewrite re_match_anchored.
  destruct (rmatch _ [] t [] accept) as [res|] eqn:E; [|discriminate].
  intros _. apply rmatch_sound in E as (l' & s' & c' & H & _).
  destruct H as (l1 & s1 & c1 & Hy & l2 & s2 & c2 & Hd1 & l3 & s3 & c3 & Hm &
                 l4 & s4 & c4 & Hd2 & l5 & s5 & c5 & Hd & He).
  apply den_digit4 in Hy as (y1 & y2 & y3 & y4 & -> & Hy1 & Hy2 & Hy3 & Hy4).
  destruct Hd1 as (a & -> & Ha & _ & _).
  destruct Hm as (la & sa & ca & (m1 & -> & Hm1 & _ & _) &
                  (m2 & -> & Hm2 & _ & _)).
  destruct Hd2 as (b & -> & Hb & _ & _).
  destruct Hd as (lb & sb & cb & (d1 & -> & Hd1 & _ & _) &
                  (d2 & -> & Hd2 & _ & _)).
  destruct He as (-> & _).
  unfold char_eqb in Ha, Hb. apply N.eqb_eq in Ha, Hb. subst a b.
  exists y1, y2, y3, y4, m1, m2, d1, d2. split; [reflexivity|].
  repeat constructor; assumption.
Qed.

(** X12: [normalizeAsOfDate] returns [undefined] for a missing or blank
    value.  A string it returns is the trimmed input, has the shape
    YYYY-MM-DD (ten code units: digits, with a hyphen at the fifth and the
    eighth place), passed the calendar check, and is returned unchanged when
    given back.  It raises its one error exactly for a value that is not
    blank and fails the pattern or the calendar check. *)
Theorem normalizeAsOfDate_result (Date_parse : str -> option Z)
    (toISOString : Z -> str) :
  normalizeAsOfDate Date_parse toISOString None = Ok None /\
  (forall v, Forall (fun c => is_ws c = true) v ->
     normalizeAsOfDate Date_parse toISOString (Some v) = Ok None) /\
  (forall value r,
     normalizeAsOfDate Date_parse toISOString value = Ok (Some r) ->
     (exists v, value = Some v /\ r = trim v) /\
     (exists y1 y2 y3 y4 m1 m2 d1 d2,
        r = [y1; y2; y3; y4; 45%N; m1; m2; 45%N; d1; d2] /\
        Forall (fun c => is_digit c = true)
          [y1; y2; y3; y4; m1; m2; d1; d2]) /\
     isValidCalendarDate Date_parse toISOString r = true /\
     normalizeAsOfDate Date_parse toISOString (Some r) = Ok (Some r)) /\
  (forall value msg,
     normalizeAsOfDate Date_parse toISOString value = Throw msg ->
     msg = "Error: as_of_date must be an ISO date in YYYY-MM-DD format"%string
     /\ exists v, value = Some v /\ trim v <> [] /\
        (re_test ISO_DATE_PATTERN (trim v) = false \/
         isValidCalendarDate Date_parse toISOString (trim v) = false)).
Proof.
  split; [reflexivity|]. split; [|split].
  - intros v Hv. unfold normalizeAsOfDate. rewrite (trim_blank v Hv).
    reflexivity.
  - intros [v|] r; [|discriminate]. unfold normalizeAsOfDate.
    destruct (Nat.eqb (List.length (trim v)) 0) eqn:El; [discriminate|].
    destruct (re_test ISO_DATE_PATTERN (trim v)) eqn:Et; [|discriminate].
    destruct (isValidCalendarDate Date_parse toISOString (trim v)) eqn:Ec;
      [|discriminate].
    simpl. intros H. inversion H; subst r; clear H.
    split; [eauto|]. split; [apply iso_date_shape; exact Et|].
    split; [exact Ec|].
    rewrite trim_idempotent, El, Et, Ec. reflexivity.
  - intros [v|] msg; [|discriminate]. unfold normalizeAsOfDate.
    destruct (Nat.eqb (List.length (trim v)) 0) eqn:El; [discriminate|].
    destruct (re_test ISO_DATE_PATTERN (trim v)) eqn:Et;
      [destruct (isValidCalendarDate Date_parse toISOString (trim v)) eqn:Ec|];
      simpl; intros H; inversion H; (split; [reflexivity|]); exists v;
      (split; [reflexivity|]);
      (split; [intros E; rewrite E in El; discriminate | auto]).
Qed.

Lemma normalizeAsOfDate_result_witness :
  normalizeAsOfDate (fun _ => Some 0%Z)
    (fun _ => lit "1970-01-01T00:00:00.000Z") (Some (lit " 1970-01-01 "))
  = Ok (Some (lit "1970-01-01")) /\
  normalizeAsOfDate (fun _ => Some 0%Z)
    (fun _ => lit "1970-01-01T00:00:00.000Z") (Some (lit "1970-01-01"))
  = Ok (Some (lit "1970-01-01")).
Proof.
  assert (H : normalizeAsOfDate (fun _ => Some 0%Z)
                (fun _ => lit "1970-01-01T00:00:00.000Z")
                (Some (lit " 1970-01-01 "))
              = Ok (Some (lit "1970-01-01"))) by (vm_compute; reflexivity).
  split; [exact H|].
  exact (proj2 (proj2 (proj2
    (proj1 (proj2 (proj2 (normalizeAsOfDate_result (fun _ => Some 0%Z)
                            (fun _ => lit "1970-01-01T00:00:00.000Z"))))
       _ _ H)))).
Defined.

(** ** The citation tools *)

Import Metadata.

(** A blank citation does not parse. *)
Lemma parseCitation_blank (s : str) :
  trim s = [] ->
  exists p, parseCitation s = Ok p /\ valid p = false /\
            error p = Some (lit "Could not parse Thai citation: "
                            ++ [dquote; dquote]).
Proof.
  intros E. rewrite parseCitation_classify, E.
  eexists. split; [vm_compute; reflexivity|]. split; reflexivity.
Qed.

Lemma blank_test (s : str) :
  negb (FtsQuery.nonempty s) || Nat.eqb (List.length (trim s)) 0 = true <->
  trim s = [].
Proof.
  split.
  - intros H. apply orb_true_iff in H as [H|H].
    + destruct s; [reflexivity | discriminate].
    + destruct (trim s); [reflexivity | discriminate].
  - intros E. rewrite E. apply orb_true_r.
Qed.

(** X13: the formatting tool.  A blank citation gives the fixed result
    with the error [Empty citation] and an empty [input].  The tool raises
    exactly when [parseCitation] does.  Otherwise the result is valid, of
    type [statute], without error, with the input as given and a formatted
    text that is not empty, namely [formatCitation] of the parsed citation
    in the format asked for, [full_en] by default; or it is invalid, of
    type [unknown], with an error that is not empty and the formatted text
    equal to the [input] field. *)
Theorem formatCitationTool_result (ResponseMetadata : Type)
    (generateResponseMetadata : option Database -> ResponseMetadata)
    (i : FormatCitationTool.FormatCitationInput) :
  let tool := FormatCitationTool.formatCitationTool generateResponseMetadata in
  let fmt := match FormatCitationTool.format i with
             | Some f => f
             | None => lit "full_en"
             end in
  (trim (FormatCitationTool.citation i) = [] ->
   tool i = Ok {| results :=
                    {| FormatCitationTool.input := [];
                       FormatCitationTool.formatted := [];
                       FormatCitationTool.type := unknown;
                       FormatCitationTool.valid := false;
                       FormatCitationTool.error :=
                         Some (lit "Empty citation") |};
                  _metadata := generateResponseMetadata None |}) /\
  (forall msg, tool i = Throw msg <->
               parseCitation (FormatCitationTool.citation i) = Throw msg) /\
  (forall r, tool i = Ok r ->
     (FormatCitationTool.valid (results r) = true /\
      FormatCitationTool.type (results r) = statute /\
      FormatCitationTool.error (results r) = None /\
      FormatCitationTool.input (results r) = FormatCitationTool.citation i /\
      FormatCitationTool.formatted (results r) <> [] /\
      exists p, parseCitation (FormatCitationTool.citation i) = Ok p /\
        Parser.valid p = true /\
        FormatCitationTool.formatted (results r)
        = formatCitation p (Some fmt)) \/
     (FormatCitationTool.valid (results r) = false /\
      FormatCitationTool.type (results r) = unknown /\
      FormatCitationTool.formatted (results r)
      = FormatCitationTool.input (results r) /\
      (exists e, FormatCitationTool.error (results r) = Some e /\ e <> []) /\
      exists p, parseCitation (FormatCitationTool.citation i) = Ok p /\
        Parser.valid p = false)).
Proof.
  intros tool fmt. unfold tool, FormatCitationTool.formatCitationTool.
  destruct (negb (FtsQuery.nonempty (FormatCitationTool.citation i))
            || Nat.eqb (List.length (trim (FormatCitationTool.citation i))) 0)
    eqn:B.
  - apply blank_test in B.
    destruct (parseCitation_blank _ B) as (p & P & Hv & He).
    split; [reflexivity|]. split.
    + intros msg. rewrite P. split; discriminate.
    + intros r H. inversion H; subst; clear H. right. simpl.
      repeat split; eauto. eexists. split; [reflexivity | discriminate].
  - assert (Hnb : trim (FormatCitationTool.citation i) <> []).
    { intros E. apply blank_test in E. congruence. }
    split; [contradiction|].
    destruct (parseCitation (FormatCitationTool.citation i)) as [p|m] eqn:P.
    2:{ split; [|discriminate].
        intros msg; split; intros H; inversion H; reflexivity. }
    split.
    { intros msg. destruct (negb (Parser.valid p)); split; discriminate. }
    intros r. destruct (Parser.valid p) eqn:Hv; simpl;
      intros H; inversion H; subst; clear H; simpl.
    + left.
      destruct (parsed_valid_fields _ _ P Hv) as (Hty & _).
      repeat split; auto.
      * apply formatCitation_nonempty;
          [exact Hv | exact (parsed_section_truthy _ _ P Hv)].
      * exists p. auto.
    + right.
      destruct (parsed_invalid_fields _ _ P Hv) as (_ & He & _).
      repeat split; auto.
      * rewrite He. eexists. split; [reflexivity|].
        intros E. apply (f_equal (@List.length _)) in E.
        rewrite length_app in E. simpl in E. vm_compute in E. discriminate.
      * exists p. auto.
Qed.

(** The flags of a validation result. *)
Lemma validateCitation_flags (like : str -> str -> bool) (db : Database)
    (s : str) (v : Validator.ValidationResult) :
  Validator.validateCitation like db s = Ok v ->
  parseCitation s = Ok (Validator.citation v) /\
  (Validator.provision_exists v = true ->
   Validator.document_exists v = true) /\
  (Validator.document_exists v = true ->
   valid (Validator.citation v) = true) /\
  (Validator.provision_exists v = false -> Validator.warnings v <> []).
Proof.
  unfold Validator.validateCitation.
  destruct (parseCitation s) as [parsed|msg] eqn:P; [|discriminate].
  intros H. inversion H; subst; clear H.
  destruct (valid parsed) eqn:Ev; simpl.
  2:{ repeat split; auto; discriminate. }
  destruct (find _ (legal_documents db)) as [doc|] eqn:Ed; simpl.
  2:{ repeat split; auto; discriminate. }
  rewrite (parsed_section_truthy s parsed P Ev).
  destruct (find _ (legal_provisions db)); simpl.
  - repeat split; auto; discriminate.
  - repeat split; auto; try discriminate.
    intros _ E. apply (f_equal (@List.length _)) in E.
    rewrite length_app in E. simpl in E. lia.
Qed.

Lemma validateCitation_throws (like : str -> str -> bool) (db : Database)
    (s : str) (msg : String.string) :
  Validator.validateCitation like db s = Throw msg <->
  parseCitation s = Throw msg.
Proof.
  unfold Validator.validateCitation.
  destruct (parseCitation s); split; intros H; inversion H; reflexivity.
Qed.

(** X14: the validation tool.  A blank citation gives the fixed result
    with the warning [Empty citation].  The tool raises exactly when
    [parseCitation] does.  Otherwise [valid] equals [provision_exists],
    which implies [document_exists]; a result that is not valid carries a
    warning; the formatted citation is not empty exactly when the citation
    parses, and starts with [Section] when the document exists. *)
Theorem validateCitationTool_result (like : str -> str -> bool)
    (ResponseMetadata : Type)
    (generateResponseMetadata : option Database -> ResponseMetadata)
    (db : Database) (i : ValidateCitationTool.ValidateCitationInput) :
  let tool :=
    ValidateCitationTool.validateCitationTool like generateResponseMetadata
      db in
  (trim (ValidateCitationTool.input_citation i) = [] ->
   tool i = Ok {| results :=
                    {| ValidateCitationTool.citation :=
                         ValidateCitationTool.input_citation i;
                       ValidateCitationTool.formatted_citation := [];
                       ValidateCitationTool.valid := false;
                       ValidateCitationTool.document_exists := false;
                       ValidateCitationTool.provision_exists := false;
                       ValidateCitationTool.document_title := None;
                       ValidateCitationTool.status := None;
                       ValidateCitationTool.warnings :=
                         [lit "Empty citation"] |};
                  _metadata := generateResponseMetadata (Some db) |}) /\
  (forall msg, tool i = Throw msg <->
     parseCitation (ValidateCitationTool.input_citation i) = Throw msg) /\
  (forall r, tool i = Ok r ->
     ValidateCitationTool.citation (results r)
     = ValidateCitationTool.input_citation i /\
     ValidateCitationTool.valid (results r)
     = ValidateCitationTool.provision_exists (results r) /\
     (ValidateCitationTool.provision_exists (results r) = true ->
      ValidateCitationTool.document_exists (results r) = true) /\
     (ValidateCitationTool.valid (results r) = false ->
      ValidateCitationTool.warnings (results r) <> []) /\
     (ValidateCitationTool.formatted_citation (results r) <> [] <->
      exists p,
        parseCitation (ValidateCitationTool.input_citation i) = Ok p /\
        valid p = true) /\
     (ValidateCitationTool.document_exists (results r) = true ->
      exists x,
        ValidateCitationTool.formatted_citation (results r)
        = lit "Section " ++ x)).
Proof.
  intros tool. unfold tool, ValidateCitationTool.validateCitationTool.
  destruct (negb (FtsQuery.nonempty (ValidateCitationTool.input_citation i))
            || Nat.eqb (List.length
                          (trim (ValidateCitationTool.input_citation i))) 0)
    eqn:B.
  - apply blank_test in B.
    destruct (parseCitation_blank _ B) as (p & P & Hv & He).
    split; [reflexivity|]. split.
    + intros msg. rewrite P. split; discriminate.
    + intros r H. inversion H; subst; clear H. simpl.
      repeat split; auto; try discriminate.
      * intros H. exfalso. apply H. reflexivity.
      * intros (p' & P' & Hv'). congruence.
  - assert (Hnb : trim (ValidateCitationTool.input_citation i) <> []).
    { intros E. apply blank_test in E. congruence. }
    split; [contradiction|].
    destruct (Validator.validateCitation like db
                (ValidateCitationTool.input_citation i)) as [v|m] eqn:V.
    2:{ apply validateCitation_throws in V. rewrite V.
        split; [|discriminate].
        intros msg; split; intros H; inversion H; reflexivity. }
    destruct (validateCitation_flags _ _ _ _ V) as (P & Hpd & Hdv & Hw).
    split.
    { intros msg. rewrite P. split; discriminate. }
    intros r H. inversion H; subst; clear H. simpl.
    split; [reflexivity|]. split; [|split; [exact Hpd|split; [|split]]].
    + destruct (Validator.provision_exists v) eqn:Ep.
      * rewrite (Hpd eq_refl), (Hdv (Hpd eq_refl)). reflexivity.
      * rewrite andb_false_r. reflexivity.
    + intros H. apply Hw.
      destruct (Validator.provision_exists v) eqn:Ep; [|reflexivity].
      rewrite (Hpd eq_refl), (Hdv (Hpd eq_refl)) in H. discriminate.
    + split.
      * intros H. exists (Validator.citation v). split; [exact P|].
        destruct (valid (Validator.citation v)) eqn:Ev; [reflexivity|].
        exfalso. apply H. apply formatCitation_invalid. auto.
      * intros (p & P' & Hv). rewrite P in P'. inversion P'; subst p.
        apply formatCitation_nonempty;
          [exact Hv | exact (parsed_section_truthy _ _ P Hv)].
    + intros Hd. pose proof (Hdv Hd) as Hv.
      unfold formatCitation.
      rewrite Hv, (parsed_section_truthy _ _ P Hv). simpl.
      rewrite full_en_template_text. eexists. reflexivity.
Qed.

Lemma validateCitationTool_result_witness :
  exists r,
    ValidateCitationTool.validateCitationTool sqlite_like
      (fun _ : option Database => tt) example_db
      {| ValidateCitationTool.input_citation :=
           lit "Section 3, Personal Data Protection Act B.E. 2562" |} = Ok r /\
    ValidateCitationTool.valid (results r) = true /\
    ValidateCitationTool.formatted_citation (results r)
    = lit "Section 3, Personal Data Protection Act B.E. 2562 (2019)" /\
    ValidateCitationTool.valid (results r)
    = ValidateCitationTool.provision_exists (results r).
Proof.
  eexists. split; [vm_compute; reflexivity|].
  split; [reflexivity|]. split; [vm_compute; reflexivity|].
  apply (proj2 (proj2 (validateCitationTool_result sqlite_like unit
                         (fun _ => tt) example_db
                         {| ValidateCitationTool.input_citation :=
                              lit "Section 3, Personal Data Protection Act B.E. 2562" |}))).
  vm_compute. reflexivity.
Defined.

Lemma formatCitationTool_result_witness :
  exists r,
    FormatCitationTool.formatCitationTool (fun _ : option Database => tt)
      {| FormatCitationTool.citation := lit "pdpa-be2562, s. 3";
         FormatCitationTool.format := None |} = Ok r /\
    FormatCitationTool.formatted (results r)
    = lit "Section 3, pdpa-be2562 B.E.  ()" /\
    (FormatCitationTool.valid (results r) = true \/
     FormatCitationTool.valid (results r) = false).
Proof.
  eexists. split; [vm_compute; reflexivity|].
  split; [vm_compute; reflexivity|].
  destruct (proj2 (proj2 (formatCitationTool_result unit (fun _ => tt)
                            {| FormatCitationTool.citation :=
                                 lit "pdpa-be2562, s. 3";
                               FormatCitationTool.format := None |}))
              _ ltac:(vm_compute; reflexivity)) as [(H & _)|(H & _)];
    [left | right]; exact H.
Defined.

(** ** The query builder, whatever the mode *)

Lemma strip_comments_other (s : str) (c : char) :
  char_eqb c 45%N = false -> In c s -> In c (strip_comments s).
Proof.
  intros Hc. revert s. apply (strip_comments_ind (fun s => In c s -> In c (strip_comments s))).
  - auto.
  - auto.
  - intros s IH [E|[E|H]].
    + subst c. discriminate.
    + subst c. discriminate.
    + rewrite strip_comments_skip. auto.
  - intros a b s Hab IH [E|H]; rewrite (strip_comments_keep _ _ _ Hab).
    + left. exact E.
    + right. auto.
Qed.

(** In explicit syntax a code unit survives the normalisation. *)
Lemma explicit_keeps_unit (t : str) :
  explicit_syntax t ->
  strip_comments (strip_semicolons (normalise_quotes t)) <> [].
Proof.
  intros H.
  assert (Hc : exists c, In c t /\ is_smart_quote c = false /\
                         char_eqb c 59%N = false /\ char_eqb c 45%N = false).
  { destruct H as [H|[H|[H|[H|H]]]].
    - exists dquote. auto.
    - destruct H as (pre & post & -> & _). exists 65%N.
      split; [|auto]. apply in_or_app. right. left. reflexivity.
    - destruct H as (pre & post & -> & _). exists 79%N.
      split; [|auto]. apply in_or_app. right. left. reflexivity.
    - destruct H as (pre & post & -> & _). exists 78%N.
      split; [|auto]. apply in_or_app. right. left. reflexivity.
    - destruct H as (pre & ->). exists 42%N.
      split; [|auto]. apply in_or_app. right. left. reflexivity. }
  destruct Hc as (c & Hin & Hq & Hs & Hd).
  assert (H1 : In c (normalise_quotes t)).
  { unfold normalise_quotes. apply in_map_iff. exists c. rewrite Hq. auto. }
  assert (H2 : In c (strip_semicolons (normalise_quotes t))).
  { unfold strip_semicolons. apply filter_In. rewrite Hs. auto. }
  apply (strip_comments_other _ _ Hd) in H2.
  intros E. rewrite E in H2. destruct H2.
Qed.

Lemma quoteCount_app (u v : str) :
  quoteCount (u ++ v) = quoteCount u + quoteCount v.
Proof. unfold quoteCount. rewrite filter_app, length_app. reflexivity. Qed.

Lemma quoteCount_none (s : str) :
  ~ In dquote s -> quoteCount s = 0.
Proof.
  intros H. unfold quoteCount. induction s as [|a s IH]; [reflexivity|].
  simpl. destruct (char_eqb a dquote) eqn:E.
  - unfold char_eqb in E. apply N.eqb_eq in E. subst a.
    exfalso. apply H. left. reflexivity.
  - apply IH. intros Hin. apply H. right. exact Hin.
Qed.

(** A sanitised token holds no double quote, when the double quote is
    neither a letter nor a number. *)
Lemma sanitiseToken_no_quote (unicode_L unicode_N : N -> bool) (t : str) :
  unicode_L 34%N = false -> unicode_N 34%N = false ->
  ~ In dquote (sanitiseToken unicode_L unicode_N t).
Proof.
  intros HL HN.
  assert (Hk : kept unicode_L unicode_N dquote = false).
  { unfold kept, dquote. rewrite HL, HN. reflexivity. }
  assert (H : forall n t, List.length t <= n ->
                ~ In dquote (sanitiseToken unicode_L unicode_N t)).
  { induction n as [|n IH]; intros u Hn.
    - destruct u; [intros [] | simpl in Hn; lia].
    - destruct u as [|a [|b u]].
      + intros [].
      + simpl. destruct (kept unicode_L unicode_N a) eqn:Ea; [|intros []].
        intros [E|[]]. subst a. congruence.
      + simpl in Hn.
        change (sanitiseToken unicode_L unicode_N (a :: b :: u)) with
          (if is_high_surrogate a && is_low_surrogate b then
             if kept unicode_L unicode_N (code_point a b)
             then a :: b :: sanitiseToken unicode_L unicode_N u
             else sanitiseToken unicode_L unicode_N u
           else if kept unicode_L unicode_N a
                then a :: sanitiseToken unicode_L unicode_N (b :: u)
                else sanitiseToken unicode_L unicode_N (b :: u)).
        destruct (is_high_surrogate a && is_low_surrogate b) eqn:Es.
        * apply andb_true_iff in Es as (Ha & Hb).
          destruct (kept unicode_L unicode_N (code_point a b));
            [|apply IH; lia].
          intros [E|[E|H]].
          -- subst a. discriminate.
          -- subst b. discriminate.
          -- revert H. apply IH. lia.
        * destruct (kept unicode_L unicode_N a) eqn:Ea;
            [|apply IH; simpl; lia].
          intros [E|H]; [subst a; congruence|].
          revert H. apply IH. simpl. lia. }
  apply (H (List.length t)). lia.
Qed.

Lemma quoteCount_join_quoted (ts : list str) :
  Forall (fun t => quoteCount t = 0) ts ->
  quoteCount (join (lit " ")
                (map (fun t => [dquote] ++ t ++ [dquote] ++ lit "*") ts))
  = 2 * List.length ts.
Proof.
  induction 1 as [|t ts Ht Hts IH]; [reflexivity|].
  assert (Hq : quoteCount ([dquote] ++ t ++ [dquote] ++ lit "*") = 2).
  { rewrite !quoteCount_app, Ht. reflexivity. }
  destruct ts as [|t' ts].
  - change (quoteCount ([dquote] ++ t ++ [dquote] ++ lit "*") = 2 * 1).
    exact Hq.
  - change (join (lit " ") (map (fun t0 => [dquote] ++ t0 ++ [dquote] ++ lit "*")
                              (t :: t' :: ts)))
      with (([dquote] ++ t ++ [dquote] ++ lit "*") ++ lit " "
            ++ join (lit " ")
                 (map (fun t0 => [dquote] ++ t0 ++ [dquote] ++ lit "*")
                    (t' :: ts))).
    rewrite quoteCount_app, Hq, quoteCount_app, IH. simpl List.length.
    change (quoteCount (lit " ")) with 0. lia.
Qed.

Lemma quoteCount_join_bare (ts : list str) :
  Forall (fun t => quoteCount t = 0) ts ->
  quoteCount (join (lit " OR ") (map (fun t => t ++ lit "*") ts)) = 0.
Proof.
  induction 1 as [|t ts Ht Hts IH]; [reflexivity|].
  assert (Hq : quoteCount (t ++ lit "*") = 0).
  { rewrite quoteCount_app, Ht. reflexivity. }
  destruct ts as [|t' ts].
  - change (quoteCount (t ++ lit "*") = 0). exact Hq.
  - change (join (lit " OR ") (map (fun t0 => t0 ++ lit "*") (t :: t' :: ts)))
      with ((t ++ lit "*") ++ lit " OR "
            ++ join (lit " OR ") (map (fun t0 => t0 ++ lit "*") (t' :: ts))).
    rewrite quoteCount_app, Hq, quoteCount_app, IH. reflexivity.
Qed.

(** X15: whatever the input and the mode, the primary query is not empty
    and holds an even number of double quotes, and a fallback is not empty
    and holds none; this when the double quote is neither a letter nor a
    number for the two Unicode classes. *)
Theorem ftsQuery_quotes_balanced (unicode_L unicode_N : N -> bool)
    (query : str) :
  unicode_L 34%N = false -> unicode_N 34%N = false ->
  let v := buildFtsQueryVariants unicode_L unicode_N query in
  primary v <> [] /\
  Nat.even (quoteCount (primary v)) = true /\
  (forall f, fallback v = Some f -> f <> [] /\ quoteCount f = 0).
Proof.
  intros HL HN v. unfold v, buildFtsQueryVariants.
  set (trimmed := slice0 MAX_QUERY_LENGTH (trim query)).
  destruct (Nat.eqb (List.length trimmed) 0).
  { simpl. repeat split; try discriminate. }
  destruct (re_test EXPLICIT_FTS_SYNTAX trimmed) eqn:Ex.
  - apply explicit_mode_sound in Ex.
    pose proof (explicit_keeps_unit trimmed Ex) as Hne.
    destruct (normalised_clean trimmed) as (_ & _ & Hl).
    set (stripped := strip_comments (strip_semicolons (normalise_quotes trimmed)))
      in *.
    assert (Hs : slice0 MAX_QUERY_LENGTH stripped = stripped).
    { unfold slice0. apply firstn_all2.
      eapply Nat.le_trans; [exact Hl|]. apply firstn_le_length. }
    rewrite Hs, mod2_even.
    destruct (Nat.even (quoteCount stripped)) eqn:E; simpl.
    + repeat split; auto; discriminate.
    + split; [|split; [|discriminate]].
      * destruct stripped; discriminate.
      * rewrite quoteCount_snoc, Nat.even_succ, <- Nat.negb_even, E.
        reflexivity.
  - assert (Htok : Forall (fun t => quoteCount t = 0)
                     (tokens_of unicode_L unicode_N trimmed)).
    { apply Forall_forall. intros t Ht. unfold tokens_of in Ht.
      apply filter_In in Ht as (Ht & _). apply in_map_iff in Ht as (w & <- & _).
      apply quoteCount_none, sanitiseToken_no_quote; assumption. }
    destruct (tokens_of unicode_L unicode_N trimmed) as [|t ts] eqn:Et.
    { simpl. repeat split; try discriminate. }
    assert (HP : quoteCount
                   (join (lit " ")
                      (map (fun t => [dquote] ++ t ++ [dquote] ++ lit "*")
                         (t :: ts))) = 2 * List.length (t :: ts))
      by (apply quoteCount_join_quoted; exact Htok).
    assert (HF : quoteCount
                   (join (lit " OR ") (map (fun t => t ++ lit "*") (t :: ts)))
                 = 0)
      by (apply quoteCount_join_bare; exact Htok).
    assert (Hin : In t (tokens_of unicode_L unicode_N trimmed))
      by (rewrite Et; left; reflexivity).
    unfold tokens_of in Hin. apply filter_In in Hin as (_ & Hne).
    assert (HPne : join (lit " ")
                     (map (fun t => [dquote] ++ t ++ [dquote] ++ lit "*")
                        (t :: ts)) <> [])
      by (destruct ts; discriminate).
    assert (HFne : join (lit " OR ") (map (fun t => t ++ lit "*") (t :: ts))
                   <> []).
    { destruct t as [|a t]; [discriminate|]. destruct ts; discriminate. }
    change (Nat.eqb (List.length (t :: ts)) 0) with false. cbv iota.
    split; [exact HPne|]. split.
    + transitivity (Nat.even (2 * List.length (t :: ts))).
      * f_equal. exact HP.
      * rewrite Nat.even_mul. reflexivity.
    + intros f H. injection H as <-. split; [exact HFne | exact HF].
Qed.

Lemma ftsQuery_quotes_balanced_witness :
  primary (buildFtsQueryVariants is_lower is_digit
             (lit "data (x)" ++ [dquote] ++ lit " y")) <> [] /\
  Nat.even (quoteCount
              (primary (buildFtsQueryVariants is_lower is_digit
                 (lit "data (x)" ++ [dquote] ++ lit " y")))) = true.
Proof.
  destruct (ftsQuery_quotes_balanced is_lower is_digit
              (lit "data (x)" ++ [dquote] ++ lit " y") eq_refl eq_refl)
    as (H1 & H2 & _).
  split; [exact H1 | exact H2].
Defined.

(** ** The statements of [searchLegislation] *)

Module SearchFacts.
Import SearchLegislation.







End SearchFacts.

(** ** The database builder *)

Module BuildDbFacts.
Import BuildDb.

(** *** [normalizeWhitespace] *)

Lemma replace_ws_from_true_head (rep s : str) :
  match replace_ws_from rep s true with
  | [] => True
  | c :: _ => is_ws c = false
  end.
Proof.
  induction s as [|a s IH]; simpl; [exact I|].
  destruct (is_ws a) eqn:E; [exact IH | exact E].
Qed.

Lemma replace_ws_from_false (s : str) :
  exists w, replace_ws_from (lit " ") s false
            = w ++ replace_ws_from (lit " ") s true /\
            Forall (fun c => is_ws c = true) w.
Proof.
  destruct s as [|a s]; simpl.
  - exists []. auto.
  - destruct (is_ws a).
    + exists (lit " "). split; [reflexivity | repeat constructor].
    + exists []. auto.
Qed.

Lemma replace_ws_from_word (w s : str) (b : bool) :
  w <> [] -> Forall (fun c => is_ws c = false) w ->
  replace_ws_from (lit " ") (w ++ s) b = w ++ replace_ws_from (lit " ") s false.
Proof.
  intros Hne Hw. revert b. induction Hw as [|a w Ha Hw IH]; [congruence|].
  intros b. simpl. rewrite Ha. destruct w as [|a' w].
  - reflexivity.
  - rewrite (IH ltac:(discriminate) false). reflexivity.
Qed.

Lemma trim_lpad (w x : str) :
  Forall (fun c => is_ws c = true) w -> trim (w ++ x) = trim x.
Proof.
  intros H. rewrite <- (app_nil_r x) at 1.
  rewrite (trim_padded w [] x H (Forall_nil _)). reflexivity.
Qed.

Lemma words_of_proper (s : str) (ws : list str) :
  words_of s ws ->
  Forall (fun w => w <> [] /\ Forall (fun c => is_ws c = false) w) ws.
Proof. induction 1; auto. Qed.

Lemma words_of_nil (ws : list str) : words_of [] ws -> ws = [].
Proof.
  intros H. inversion H as [| |w rest ws' Hne Hw Hr Hws E]; [reflexivity|].
  destruct w; [congruence | discriminate].
Qed.

Lemma join_nonempty (sep : str) (w : str) (ws : list str) :
  w <> [] -> join sep (w :: ws) <> [].
Proof.
  intros H. destruct w as [|a w]; [congruence|]. destruct ws; discriminate.
Qed.

Lemma word_ends (w : str) :
  w <> [] -> Forall (fun c => is_ws c = false) w ->
  exists a u b, (w = a :: u /\ is_ws a = false) /\
                (exists v, w = v ++ [b] /\ is_ws b = false).
Proof.
  intros Hne Hw. destruct w as [|a u]; [congruence|].
  exists a, u. destruct (exists_last Hne) as (v & b & E).
  exists b. inversion Hw; subst. split; [auto|]. exists v. split; [exact E|].
  rewrite Forall_forall in Hw. apply Hw. rewrite E.
  apply in_or_app. right. left. reflexivity.
Qed.

(** A string without leading white space is its trimmed form followed by
    white space. *)
Lemma trim_rest (z : str) :
  match z with [] => True | c :: _ => is_ws c = false end ->
  exists w2, z = trim z ++ w2 /\ Forall (fun c => is_ws c = true) w2.
Proof.
  intros Hz. unfold trim.
  assert (E : drop_ws z = z).
  { destruct z as [|c z]; [reflexivity|]. apply drop_ws_id. exact Hz. }
  rewrite E.
  destruct (drop_ws_prefix_ws (rev z)) as (w & Ew & Hw).
  exists (rev w). split; [|apply Forall_rev; exact Hw].
  rewrite <- rev_app_distr, <- Ew, rev_involutive. reflexivity.
Qed.

(** [normalizeWhitespace] joins the words of a text with single spaces. *)
Lemma normalizeWhitespace_words (s : str) (ws : list str) :
  words_of s ws -> normalizeWhitespace s = join (lit " ") ws.
Proof.
  unfold normalizeWhitespace, replace_ws_runs.
  induction 1 as [|a s ws Ha Hws IH|w rest ws Hne Hw Hrest Hws IH].
  - reflexivity.
  - change (replace_ws_from (lit " ") (a :: s) false)
      with (if is_ws a then lit " " ++ replace_ws_from (lit " ") s true
            else a :: replace_ws_from (lit " ") s false).
    rewrite Ha.
    rewrite (trim_lpad (lit " ")) by repeat constructor.
    destruct (replace_ws_from_false s) as (x & E & Hx).
    rewrite <- IH, E, (trim_lpad x _ Hx). reflexivity.
  - rewrite (replace_ws_from_word w rest false Hne Hw).
    pose proof (words_of_proper _ _ Hws) as Hp.
    destruct (word_ends w Hne Hw) as (a & u & b & (Ea & Hwa) & (v & Eb & Hwb)).
    destruct Hrest as [->|(c & r & -> & Hc)].
    + apply words_of_nil in Hws. subst ws. simpl. rewrite app_nil_r.
      apply trim_fixed. right. exists a, u, b. eauto.
    + change (replace_ws_from (lit " ") (c :: r) false)
        with (if is_ws c then lit " " ++ replace_ws_from (lit " ") r true
              else c :: replace_ws_from (lit " ") r false) in IH |- *.
      rewrite Hc in IH |- *.
      rewrite (trim_lpad (lit " ")) in IH by repeat constructor.
      destruct (trim_rest _ (replace_ws_from_true_head (lit " ") r))
        as (w2 & Ez & Hw2).
      rewrite IH in Ez.
      destruct ws as [|w' ws].
      * simpl in Ez. rewrite Ez.
        change (w ++ lit " " ++ w2) with ([] ++ w ++ (lit " " ++ w2)).
        apply trim_pad; [constructor | |right; exists a, u, b; eauto].
        constructor; [reflexivity | exact Hw2].
      * apply Forall_inv in Hp as (Hne' & Hw').
        rewrite Ez.
        change (join (lit " ") (w :: w' :: ws))
          with (w ++ lit " " ++ join (lit " ") (w' :: ws)).
        replace (w ++ lit " " ++ join (lit " ") (w' :: ws) ++ w2)
          with ([] ++ (w ++ lit " " ++ join (lit " ") (w' :: ws)) ++ w2)
          by (simpl; rewrite <- !app_assoc; reflexivity).
        apply trim_pad; [constructor | exact Hw2|]. right.
        assert (Hj : join (lit " ") (w' :: ws) <> [])
          by (apply join_nonempty; exact Hne').
        destruct (trim_ends (replace_ws_from (lit " ") r true))
          as [Et|(a' & u' & b' & _ & (v' & Ev' & Hb'))];
          rewrite IH in *; [congruence|].
        exists a, (u ++ lit " " ++ join (lit " ") (w' :: ws)), b'.
        split; [split; [rewrite Ea; reflexivity | exact Hwa]|].
        exists (w ++ lit " " ++ v'). split; [|exact Hb'].
        rewrite Ev', <- !app_assoc. reflexivity.
Qed.

Lemma words_of_join (ws : list str) :
  Forall (fun w => w <> [] /\ Forall (fun c => is_ws c = false) w) ws ->
  words_of (join (lit " ") ws) ws.
Proof.
  induction 1 as [|w ws (Hne & Hw) Hws IH]; [constructor|].
  destruct ws as [|w' ws].
  - simpl. rewrite <- (app_nil_r w) at 1.
    apply words_word; auto; constructor.
  - change (join (lit " ") (w :: w' :: ws))
      with (w ++ lit " " ++ join (lit " ") (w' :: ws)).
    apply words_word; auto.
    + right. eexists _, _. split; [reflexivity | reflexivity].
    + apply words_space; [reflexivity | exact IH].
Qed.

Lemma replace_ws_blank (t : str) (b : bool) :
  Forall (fun c => is_ws c = true) t ->
  Forall (fun c => is_ws c = true) (replace_ws_from (lit " ") t b).
Proof.
  intros H. revert b.
  induction H as [|a t Ha Ht IH]; intros b; simpl; [constructor|].
  rewrite Ha. destruct b; [apply IH|].
  constructor; [reflexivity | apply IH].
Qed.

(** X17: [normalizeWhitespace] returns the words of the text, its maximal
    runs without white space, joined by single spaces.  It changes nothing
    in a text it returned, returns the empty string exactly for a text made
    of white space, and gives two texts with the same words the same
    result. *)
Theorem normalizeWhitespace_canonical (t : str) :
  normalizeWhitespace t = join (lit " ") (filter nonempty (split_ws t)) /\
  normalizeWhitespace (normalizeWhitespace t) = normalizeWhitespace t /\
  (normalizeWhitespace t = [] <-> Forall (fun c => is_ws c = true) t) /\
  (forall u, filter nonempty (split_ws u) = filter nonempty (split_ws t) ->
             normalizeWhitespace u = normalizeWhitespace t).
Proof.
  pose proof (split_ws_words t) as Hw.
  pose proof (normalizeWhitespace_words _ _ Hw) as E.
  split; [exact E|]. split; [|split].
  - rewrite E. apply normalizeWhitespace_words, words_of_join.
    eapply words_of_proper. exact Hw.
  - split.
    + intros H. rewrite E in H.
      pose proof (words_of_proper _ _ Hw) as Hp.
      destruct (filter nonempty (split_ws t)) as [|w ws].
      * clear E H Hp. remember [] as l eqn:El in Hw.
        induction Hw; [constructor | constructor; auto | discriminate].
      * apply Forall_inv in Hp as (Hne & _).
        destruct (join_nonempty (lit " ") w ws Hne H).
    + intros H. unfold normalizeWhitespace, replace_ws_runs.
      apply trim_blank, replace_ws_blank. exact H.
  - intros u Hu. rewrite E, <- Hu.
    apply normalizeWhitespace_words, split_ws_words.
Qed.
(** *** Maps in insertion order *)

Lemma map_get_in {V : Type} (key : str) (m : list (str * V)) (v : V) :
  map_get key m = Some v -> In (key, v) m.
Proof.
  induction m as [|[k x] m IH]; simpl; [discriminate|].
  destruct (str_eqb k key) eqn:E.
  - apply str_eqb_eq in E. subst k. intros H. inversion H. auto.
  - auto.
Qed.

Lemma map_get_none {V : Type} (key : str) (m : list (str * V)) :
  map_get key m = None -> ~ In key (map fst m).
Proof.
  induction m as [|[k x] m IH]; simpl; [tauto|].
  destruct (str_eqb k key) eqn:E; [discriminate|].
  intros H [Hk|Hk]; [|exact (IH H Hk)].
  subst k. rewrite str_eqb_refl in E. discriminate.
Qed.

Lemma map_get_first {V : Type} (key : str) (m : list (str * V)) (v : V) :
  NoDup (map fst m) -> In (key, v) m -> map_get key m = Some v.
Proof.
  induction m as [|[k x] m IH]; simpl; [tauto|].
  intros Hn [H|H].
  - inversion H; subst. rewrite str_eqb_refl. reflexivity.
  - inversion Hn as [|? ? Hk Hn']; subst.
    destruct (str_eqb k key) eqn:E; [|auto].
    apply str_eqb_eq in E. subst k. exfalso. apply Hk.
    apply in_map_iff. exists (key, v). auto.
Qed.

Lemma map_get_set_same {V : Type} (key : str) (v : V) (m : list (str * V)) :
  map_get key (map_set key v m) = Some v.
Proof.
  induction m as [|[k x] m IH]; simpl.
  - rewrite str_eqb_refl. reflexivity.
  - destruct (str_eqb k key) eqn:E; simpl.
    + rewrite str_eqb_refl. reflexivity.
    + rewrite E. exact IH.
Qed.

Lemma map_get_set_other {V : Type} (key k' : str) (v : V)
    (m : list (str * V)) :
  k' <> key -> map_get k' (map_set key v m) = map_get k' m.
Proof.
  intros Hk. induction m as [|[k x] m IH]; simpl.
  - rewrite (str_eqb_neq key k'); [reflexivity | congruence].
  - destruct (str_eqb k key) eqn:E; simpl.
    + apply str_eqb_eq in E. subst k.
      rewrite (str_eqb_neq key k'); [reflexivity | congruence].
    + rewrite IH. reflexivity.
Qed.

Lemma map_set_keys {V : Type} (key : str) (v : V) (m : list (str * V)) :
  map fst (map_set key v m)
  = match map_get key m with
    | Some _ => map fst m
    | None => map fst m ++ [key]
    end.
Proof.
  induction m as [|[k x] m IH]; simpl; [reflexivity|].
  destruct (str_eqb k key) eqn:E; simpl.
  - apply str_eqb_eq in E. subst k. reflexivity.
  - rewrite IH. destruct (map_get key m); reflexivity.
Qed.

Lemma map_set_new {V : Type} (key : str) (v : V) (m : list (str * V)) :
  map_get key m = None -> map_set key v m = m ++ [(key, v)].
Proof.
  induction m as [|[k x] m IH]; simpl; [reflexivity|].
  destruct (str_eqb k key); [discriminate|].
  intros H. rewrite (IH H). reflexivity.
Qed.

(** *** [dedupeProvisions] *)

Section DedupeFacts.

Variable Json : Type.


Lemma pick_facts (existing incoming : ProvisionSeed Json) :
  let v := pickPreferredProvision existing incoming in
  (key_of v = key_of existing /\ content v = content existing
   \/ key_of v = key_of incoming /\ content v = content incoming) /\
  size existing <= size v /\ size incoming <= size v.
Proof.
  unfold pickPreferredProvision, size, key_of.
  destruct (Nat.ltb _ _) eqn:E; simpl.
  - apply Nat.ltb_lt in E. split; [auto | lia].
  - apply Nat.ltb_ge in E. split; [auto | lia].
Qed.

Lemma dedupe_step_inv (state : list (str * ProvisionSeed Json) * ProvisionDedupStats)
    (seen : list (ProvisionSeed Json)) (q : ProvisionSeed Json) :
  dedupe_inv state seen -> dedupe_inv (dedupe_step state q) (seen ++ [q]).
Proof.
  destruct state as [byRef stats].
  intros (Hn & Hb & Hc & Hd & He). cbn [fst snd] in *. unfold dedupe_step.
  cbv beta iota zeta. fold (key_of q).
  destruct (map_get (key_of q) byRef) as [existing|] eqn:G.
  - pose proof (pick_facts existing q) as (Hk & Hs1 & Hs2).
    set (v' := pickPreferredProvision existing q) in *.
    destruct (Hb _ _ G) as (Ke & pe & Hpe & Kpe & Cpe).
    assert (Kv : key_of v' = key_of q).
    { destruct Hk as [(K & _)|(K & _)]; congruence. }
    split; [|split; [|split; [|split]]]; cbn [fst snd].
    + rewrite map_set_keys, G. exact Hn.
    + intros k v Hv. destruct (list_eq_dec N.eq_dec k (key_of q)) as [->|Hk'].
      * rewrite map_get_set_same in Hv. inversion Hv; subst v.
        split; [exact Kv|].
        destruct Hk as [(_ & C)|(_ & C)].
        -- exists pe. split; [apply in_or_app; auto|].
           split; [congruence | congruence].
        -- exists q. split; [apply in_or_app; right; left; reflexivity|].
           auto.
      * rewrite (map_get_set_other _ _ _ _ Hk') in Hv.
        destruct (Hb _ _ Hv) as (K & p & Hp & Kp & Cp).
        split; [exact K|]. exists p. split; [apply in_or_app; auto | auto].
    + intros p Hp.
      destruct (list_eq_dec N.eq_dec (key_of p) (key_of q)) as [E|Hk'].
      * rewrite E, map_get_set_same. exists v'. split; [reflexivity|].
        apply in_app_or in Hp as [Hp|[<-|[]]]; [|exact Hs2].
        destruct (Hc p Hp) as (v & Gv & Sv). rewrite E, G in Gv.
        inversion Gv; subst v. lia.
      * rewrite (map_get_set_other _ _ _ _ Hk').
        apply in_app_or in Hp as [Hp|[<-|[]]]; [auto | congruence].
    + assert (L : List.length (map_set (key_of q) v' byRef)
                  = List.length byRef).
      { rewrite <- (length_map fst), map_set_keys, G, length_map.
        reflexivity. }
      rewrite L, length_app. simpl in Hd |- *.
      destruct (negb _); simpl; lia.
    + simpl in He. destruct (negb _); simpl; lia.
  - set (q' := {| provision_ref := key_of q; chapter := chapter q;
                  section := section q; title := title q;
                  content := content q; language := language q;
                  metadata := metadata q |}).
    assert (Kq' : key_of q' = key_of q).
    { unfold key_of at 1. simpl. apply trim_idempotent. }
    split; [|split; [|split; [|split]]]; cbn [fst snd].
    + rewrite map_set_keys, G. apply NoDup_app; [exact Hn | repeat constructor; auto|].
      intros a Ha [<-|[]]. exact (map_get_none _ _ G Ha).
    + intros k v Hv. destruct (list_eq_dec N.eq_dec k (key_of q)) as [->|Hk'].
      * rewrite map_get_set_same in Hv. inversion Hv; subst v.
        split; [exact Kq'|]. exists q.
        split; [apply in_or_app; right; left; reflexivity | auto].
      * rewrite (map_get_set_other _ _ _ _ Hk') in Hv.
        destruct (Hb _ _ Hv) as (K & p & Hp & Kp & Cp).
        split; [exact K|]. exists p. split; [apply in_or_app; auto | auto].
    + intros p Hp.
      destruct (list_eq_dec N.eq_dec (key_of p) (key_of q)) as [E|Hk'].
      * rewrite E, map_get_set_same. exists q'. split; [reflexivity|].
        apply in_app_or in Hp as [Hp|[<-|[]]]; [|unfold size; simpl; lia].
        destruct (Hc p Hp) as (v & Gv & _). rewrite E, G in Gv. discriminate.
      * rewrite (map_get_set_other _ _ _ _ Hk').
        apply in_app_or in Hp as [Hp|[<-|[]]]; [auto | congruence].
    + rewrite (map_set_new _ _ _ G), !length_app. simpl in Hd |- *. lia.
    + exact He.
Qed.

Lemma dedupe_fold_inv (ps : list (ProvisionSeed Json)) :
  forall state seen,
    dedupe_inv state seen ->
    dedupe_inv (fold_left (@dedupe_step Json) ps state) (seen ++ ps).
Proof.
  induction ps as [|q ps IH]; intros state seen H; simpl.
  - rewrite app_nil_r. exact H.
  - replace (seen ++ q :: ps) with ((seen ++ [q]) ++ ps)
      by (rewrite <- app_assoc; reflexivity).
    apply IH, dedupe_step_inv. exact H.
Qed.

(** X18: [dedupeProvisions] returns one provision for each trimmed
    reference: the trimmed references of the result are distinct, the
    provisions returned and the duplicates counted add up to the provisions
    given, and the conflicting duplicates are among the duplicates.  Every
    provision given is represented by a returned one with the same trimmed
    reference, whose normalised content is at least as long; every provision
    returned has the content of a provision given with the same trimmed
    reference. *)
Theorem dedupeProvisions_invariants (provisions : list (ProvisionSeed Json)) :
  let deduped := fst (dedupeProvisions provisions) in
  let stats := snd (dedupeProvisions provisions) in
  NoDup (map (fun v => trim (provision_ref v)) deduped) /\
  List.length deduped + duplicate_refs stats = List.length provisions /\
  conflicting_duplicates stats <= duplicate_refs stats /\
  (forall p, In p provisions ->
     exists v, In v deduped /\
       trim (provision_ref v) = trim (provision_ref p) /\
       List.length (normalizeWhitespace (content p))
       <= List.length (normalizeWhitespace (content v))) /\
  (forall v, In v deduped ->
     exists p, In p provisions /\
       trim (provision_ref v) = trim (provision_ref p) /\
       content v = content p).
Proof.
  intros deduped stats. unfold deduped, stats, dedupeProvisions.
  assert (H0 : @dedupe_inv Json
                 ([], {| duplicate_refs := 0; conflicting_duplicates := 0 |})
                 []).
  { split; [constructor|]. split; [discriminate|].
    split; [intros p []|]. split; reflexivity. }
  pose proof (dedupe_fold_inv provisions _ _ H0) as H.
  destruct (fold_left (@dedupe_step Json) provisions
              ([], {| duplicate_refs := 0; conflicting_duplicates := 0 |}))
    as [byRef st].
  destruct H as (Hn & Hb & Hc & Hd & He). cbn [fst snd app] in *.
  assert (Hkeys : map (fun v => trim (provision_ref v)) (map snd byRef)
                  = map fst byRef).
  { rewrite map_map. apply map_ext_in. intros [k v] Hin.
    apply (map_get_first _ _ _ Hn) in Hin. apply Hb in Hin as (K & _).
    exact K. }
  split; [rewrite Hkeys; exact Hn|].
  split; [rewrite length_map; exact Hd|]. split; [exact He|]. split.
  - intros p Hp. destruct (Hc p Hp) as (v & G & S).
    exists v. split.
    + apply in_map_iff. exists (key_of p, v). split; [reflexivity|].
      apply map_get_in. exact G.
    + destruct (Hb _ _ G) as (K & _). auto.
  - intros v Hv. apply in_map_iff in Hv as ([k x] & E & Hin).
    simpl in E. subst x. apply (map_get_first _ _ _ Hn) in Hin.
    destruct (Hb _ _ Hin) as (K & p & Hp & Kp & Cp).
    exists p. split; [exact Hp|]. unfold key_of in *.
    split; [congruence | exact Cp].
Qed.

End DedupeFacts.

Lemma dedupeProvisions_invariants_witness :
  fst (dedupeProvisions
         [ {| provision_ref := lit "s1"; chapter := None; section := lit "1";
              title := Some (lit "Short title"); content := lit "a";
              language := None; metadata := @None unit |};
           {| provision_ref := lit " s1 "; chapter := None; section := lit "1";
              title := None; content := lit "a  b";
              language := None; metadata := None |} ])
  = [ {| provision_ref := lit " s1 "; chapter := None; section := lit "1";
         title := Some (lit "Short title"); content := lit "a  b";
         language := None; metadata := None |} ] /\
  List.length
    (fst (dedupeProvisions
         [ {| provision_ref := lit "s1"; chapter := None; section := lit "1";
              title := Some (lit "Short title"); content := lit "a";
              language := None; metadata := @None unit |};
           {| provision_ref := lit " s1 "; chapter := None; section := lit "1";
              title := None; content := lit "a  b";
              language := None; metadata := None |} ]))
  + duplicate_refs
      (snd (dedupeProvisions
         [ {| provision_ref := lit "s1"; chapter := None; section := lit "1";
              title := Some (lit "Short title"); content := lit "a";
              language := None; metadata := @None unit |};
           {| provision_ref := lit " s1 "; chapter := None; section := lit "1";
              title := None; content := lit "a  b";
              language := None; metadata := None |} ]))
  = 2.
Proof.
  split; [vm_compute; reflexivity|].
  exact (proj1 (proj2 (dedupeProvisions_invariants unit _))).
Defined.

End BuildDbFacts.

(** ** The ingestion parser *)

Module IngestFacts.
Import Ingest.

Lemma year_group_digits (r : regex) (t : str) (m : caps) :
  groups_of r = [(1, digit4)] -> always_sets 1 r = true ->
  re_match r t = Some m ->
  exists a b d e pre post,
    group m 1 = [a; b; d; e] /\ t = pre ++ [a; b; d; e] ++ post /\
    is_digit a = true /\ is_digit b = true /\
    is_digit d = true /\ is_digit e = true.
Proof.
  intros Hg Hs H.
  destruct (re_match_sets _ _ _ _ Hs H) as (w & Hw).
  unfold group. rewrite Hw.
  destruct (re_match_captured _ _ _ _ _ H Hw)
    as (r' & la & sa & ca & lb & sb & cb & pre & Hin & Hd & Esa & Et).
  rewrite Hg in Hin. destruct Hin as [Hin|[]]. inversion Hin; subst r'.
  apply den_digit4 in Hd as (a & b & d & e & Es & Ha & Hb & Hd & He).
  rewrite Es in Esa. apply app_inv_tail in Esa. subst w.
  exists a, b, d, e, pre, sb. subst t sa. auto 10.
Qed.

(** X19: when [extractBeYear] returns a year, it is an integer between 0
    and 9999, never [NaN]: the value of four consecutive digits of the
    text. *)
Theorem extractBeYear_range (txt : str) (n : num) :
  extractBeYear txt = Some n ->
  exists y a b d e pre post,
    n = Int y /\ (0 <= y <= 9999)%Z /\
    txt = pre ++ [a; b; d; e] ++ post /\
    Forall (fun c => is_digit c = true) [a; b; d; e] /\
    y = (digit_val a * 1000 + digit_val b * 100 + digit_val d * 10
         + digit_val e)%Z.
Proof.
  unfold extractBeYear.
  assert (G : forall r m, groups_of r = [(1, digit4)] ->
                always_sets 1 r = true -> re_match r txt = Some m ->
                Some (parseInt10 (group m 1)) = Some n ->
                exists y a b d e pre post,
                  n = Int y /\ (0 <= y <= 9999)%Z /\
                  txt = pre ++ [a; b; d; e] ++ post /\
                  Forall (fun c => is_digit c = true) [a; b; d; e] /\
                  y = (digit_val a * 1000 + digit_val b * 100
                       + digit_val d * 10 + digit_val e)%Z).
  { intros r m Hg Hs Hm Hn.
    destruct (year_group_digits r txt m Hg Hs Hm)
      as (a & b & d & e & pre & post & Eg & Et & Ha & Hb & Hd & He).
    destruct (parseInt10_digit4 a b d e Ha Hb Hd He) as (y & Ey & Hy & Ev).
    rewrite Eg, Ey in Hn. inversion Hn; subst n.
    exists y, a, b, d, e, pre, post. repeat split; auto; try lia. }
  destruct (re_match THAI_BE_YEAR txt) as [m|] eqn:E1.
  - apply (G THAI_BE_YEAR m); [reflexivity | reflexivity | exact E1].
  - destruct (re_match ENGLISH_BE_YEAR txt) as [m|] eqn:E2; [|discriminate].
    apply (G ENGLISH_BE_YEAR m); [reflexivity | reflexivity | exact E2].
Qed.

Lemma extractBeYear_range_witness :
  extractBeYear (lit "Act B.E. 2500 (พ.ศ. 2562)") = Some (Int 2562) /\
  exists y a b d e pre post,
    Int 2562 = Int y /\ (0 <= y <= 9999)%Z /\
    lit "Act B.E. 2500 (พ.ศ. 2562)" = pre ++ [a; b; d; e] ++ post /\
    Forall (fun c => is_digit c = true) [a; b; d; e] /\
    y = (digit_val a * 1000 + digit_val b * 100 + digit_val d * 10
         + digit_val e)%Z.
Proof.
  assert (H : extractBeYear (lit "Act B.E. 2500 (พ.ศ. 2562)")
              = Some (Int 2562)) by (vm_compute; reflexivity).
  split; [exact H|].
  exact (extractBeYear_range _ _ H).
Defined.

End IngestFacts.
